(** * Trinity.C socket server (posix): a shallow embedding

    The development follows
    [src/Trinity.C/src/Network/Server/posix/TrinitySocketServer.cpp]:
    the per-socket context registry ([psco_map]), the life cycle of a
    [PerSocketContextObject], the receive and send pipelines and the
    start-up sequence of the listening socket.

    The C++ code works on raw memory ([malloc], [realloc], [free]) and on
    file descriptors.  Both are modelled explicitly: a heap of live
    objects indexed by address, a set of open descriptors, and, for every
    descriptor, the list of events its next [read] calls will observe.
    Undefined behaviour of the C++ program (writing through a dangling
    pointer, freeing twice, ...) is an explicit [Fault] outcome, and the
    two busy loops of [ProcessRecv] carry an iteration budget. *)

From Stdlib Require Import ZArith List Lia Bool.
From Stdlib Require Import Init.Byte SpecFloat.
From stdpp Require Import base option list gmap.

Local Open Scope Z_scope.

(** ** Outcomes *)

Inductive fault :=
  | UseAfterFree   (* access to an object that is not (or no longer) live *)
  | OutOfBounds    (* access past the end of a live object *)
  | InvalidFree    (* [free] of an address that is not live: double free *)
  | BadCast        (* float to integer conversion out of range *)
  | SystemError.   (* [std::system_error] thrown, with no handler in this file *)

(** [Spin] is the outcome of a loop that used up its iteration budget. *)
Inductive Result (A : Type) :=
  | Ok (a : A)
  | Fault (f : fault)
  | Spin.
Arguments Ok {A} a.
Arguments Fault {A} f.
Arguments Spin {A}.

Definition Result_bind {A B} (f : A → Result B) (m : Result A) : Result B :=
  match m with
  | Ok a => f a
  | Fault e => Fault e
  | Spin => Spin
  end.

#[export] Instance Result_mbind : MBind Result := @Result_bind.
#[export] Instance Result_mret : MRet Result := @Ok.

(** ** Machine integers *)

Definition wrap32 (z : Z) : Z := z mod 2 ^ 32.

(** Little-endian value of a byte string (the host is x86). *)
Fixpoint le_decode (bs : list byte) : Z :=
  match bs with
  | [] => 0
  | b :: bs' => Z.of_N (Byte.to_N b) + 256 * le_decode bs'
  end.

Definition byte_of_Z (z : Z) : byte :=
  default x00 (Byte.of_N (Z.to_N (z mod 256))).

Fixpoint le_encode (n : nat) (z : Z) : list byte :=
  match n with
  | O => []
  | S n' => byte_of_Z z :: le_encode n' (z / 256)
  end.

(** ** Constants of [Network/ProtocolConstants.h] and [TrinityConfig]

    The header is not part of the sources at hand, so the constants are
    parameters of the development.  [Float_Constants] are IEEE binary32
    values. *)
Class ProtocolConstants := {
  RecvBufferSize : Z;          (* UInt32_Contants::RecvBufferSize *)
  AvgSlideWin_a : spec_float;  (* Float_Constants::AvgSlideWin_a *)
  AvgSlideWin_b : spec_float;  (* Float_Constants::AvgSlideWin_b *)
  AvgSlideWin_r : spec_float;  (* Float_Constants::AvgSlideWin_r *)
  Handshake : bool;            (* TrinityConfig::Handshake() *)
}.

(** Modelled from the spec: [UInt32_Contants::MessagePrefixLength] is
    declared in [Network/ProtocolConstants.h], which is missing; the wire
    format of the specification has a 4-byte length, the size of the
    [uint32_t body_length] the prefix is read into. *)
Definition MessagePrefixLength : Z := 4.

Definition EAGAIN : Z := 11.

(** ** binary32 arithmetic, as the compiler emits it for [float] *)

Definition f32_of_u32 (x : Z) : spec_float := binary_normalize 24 128 x 0 false.
Definition f32_mul := SFmul 24 128.
Definition f32_add := SFadd 24 128.
Definition f32_div := SFdiv 24 128.
Definition f32_ltb := SFltb.

(** [(uint32_t) f]: truncation toward zero; out of range is undefined. *)
Definition u32_of_f32 (f : spec_float) : option Z :=
  match f with
  | S754_zero _ => Some 0
  | S754_finite s m e =>
      let t := Z.shiftl (Z.pos m) e in
      if s then (if t =? 0 then Some 0 else None)
      else if t <? 2 ^ 32 then Some t else None
  | _ => None
  end.

(** ** Memory and descriptors *)

(** [struct PerSocketContextObject] (declared in [TrinitySocketServer.h]),
    with the fields this file uses.  Pointers are addresses, [0] is NULL. *)
Record PerSocketContextObject := mkPsco {
  fd : Z;
  RecvBuffer : Z;                  (* char*    *)
  RecvBufferLen : Z;               (* uint32_t *)
  avg_RecvBufferLen : Z;           (* uint32_t *)
  Message : Z;                     (* char*    *)
  ReceivedMessageBodyBytes : Z;    (* uint32_t *)
  RemainingBytesToSend : Z;        (* uint32_t *)
  WaitingHandshakeMessage : bool;
}.

Inductive object :=
  | Bytes (bs : list byte)
  | Psco (c : PerSocketContextObject).

(** What the next [read] on a descriptor observes. *)
Inductive event :=
  | Data (bs : list byte)     (* these bytes have arrived *)
  | WouldBlock                (* nothing yet: -1, errno = EAGAIN *)
  | Eof                       (* the peer has closed: 0, from now on *)
  | ReadError (errno : Z).    (* -1 with this errno *)

Record World := mkWorld {
  psco_map : gmap Z Z;          (* std::map<int, PerSocketContextObject*> *)
  heap : gmap Z object;         (* live allocations *)
  brk : Z;                      (* next fresh address *)
  open_fds : gset Z;            (* descriptors not yet closed *)
  wire : gmap Z (list event);   (* pending input of each descriptor *)
  armed : gset Z;               (* descriptors armed in the event monitor *)
}.

Definition set_psco_map (f : gmap Z Z → gmap Z Z) (w : World) : World :=
  mkWorld (f (psco_map w)) (heap w) (brk w) (open_fds w) (wire w) (armed w).
Definition set_heap (f : gmap Z object → gmap Z object) (w : World) : World :=
  mkWorld (psco_map w) (f (heap w)) (brk w) (open_fds w) (wire w) (armed w).
Definition set_open_fds (f : gset Z → gset Z) (w : World) : World :=
  mkWorld (psco_map w) (heap w) (brk w) (f (open_fds w)) (wire w) (armed w).
Definition set_wire (f : gmap Z (list event) → gmap Z (list event)) (w : World) : World :=
  mkWorld (psco_map w) (heap w) (brk w) (open_fds w) (f (wire w)) (armed w).
Definition set_armed (f : gset Z → gset Z) (w : World) : World :=
  mkWorld (psco_map w) (heap w) (brk w) (open_fds w) (wire w) (f (armed w)).

(** A fresh address: addresses are never reused, so a dangling pointer
    stays recognisable. *)
Definition alloc (o : object) (w : World) : Z * World :=
  (brk w,
   mkWorld (psco_map w) (<[brk w := o]> (heap w)) (brk w + 1)
           (open_fds w) (wire w) (armed w)).

(** [malloc(n)] of a byte array; the indeterminate contents are zeros. *)
Definition malloc (n : Z) (w : World) : Z * World :=
  alloc (Bytes (replicate (Z.to_nat n) x00)) w.

(** [free(p)]. *)
Definition free (p : Z) (w : World) : Result World :=
  if p =? 0 then Ok w
  else match heap w !! p with
       | Some _ => Ok (set_heap (delete p) w)
       | None => Fault InvalidFree
       end.

(** [realloc(p, n)].  The C library may extend the block in place or
    move it; [moves] is the allocator's choice for this call. *)
Definition realloc (moves : bool) (p : Z) (n : Z) (w : World) : Result (Z * World) :=
  if p =? 0 then Ok (malloc n w)
  else match heap w !! p with
       | Some (Bytes bs) =>
           let bs' := resize (Z.to_nat n) x00 bs in
           if moves then Ok (alloc (Bytes bs') (set_heap (delete p) w))
           else Ok (p, set_heap (<[p := Bytes bs']>) w)
       | _ => Fault InvalidFree
       end.

(** Overwrite [length src] cells of [dst] from position [off]. *)
Definition splice (dst : list byte) (off : nat) (src : list byte) : list byte :=
  take off dst ++ src ++ drop (off + length src) dst.

(** [count] bytes stored through the pointer [b + off]. *)
Definition store_bytes (b off : Z) (src : list byte) (w : World) : Result World :=
  match src with
  | [] => Ok w
  | _ =>
      match heap w !! b with
      | Some (Bytes dst) =>
          if (0 <=? off) && (off + Z.of_nat (length src) <=? Z.of_nat (length dst))
          then Ok (set_heap (<[b := Bytes (splice dst (Z.to_nat off) src)]>) w)
          else Fault OutOfBounds
      | _ => Fault UseAfterFree
      end
  end.

(** [*p] for a context pointer. *)
Definition load_psco (p : Z) (w : World) : Result PerSocketContextObject :=
  match heap w !! p with
  | Some (Psco c) => Ok c
  | _ => Fault UseAfterFree
  end.

Definition store_psco (p : Z) (c : PerSocketContextObject) (w : World) : Result World :=
  match heap w !! p with
  | Some (Psco _) => Ok (set_heap (<[p := Psco c]>) w)
  | _ => Fault UseAfterFree
  end.

(** The result of one [read(fd, dst, count)]: the return value, [errno]
    and the bytes the kernel stored at [dst]. *)
Record read_result := mkRead {
  rd_ret : Z;
  rd_errno : Z;
  rd_data : list byte;
}.

Definition sys_read (d : Z) (count : Z) (w : World) : read_result * World :=
  match wire w !! d with
  | Some (Data bs :: rest) =>
      if Z.of_nat (length bs) <=? count
      then (mkRead (Z.of_nat (length bs)) 0 bs, set_wire (<[d := rest]>) w)
      else (mkRead count 0 (take (Z.to_nat count) bs),
            set_wire (<[d := Data (drop (Z.to_nat count) bs) :: rest]>) w)
  | Some (WouldBlock :: rest) => (mkRead (-1) EAGAIN [], set_wire (<[d := rest]>) w)
  | Some (Eof :: _) => (mkRead 0 0 [], w)
  | Some (ReadError e :: rest) => (mkRead (-1) e [], set_wire (<[d := rest]>) w)
  | Some [] | None => (mkRead (-1) EAGAIN [], w)
  end.

(** [close(fd)]: the descriptor is released, and with the socket go the
    input that was pending on it and its registration with the event
    monitor. *)
Definition sys_close (d : Z) (w : World) : World :=
  set_armed (λ s, s ∖ {[d]}) (set_wire (delete d) (set_open_fds (λ s, s ∖ {[d]}) w)).

Definition with_RecvBuffer (b : Z) (c : PerSocketContextObject) :=
  mkPsco (fd c) b (RecvBufferLen c) (avg_RecvBufferLen c) (Message c)
         (ReceivedMessageBodyBytes c) (RemainingBytesToSend c) (WaitingHandshakeMessage c).
Definition with_RecvBufferLen (n : Z) (c : PerSocketContextObject) :=
  mkPsco (fd c) (RecvBuffer c) n (avg_RecvBufferLen c) (Message c)
         (ReceivedMessageBodyBytes c) (RemainingBytesToSend c) (WaitingHandshakeMessage c).
Definition with_avg_RecvBufferLen (n : Z) (c : PerSocketContextObject) :=
  mkPsco (fd c) (RecvBuffer c) (RecvBufferLen c) n (Message c)
         (ReceivedMessageBodyBytes c) (RemainingBytesToSend c) (WaitingHandshakeMessage c).
Definition with_Message (m : Z) (c : PerSocketContextObject) :=
  mkPsco (fd c) (RecvBuffer c) (RecvBufferLen c) (avg_RecvBufferLen c) m
         (ReceivedMessageBodyBytes c) (RemainingBytesToSend c) (WaitingHandshakeMessage c).
Definition with_ReceivedMessageBodyBytes (n : Z) (c : PerSocketContextObject) :=
  mkPsco (fd c) (RecvBuffer c) (RecvBufferLen c) (avg_RecvBufferLen c) (Message c)
         n (RemainingBytesToSend c) (WaitingHandshakeMessage c).

(** [p->field = v] *)
Definition assign (p : Z) (upd : PerSocketContextObject → PerSocketContextObject)
    (w : World) : Result World :=
  c ← load_psco p w; store_psco p (upd c) w.

(** ** PerSocketContextObject management *)

(** [std::map::insert]: an existing key keeps its value. *)
Definition std_map_insert (k v : Z) (m : gmap Z Z) : gmap Z Z :=
  match m !! k with
  | Some _ => m
  | None => <[k := v]> m
  end.

(** [std::map::operator[]]: a missing key is first bound to the
    value-initialised mapped value, here the null pointer. *)
Definition std_map_index (k : Z) (m : gmap Z Z) : Z * gmap Z Z :=
  match m !! k with
  | Some v => (v, m)
  | None => (0, <[k := 0]> m)
  end.

(** The spin lock around each registry access is not modelled: the
    embedding is sequential. *)
Definition AddPerSocketContextObject (pContext : Z) (w : World) : Result World :=
  c ← load_psco pContext w;
  Ok (set_psco_map (std_map_insert (fd c) pContext) w).

Definition RemovePerSocketContextObject (d : Z) (w : World) : World :=
  set_psco_map (delete d) w.

Definition GetPerSocketContextObject (d : Z) (w : World) : Z * World :=
  let '(pContext, m) := std_map_index d (psco_map w) in
  (pContext, set_psco_map (λ _, m) w).

Section Server.
Context {K : ProtocolConstants}.

(** The two [malloc] calls and the five assignments.  [Message],
    [ReceivedMessageBodyBytes] and [RemainingBytesToSend] are not assigned:
    they keep what [malloc] returned, zero in this model. *)
Definition AllocatePerSocketContextObject (d : Z) (w : World) : Z * World :=
  let '(p, w) := alloc (Psco (mkPsco 0 0 0 0 0 0 0 false)) w in
  let '(b, w) := malloc RecvBufferSize w in
  (p, set_heap (<[p := Psco (mkPsco d b RecvBufferSize RecvBufferSize 0 0 0 Handshake)]>) w).

Definition FreePerSocketContextObject (p : Z) (w : World) : Result World :=
  c ← load_psco p w;
  w ← free (RecvBuffer c) w;
  free p w.

(** [avg_RecvBufferLen * AvgSlideWin_a + ReceivedMessageBodyBytes * AvgSlideWin_b] *)
Definition slide (avg received : Z) : spec_float :=
  f32_add (f32_mul (f32_of_u32 avg) AvgSlideWin_a)
          (f32_mul (f32_of_u32 received) AvgSlideWin_b).

(** [avg_RecvBufferLen < RecvBufferLen / AvgSlideWin_r] *)
Definition below_ratio (avg len : Z) : bool :=
  f32_ltb (f32_of_u32 avg) (f32_div (f32_of_u32 len) AvgSlideWin_r).

Definition cast_u32 (f : spec_float) : Result Z :=
  match u32_of_f32 f with
  | Some z => Ok z
  | None => Fault BadCast
  end.

Definition ResetContextObjects (pContext : Z) (w : World) : Result World :=
  c ← load_psco pContext w;
  w ← free (Message c) w;
  c ← load_psco pContext w;
  a ← cast_u32 (slide (avg_RecvBufferLen c) (ReceivedMessageBodyBytes c));
  w ← assign pContext (with_avg_RecvBufferLen a) w;
  c ← load_psco pContext w;
  w ← assign pContext (with_avg_RecvBufferLen (Z.max (avg_RecvBufferLen c) RecvBufferSize)) w;
  c ← load_psco pContext w;
  if below_ratio (avg_RecvBufferLen c) (RecvBufferLen c) then
    w ← free (RecvBuffer c) w;
    c ← load_psco pContext w;
    w ← assign pContext (with_RecvBufferLen (avg_RecvBufferLen c)) w;
    c ← load_psco pContext w;
    let '(b, w) := malloc (RecvBufferLen c) w in
    assign pContext (with_RecvBuffer b) w
  else Ok w.

Definition CloseClientConnection (pContext : Z) (lingering : bool) (w : World) : Result World :=
  c ← load_psco pContext w;
  let w := RemovePerSocketContextObject (fd c) w in
  let w := sys_close (fd c) w in
  FreePerSocketContextObject pContext w.

(** Stores into the local [uint32_t body_length] through
    [(char* )&body_length + off]. *)
Definition store_local (dst : list byte) (off : Z) (src : list byte) : Result (list byte) :=
  match src with
  | [] => Ok dst
  | _ =>
      if (0 <=? off) && (off + Z.of_nat (length src) <=? Z.of_nat (length dst))
      then Ok (splice dst (Z.to_nat off) src)
      else Fault OutOfBounds
  end.

(** First loop of [ProcessRecv]: [p] and [bytes_left] are [uint32_t],
    [bytes_read] is added to and subtracted from them unchecked. *)
Fixpoint recv_prefix (budget : nat) (d : Z) (body_length : list byte)
    (p bytes_left : Z) (w : World) : Result (list byte * World) :=
  if bytes_left >? 0 then
    match budget with
    | O => Spin
    | S budget =>
        let '(r, w) := sys_read d bytes_left w in
        body_length ← store_local body_length p (rd_data r);
        recv_prefix budget d body_length
                    (wrap32 (p + rd_ret r)) (wrap32 (bytes_left - rd_ret r)) w
    end
  else Ok (body_length, w).

(** Second loop of [ProcessRecv]; [false] when the connection was closed. *)
Fixpoint recv_body (budget : nat) (pContext d buf : Z)
    (p bytes_left : Z) (w : World) : Result (bool * World) :=
  if bytes_left >? 0 then
    match budget with
    | O => Spin
    | S budget =>
        let '(r, w) := sys_read d bytes_left w in
        w ← store_bytes buf p (rd_data r) w;
        if (rd_ret r =? 0) || ((rd_ret r =? -1) && negb (EAGAIN =? rd_errno r)) then
          w ← CloseClientConnection pContext false w;
          Ok (false, w)
        else
          recv_body budget pContext d buf
                    (wrap32 (p + rd_ret r)) (wrap32 (bytes_left - rd_ret r)) w
    end
  else Ok (true, w).

(** The sizing step between the two loops:
    [if (body_length > RecvBufferLen) { realloc ...; RecvBufferLen = body_length; }] *)
Definition ensure_capacity (moves : bool) (pContext body_length : Z) (w : World)
    : Result World :=
  c ← load_psco pContext w;
  if body_length >? RecvBufferLen c then
    '(q, w) ← realloc moves (RecvBuffer c) body_length w;
    w ← assign pContext (with_RecvBuffer q) w;
    assign pContext (with_RecvBufferLen body_length) w
  else Ok w.

(** [ProcessRecv]; [moves] is the choice of [realloc], [budget] bounds
    the rounds of each loop.  The local [body_length] starts as four zero
    bytes. *)
Definition ProcessRecv (moves : bool) (budget : nat) (pContext : Z) (w : World)
    : Result (bool * World) :=
  c ← load_psco pContext w;
  let d := fd c in
  '(raw, w) ← recv_prefix budget d (replicate 4 x00) 0 MessagePrefixLength w;
  let body_length := le_decode raw in
  c ← load_psco pContext w;
  let buf := RecvBuffer c in   (* taken before the buffer is resized *)
  w ← ensure_capacity moves pContext body_length w;
  '(full, w) ← recv_body budget pContext d buf 0 body_length w;
  if full : bool then
    w ← assign pContext (with_Message buf) w;
    w ← assign pContext (with_ReceivedMessageBodyBytes body_length) w;
    Ok (true, w)
  else Ok (false, w).

(** [RearmFD] of the event monitor. *)
Definition RearmFD (d : Z) (w : World) : World := set_armed (λ s, {[d]} ∪ s) w.

(** [write(fd, buf, count)]: [ret] is what the kernel answers. *)
Definition sys_write (ret : Z) (d buf count : Z) (w : World) : Z * World := (ret, w).

Definition SendResponse (write_ret : Z) (pContext : Z) (w : World) : Result World :=
  c ← load_psco pContext w;
  let w := RearmFD (fd c) w in
  c ← load_psco pContext w;
  let '(_, w) := sys_write write_ret (fd c) (Message c) (RemainingBytesToSend c) w in
  ResetContextObjects pContext w.

End Server.

(** ** Server start-up

    [StartSocketServer] talks to the operating system only; its model has
    its own small state.  What [getaddrinfo], [socket], [bind], [listen]
    and [InitializeEventMonitor] answer is given by the environment. *)

Record addrinfo := mkAddrinfo {
  ai_socket : Z;   (* what [socket] returns for this entry: a descriptor or -1 *)
  ai_bind : Z;     (* what [bind] returns for it: 0 or -1 *)
}.

Record StartEnv := mkStartEnv {
  getaddrinfo_ret : Z;
  addrinfos : list addrinfo;
  listen_ret : Z;
  InitializeEventMonitor_ret : Z;
}.

Record Host := mkHost {
  g_threadpool_size : Z;
  accept_sock : Z;
  host_fds : gset Z;           (* descriptors this process holds open *)
  addrinfos_held : bool;       (* the list of [getaddrinfo] is not freed yet *)
  monitor_running : bool;      (* the event monitor is initialised *)
  socket_accept_thread : bool; (* the accept thread is running *)
}.

(** The [for] loop over the address list; [None] when it ends with
    [addrinfop == NULL]. *)
Fixpoint bind_loop (ais : list addrinfo) (h : Host) : option addrinfo * Host :=
  match ais with
  | [] => (None, h)
  | ai :: rest =>
      let s := ai_socket ai in
      let h := mkHost (g_threadpool_size h) s
                      (if s =? -1 then host_fds h else {[s]} ∪ host_fds h)
                      (addrinfos_held h) (monitor_running h) (socket_accept_thread h) in
      if s =? -1 then bind_loop rest h
      else if ai_bind ai =? 0 then (Some ai, h)
      else bind_loop rest
             (mkHost (g_threadpool_size h) (accept_sock h) (host_fds h ∖ {[s]})
                     (addrinfos_held h) (monitor_running h) (socket_accept_thread h))
  end.

Definition StartSocketServer (env : StartEnv) (port : Z) (h : Host) : Z * Host :=
  let h := mkHost 0 (-1) (host_fds h) (addrinfos_held h)
                  (monitor_running h) (socket_accept_thread h) in
  if negb (getaddrinfo_ret env =? 0) then (-1, h)
  else
    let h := mkHost (g_threadpool_size h) (accept_sock h) (host_fds h) true
                    (monitor_running h) (socket_accept_thread h) in
    match bind_loop (addrinfos env) h with
    | (None, h) => (-1, h)
    | (Some _, h) =>
        (* freeaddrinfo(addrinfos) *)
        let h := mkHost (g_threadpool_size h) (accept_sock h) (host_fds h) false
                        (monitor_running h) (socket_accept_thread h) in
        if listen_ret env =? -1 then (-1, h)
        else if InitializeEventMonitor_ret env =? -1 then
          (-1, mkHost (g_threadpool_size h) (accept_sock h)
                      (host_fds h ∖ {[accept_sock h]})
                      (addrinfos_held h) (monitor_running h) (socket_accept_thread h))
        else
          (* socket_accept_thread = std::thread(SocketAcceptThreadProc): the
             assignment presupposes that no accept thread is running; on a
             thread that is, it ends the process. *)
          (accept_sock h,
           mkHost (g_threadpool_size h) (accept_sock h) (host_fds h)
                  (addrinfos_held h) true true)
    end.

(** ** The accept thread *)

Definition EINVAL : Z := 22.

(** [EnterEventMonitor] of the event monitor. *)
Definition EnterEventMonitor (pContext : Z) (w : World) : Result World :=
  c ← load_psco pContext w;
  Ok (set_armed (λ s, {[fd c]} ∪ s) w).

(** [SocketAcceptThreadProc]; [accepts] lists what the successive calls of
    [AcceptConnection] return, with [errno].  The flag of the result tells
    whether the thread has returned: [true] when the loop was left at an
    [EINVAL], [false] when the list is used up and the thread waits in
    [accept4]. *)
Fixpoint SocketAcceptThreadProc `{ProtocolConstants} (accepts : list (Z * Z)) (w : World)
    : Result (bool * World) :=
  match accepts with
  | [] => Ok (false, w)
  | (connected_sock_fd, errno) :: rest =>
      if connected_sock_fd =? -1 then
        if errno =? EINVAL then Ok (true, w) else SocketAcceptThreadProc rest w
      else
        let w := set_open_fds (λ s, {[connected_sock_fd]} ∪ s) w in
        let '(pContext, w) := AllocatePerSocketContextObject connected_sock_fd w in
        w ← AddPerSocketContextObject pContext w;
        w ← EnterEventMonitor pContext w;
        SocketAcceptThreadProc rest w
  end.

(** ** Runs of a server

    The calls a worker can make on the contexts, interleaved with what
    the environment does: bytes arriving on a descriptor, and the message
    handler (which is not in this file) leaving a response buffer of its
    own in [Message]. *)
Inductive call :=
  | Accept (d : Z)
  | Arrive (d : Z) (evs : list event)
  | Recv (moves : bool) (budget : nat) (pContext : Z)
  | Respond (pContext : Z) (response : list byte)
  | Send (write_ret : Z) (pContext : Z)
  | Reset (pContext : Z)
  | Close (pContext : Z) (lingering : bool).

Definition with_response (m n : Z) (c : PerSocketContextObject) :=
  mkPsco (fd c) (RecvBuffer c) (RecvBufferLen c) (avg_RecvBufferLen c) m
         (ReceivedMessageBodyBytes c) n (WaitingHandshakeMessage c).

Definition run_call `{ProtocolConstants} (k : call) (w : World) : Result World :=
  match k with
  | Accept d => '(_, w) ← SocketAcceptThreadProc [(d, 0)] w; Ok w
  | Arrive d evs =>
      (* input reaches a connection only while its descriptor is open *)
      if bool_decide (d ∈ open_fds w)
      then Ok (set_wire (λ m, <[d := default [] (m !! d) ++ evs]> m) w)
      else Ok w
  | Recv moves budget pContext =>
      '(_, w) ← ProcessRecv moves budget pContext w; Ok w
  | Respond pContext response =>
      let '(m, w) := alloc (Bytes response) w in
      assign pContext (with_response m (Z.of_nat (length response))) w
  | Send write_ret pContext => SendResponse write_ret pContext w
  | Reset pContext => ResetContextObjects pContext w
  | Close pContext lingering => CloseClientConnection pContext lingering w
  end.

Fixpoint run_calls `{ProtocolConstants} (ks : list call) (w : World) : Result World :=
  match ks with
  | [] => Ok w
  | k :: ks => w ← run_call k w; run_calls ks w
  end.

(** [n] calls of [ResetContextObjects] in a row. *)
Fixpoint repeat_reset `{ProtocolConstants} (n : nat) (pContext : Z) (w : World) : Result World :=
  match n with
  | O => Ok w
  | S n => w ← ResetContextObjects pContext w; repeat_reset n pContext w
  end.

(** [RecvBufferLen] of the context at [pContext], if it is live. *)
Definition capacity (pContext : Z) (w : World) : option Z :=
  match heap w !! pContext with
  | Some (Psco c) => Some (RecvBufferLen c)
  | _ => None
  end.

Definition capacity_after `{ProtocolConstants} (n : nat) (pContext : Z) (w : World) : option Z :=
  match repeat_reset n pContext w with
  | Ok w => capacity pContext w
  | _ => None
  end.

(** The contents of a live byte array. *)
Definition bytes_at (b : Z) (w : World) : option (list byte) :=
  match heap w !! b with
  | Some (Bytes bs) => Some bs
  | _ => None
  end.

(** Addresses handed out so far are below [brk], and NULL is not one. *)
Definition wf_heap (w : World) : Prop :=
  0 < brk w ∧ map_Forall (λ a _, 0 < a < brk w) (heap w).

#[export] Instance wf_heap_dec (w : World) : Decision (wf_heap w).
Proof. unfold wf_heap. apply _. Defined.

(** Every live context has a buffer length of at least [RecvBufferSize]. *)
Definition capacities_ok `{ProtocolConstants} (w : World) : Prop :=
  ∀ q c, heap w !! q = Some (Psco c) → RecvBufferSize ≤ RecvBufferLen c.

(** ** The registry as the specification words it

    [insert] of section 4.1: an entry is added, and a descriptor that is
    already present is an error. *)
Inductive insert_result :=
  | Inserted (m : gmap Z Z)
  | DuplicateDescriptor.

Definition spec_insert (d pContext : Z) (m : gmap Z Z) : insert_result :=
  match m !! d with
  | Some _ => DuplicateDescriptor
  | None => Inserted (<[d := pContext]> m)
  end.

(** ** A small configuration to run the server on

    Buffers of 16 bytes, window weights 3/4 and 1/4, ratio 2. *)
Definition small : ProtocolConstants :=
  {| RecvBufferSize := 16;
     AvgSlideWin_a := binary_normalize 24 128 3 (-2) false;
     AvgSlideWin_b := binary_normalize 24 128 1 (-2) false;
     AvgSlideWin_r := binary_normalize 24 128 2 0 false;
     Handshake := false |}.

Definition boot : World := mkWorld ∅ ∅ 1 ∅ ∅ ∅.

(** One client on descriptor 7; its context is at address 1 and its
    receive buffer at address 2. *)
Definition one_client : World :=
  match SocketAcceptThreadProc (H := small) [(7, 0)] boot with
  | Ok (_, w) => w
  | _ => boot
  end.

Definition arrives (d : Z) (evs : list event) (w : World) : World :=
  set_wire (<[d := evs]>) w.

Definition message (body : list byte) : list byte :=
  le_encode 4 (Z.of_nat (length body)) ++ body.

Definition hello : list byte := [x68; x65; x6c; x6c; x6f].

Definition fresh_host : Host := mkHost 0 (-1) ∅ false false false.

(** A context whose buffer has grown to 64 bytes, after a message of 4
    bytes; the running average is 20. *)
Definition roomy : World :=
  mkWorld {[7 := 1]}
          (<[1 := Psco (mkPsco 7 2 64 20 0 4 0 false)]> {[2 := Bytes (replicate 64 x00)]})
          3 {[7]} ∅ {[7]}.

(** A second context object for descriptor 7, which is registered
    already; it is at address 3. *)
Definition second_context : Z * World :=
  AllocatePerSocketContextObject (K := small) 7 one_client.

(** ** Auxiliary notions for the proofs and the examples *)

Definition bindable (ai : addrinfo) : Prop := ai_socket ai ≠ -1 ∧ ai_bind ai = 0.

(** The parts of the state that memory operations leave alone. *)
Definition same_sockets (w w' : World) : Prop :=
  psco_map w' = psco_map w ∧ open_fds w' = open_fds w ∧
  wire w' = wire w ∧ armed w' = armed w.

(** Which contexts a memory operation can leave in the heap: the ones
    that were there. *)
Definition contexts_kept (w w' : World) : Prop :=
  ∀ q c, heap w' !! q = Some (Psco c) → heap w !! q = Some (Psco c).

(** What [ResetContextObjects] leaves in the context [c]: the new average
    and, when the buffer is replaced by one at [b], the new length. *)
Definition averaged `{ProtocolConstants} (c : PerSocketContextObject) (v : Z) : PerSocketContextObject :=
  with_avg_RecvBufferLen (Z.max v RecvBufferSize) c.

Definition shrunk (b : Z) (c : PerSocketContextObject) : PerSocketContextObject :=
  with_RecvBuffer b (with_RecvBufferLen (avg_RecvBufferLen c) c).

(** The client's message [hello] has been received in full. *)
Definition received_hello : World :=
  match ProcessRecv true 4 1 (arrives 7 [Data (message hello)] one_client) with
  | Ok (_, w) => w
  | _ => boot
  end.

(** The handler has left its answer to [hello] in a buffer of its own;
    two bytes are to be sent. *)
Definition answered : World :=
  match run_calls (H := small) [Respond 1 [x6f; x6b]] received_hello with
  | Ok w => w
  | _ => boot
  end.

(** The state after [SendResponse] when [write] has failed. *)
Definition after_failed_write : World :=
  match SendResponse (K := small) (-1) 1 answered with
  | Ok w => w
  | _ => boot
  end.

(** A client that sends [first] bytes, then three times one byte, and is
    answered each time. *)
Definition dialogue (first : Z) : list call :=
  [Accept 7;
   Arrive 7 [Data (message (replicate (Z.to_nat first) x41))];
   Recv false 4 1; Respond 1 [x6f; x6b]; Send 2 1;
   Arrive 7 [Data (message [x41])]; Recv true 4 1; Respond 1 [x6f; x6b]; Send 2 1;
   Arrive 7 [Data (message [x41])]; Recv true 4 1; Respond 1 [x6f; x6b]; Send 2 1;
   Arrive 7 [Data (message [x41])]; Recv true 4 1; Respond 1 [x6f; x6b]; Send 2 1].

Definition after_dialogue (first : Z) : World :=
  match run_calls (H := small) (dialogue first) boot with
  | Ok w => w
  | _ => boot
  end.

(** A context whose buffer was extended to 17 bytes by an earlier message
    and whose average is back at [RecvBufferSize]; the last message had
    one byte. *)
Definition settled : World :=
  mkWorld {[7 := 1]}
          (<[1 := Psco (mkPsco 7 2 17 16 0 1 0 false)]> {[2 := Bytes (replicate 17 x00)]})
          3 {[7]} ∅ {[7]}.

(** The letters [abc] and [defXY]. *)
Definition abc : list byte := [x61; x62; x63].

Definition defXY : list byte := [x64; x65; x66; x58; x59].

(** The context at an address, if it is live. *)
Definition context (pContext : Z) (w : World) : option PerSocketContextObject :=
  match heap w !! pContext with
  | Some (Psco c) => Some c
  | _ => None
  end.

(** The handler answers [hello] with a buffer of its own, and the answer
    is sent. *)
Definition after_answer : Result World :=
  run_calls (H := small) [Respond 1 [x6f; x6b]; Send 2 1] received_hello.

(** [ProcessRecv] on one client and one message. *)
Definition receive (moves : bool) (body : list byte) : Result (bool * World) :=
  ProcessRecv moves 2 1 (arrives 7 [Data (message body)] one_client).

(** The length and the bytes [ProcessRecv] reports. *)
Definition reported (r : Result (bool * World)) : option (Z * list byte) :=
  match r with
  | Ok (true, w) =>
      c ← context 1 w;
      buf ← bytes_at (Message c) w;
      Some (ReceivedMessageBodyBytes c, take (Z.to_nat (ReceivedMessageBodyBytes c)) buf)
  | _ => None
  end.

(** A piece of a byte stream holds at least one byte. *)
Definition nonempty (xs : list byte) : Prop := xs ≠ [].

(** The message [hello] in four pieces: the prefix byte by byte at first,
    then its end together with the start of the body. *)
Definition hello_in_pieces : list (list byte) :=
  [[x05]; [x00]; [x00; x00; x68; x65]; [x6c; x6c; x6f]].

(** ** Shutdown

    [ShutdownSocketServer].  After [shutdown(accept_sock, SHUT_RD)] the
    calls of [accept4] on the listening socket fail with [EINVAL];
    [pending] lists what [AcceptConnection] still returns to the accept
    thread before that.  [join] waits until [SocketAcceptThreadProc] has
    returned, and throws [std::system_error] when there is no thread to
    join.  Then the listening socket is closed and the event monitor torn
    down; the connections are left as they are. *)
Definition ShutdownSocketServer `{ProtocolConstants} (pending : list (Z * Z))
    (h : Host) (w : World) : Result (Z * Host * World) :=
  if socket_accept_thread h then
    '(returned, w) ← SocketAcceptThreadProc (pending ++ [(-1, EINVAL)]) w;
    if returned : bool then
      Ok (0, mkHost (g_threadpool_size h) (accept_sock h)
                    (host_fds h ∖ {[accept_sock h]})
                    (addrinfos_held h) false false, w)
    else Spin
  else Fault SystemError.

(** ** [make_nonblocking]

    The status flags of the open descriptors; [fcntl(fd, F_GETFL)] answers
    the flags of an open descriptor and [-1] otherwise, [fcntl(fd, F_SETFL,
    v)] answers what the kernel decides, [setfl_ret], and stores [v] unless
    that is [-1]. *)
Definition O_NONBLOCK : Z := 2048.

Definition fcntl_GETFL (d : Z) (flags : gmap Z Z) : Z := default (-1) (flags !! d).

Definition fcntl_SETFL (setfl_ret : Z) (d v : Z) (flags : gmap Z Z) : Z * gmap Z Z :=
  (setfl_ret, if setfl_ret =? -1 then flags else <[d := v]> flags).

Definition make_nonblocking (setfl_ret : Z) (d : Z) (flags : gmap Z Z) : bool * gmap Z Z :=
  let status_flags := fcntl_GETFL d flags in
  if -1 =? status_flags then (false, flags)
  else
    let status_flags := Z.lor status_flags O_NONBLOCK in
    let '(r, flags) := fcntl_SETFL setfl_ret d status_flags flags in
    if -1 =? r then (false, flags) else (true, flags).

(** ** Notions for the properties of whole runs *)

(** [q] is the address of a live context. *)
Definition is_context (w : World) (q : Z) : Prop :=
  ∃ c, heap w !! q = Some (Psco c).

(** What the proofs need of a pointer a context holds in [RecvBuffer] or
    [Message]: it lies below the allocation mark and is not the address of
    a live context.  (Freeing it can then release no context.) *)
Definition plain_pointer (w : World) (x : Z) : Prop :=
  x < brk w ∧ ¬ is_context w x.

Definition buffers_ok (w : World) : Prop :=
  ∀ q c, heap w !! q = Some (Psco c) →
         plain_pointer w (RecvBuffer c) ∧ plain_pointer w (Message c).

(** Every entry of the registry is NULL, as a lookup of an unknown
    descriptor leaves it, or names a live context of that descriptor. *)
Definition registry_ok (w : World) : Prop :=
  ∀ d p, psco_map w !! d = Some p →
         p = 0 ∨ ∃ c, heap w !! p = Some (Psco c) ∧ fd c = d.

Definition consistent (w : World) : Prop :=
  wf_heap w ∧ buffers_ok w ∧ registry_ok w.

(** No context appears, and no address is handed out twice. *)
Definition no_new_contexts (w w' : World) : Prop :=
  brk w ≤ brk w' ∧ ∀ q, is_context w' q → is_context w q.

(** Every live context has a running average of at least [RecvBufferSize]. *)
Definition averages_ok `{ProtocolConstants} (w : World) : Prop :=
  ∀ q c, heap w !! q = Some (Psco c) → RecvBufferSize ≤ avg_RecvBufferLen c.

(** The connections the accept thread takes from a list of results of
    [AcceptConnection]: up to the first [EINVAL], without the other
    failures. *)
Fixpoint accepted (accepts : list (Z * Z)) : list Z :=
  match accepts with
  | [] => []
  | (s, e) :: rest =>
      if s =? -1 then (if e =? EINVAL then [] else accepted rest)
      else s :: accepted rest
  end.

(** An address that cannot be bound. *)
Definition unbindable (ai : addrinfo) : Prop := ¬ bindable ai.


(** * Properties *)

(** ** The registry *)

Lemma set_psco_map_same (m : gmap Z Z) (w : World) :
  m = psco_map w → set_psco_map (λ _, m) w = w.
Proof. intros ->. by destruct w. Qed.

Lemma std_map_insert_present (k v v' : Z) (m : gmap Z Z) :
  m !! k = Some v' → std_map_insert k v m = m.
Proof. intros Hk. unfold std_map_insert. by rewrite Hk. Qed.

Lemma std_map_insert_absent (k v : Z) (m : gmap Z Z) :
  m !! k = None → std_map_insert k v m = <[k := v]> m.
Proof. intros Hk. unfold std_map_insert. by rewrite Hk. Qed.

Lemma std_map_index_absent (k : Z) (m : gmap Z Z) :
  m !! k = None → std_map_index k m = (0, <[k := 0]> m).
Proof. intros Hk. unfold std_map_index. by rewrite Hk. Qed.

Lemma std_map_index_present (k v : Z) (m : gmap Z Z) :
  m !! k = Some v → std_map_index k m = (v, m).
Proof. intros Hk. unfold std_map_index. by rewrite Hk. Qed.

(** A lookup of a registered descriptor reads the registry only. *)
Lemma GetPerSocketContextObject_known (d p : Z) (w : World) :
  psco_map w !! d = Some p → GetPerSocketContextObject d w = (p, w).
Proof.
  intros Hd. unfold GetPerSocketContextObject.
  rewrite (std_map_index_present _ _ _ Hd). by rewrite set_psco_map_same.
Qed.

(** C10: a lookup of a descriptor that is not in the registry returns the
    null pointer, not an absent result, and it changes the registry: the
    descriptor is now bound to the null pointer. *)
Theorem GetPerSocketContextObject_unknown (d : Z) (w : World) :
  psco_map w !! d = None →
  GetPerSocketContextObject d w = (0, set_psco_map (<[d := 0]>) w) ∧
  psco_map (GetPerSocketContextObject d w).2 !! d = Some 0 ∧
  (GetPerSocketContextObject d w).2 ≠ w.
Proof.
  intros Hd.
  assert (Heq : GetPerSocketContextObject d w = (0, set_psco_map (<[d := 0]>) w)).
  { unfold GetPerSocketContextObject. by rewrite (std_map_index_absent _ _ Hd). }
  rewrite Heq. split; [done |]. simpl. split.
  - apply lookup_insert_eq.
  - intros Hw. apply (f_equal (λ x, psco_map x !! d)) in Hw. simpl in Hw.
    rewrite lookup_insert_eq in Hw. congruence.
Qed.

Lemma GetPerSocketContextObject_unknown_witness :
  GetPerSocketContextObject 8 one_client = (0, set_psco_map (<[8 := 0]>) one_client) ∧
  psco_map (GetPerSocketContextObject 8 one_client).2 !! 8 = Some 0 ∧
  (GetPerSocketContextObject 8 one_client).2 ≠ one_client.
Proof. apply (GetPerSocketContextObject_unknown 8 one_client). vm_compute. reflexivity. Defined.

(** C8, as the code has it: registering a context whose descriptor is in
    the registry already returns normally and leaves the whole state as it
    was; the entry keeps the context it had. *)
Theorem AddPerSocketContextObject_present
    (pContext q : Z) (c : PerSocketContextObject) (w : World) :
  heap w !! pContext = Some (Psco c) →
  psco_map w !! fd c = Some q →
  AddPerSocketContextObject pContext w = Ok w ∧ psco_map w !! fd c = Some q.
Proof.
  intros Hp Hq. split; [| done].
  unfold AddPerSocketContextObject, load_psco. rewrite Hp. simpl.
  f_equal. rewrite <- (set_psco_map_same (psco_map w) w) at 2 by done.
  unfold set_psco_map. by rewrite (std_map_insert_present _ _ _ _ Hq).
Qed.

Lemma AddPerSocketContextObject_present_witness :
  AddPerSocketContextObject second_context.1 second_context.2 = Ok second_context.2 ∧
  psco_map second_context.2 !! 7 = Some 1.
Proof.
  apply (AddPerSocketContextObject_present second_context.1 1
           (mkPsco 7 4 16 16 0 0 0 false) second_context.2);
    vm_compute; reflexivity.
Defined.

(** C8 fails on the code: with descriptor 7 registered, the specified
    [insert] answers [DuplicateDescriptor], and [AddPerSocketContextObject]
    returns without any error, the registry unchanged. *)
Lemma AddPerSocketContextObject_duplicate_is_silent :
  psco_map second_context.2 !! 7 = Some 1 ∧
  heap second_context.2 !! second_context.1 = Some (Psco (mkPsco 7 4 16 16 0 0 0 false)) ∧
  spec_insert 7 second_context.1 (psco_map second_context.2) = DuplicateDescriptor ∧
  AddPerSocketContextObject second_context.1 second_context.2 = Ok second_context.2.
Proof. vm_compute. repeat split; reflexivity. Qed.

(** ** Start-up *)

Lemma bind_loop_bound (ais : list addrinfo) (h : Host) :
  Exists bindable ais →
  ∃ ai h', bind_loop ais h = (Some ai, h') ∧
           accept_sock h' = ai_socket ai ∧ ai_socket ai ≠ -1 ∧
           accept_sock h' ∈ host_fds h' ∧
           addrinfos_held h' = addrinfos_held h ∧
           monitor_running h' = monitor_running h ∧
           socket_accept_thread h' = socket_accept_thread h.
Proof.
  intros Hex. revert h. induction ais as [| ai rest IH]; intros h.
  { inversion Hex. }
  simpl. destruct (ai_socket ai =? -1) eqn:Hs.
  - apply Z.eqb_eq in Hs. apply Exists_cons in Hex as [[Hne _] | Hrest]; [done |].
    destruct (IH Hrest (mkHost (g_threadpool_size h) (ai_socket ai) (host_fds h)
                (addrinfos_held h) (monitor_running h) (socket_accept_thread h)))
      as (ai' & h' & -> & ?). by exists ai', h'.
  - apply Z.eqb_neq in Hs. destruct (ai_bind ai =? 0) eqn:Hb.
    + exists ai. eexists. split; [reflexivity |]. simpl.
      repeat split; try done. set_solver.
    + apply Z.eqb_neq in Hb.
      apply Exists_cons in Hex as [[_ Hok] | Hrest]; [done |].
      destruct (IH Hrest (mkHost (g_threadpool_size h) (ai_socket ai)
                  (({[ai_socket ai]} ∪ host_fds h) ∖ {[ai_socket ai]})
                  (addrinfos_held h) (monitor_running h) (socket_accept_thread h)))
        as (ai' & h' & -> & ?). by exists ai', h'.
Qed.

(** When the monitor cannot be initialised the listening socket is
    closed before [-1] is returned. *)
Lemma StartSocketServer_monitor_failure (env : StartEnv) (port : Z) (h : Host) :
  getaddrinfo_ret env = 0 →
  Exists bindable (addrinfos env) →
  listen_ret env ≠ -1 →
  InitializeEventMonitor_ret env = -1 →
  (StartSocketServer env port h).1 = -1 ∧
  accept_sock (StartSocketServer env port h).2 ∉ host_fds (StartSocketServer env port h).2.
Proof.
  intros Hg Hex Hl Hm. unfold StartSocketServer. rewrite Hg. simpl.
  edestruct bind_loop_bound as (ai & h' & -> & Hacc & Hne & Hin & _); [exact Hex |].
  simpl. apply Z.eqb_neq in Hl. rewrite Hl, Hm. simpl. split; [done |].
  rewrite elem_of_difference, elem_of_singleton. tauto.
Qed.

(** C9 at a failing [listen]: [StartSocketServer] returns [-1] and the
    socket it has bound is still open, with nothing left that refers to
    it but the global [accept_sock]; no thread and no monitor is started. *)
Theorem StartSocketServer_listen_failure (env : StartEnv) (port : Z) (h : Host) :
  getaddrinfo_ret env = 0 →
  Exists bindable (addrinfos env) →
  listen_ret env = -1 →
  (StartSocketServer env port h).1 = -1 ∧
  accept_sock (StartSocketServer env port h).2 ≠ -1 ∧
  accept_sock (StartSocketServer env port h).2 ∈ host_fds (StartSocketServer env port h).2 ∧
  socket_accept_thread (StartSocketServer env port h).2 = socket_accept_thread h.
Proof.
  intros Hg Hex Hl. unfold StartSocketServer. rewrite Hg. simpl.
  edestruct bind_loop_bound as (ai & h' & -> & Hacc & Hne & Hin & _ & _ & Hth); [exact Hex |].
  simpl. rewrite Hl. simpl. rewrite Hacc. split; [done |]. split; [done |].
  split; [by rewrite <- Hacc | done].
Qed.

Lemma StartSocketServer_listen_failure_witness :
  let env := mkStartEnv 0 [mkAddrinfo 3 0] (-1) 0 in
  (StartSocketServer env 5304 fresh_host).1 = -1 ∧
  accept_sock (StartSocketServer env 5304 fresh_host).2 ≠ -1 ∧
  accept_sock (StartSocketServer env 5304 fresh_host).2
    ∈ host_fds (StartSocketServer env 5304 fresh_host).2 ∧
  socket_accept_thread (StartSocketServer env 5304 fresh_host).2
    = socket_accept_thread fresh_host.
Proof.
  intros env. apply (StartSocketServer_listen_failure env 5304 fresh_host).
  - reflexivity.
  - apply Exists_cons_hd. split; [simpl; lia | reflexivity].
  - reflexivity.
Defined.

(** When no address can be bound the list of [getaddrinfo] is not freed. *)
Lemma StartSocketServer_bind_failure_example :
  StartSocketServer (mkStartEnv 0 [mkAddrinfo 3 (-1)] 0 0) 5304 fresh_host
  = (-1, mkHost 0 3 ∅ true false false).
Proof.
  vm_compute. reflexivity.
Qed.

(** ** Memory primitives *)

Lemma bind_Ok {A B} (m : Result A) (f : A → Result B) (b : B) :
  m ≫= f = Ok b → ∃ a, m = Ok a ∧ f a = Ok b.
Proof. destruct m as [a | |]; [| done..]. intros Hf. by exists a. Qed.

Lemma bind_Ok_l {A B} (m : Result A) (f : A → Result B) (a : A) :
  m = Ok a → m ≫= f = f a.
Proof. by intros ->. Qed.

Lemma Ok_bind {A B} (a : A) (f : A → Result B) : Ok a ≫= f = f a.
Proof. done. Qed.

(** One step of a computation whose first part has returned. *)
Ltac ok_step := rewrite Ok_bind; cbv beta iota zeta.

Lemma heap_set_heap f w : heap (set_heap f w) = f (heap w).
Proof. done. Qed.

Lemma set_heap_set_heap f g w : set_heap f (set_heap g w) = set_heap (f ∘ g) w.
Proof. done. Qed.

Lemma load_psco_Ok (p : Z) (w : World) (c : PerSocketContextObject) :
  load_psco p w = Ok c ↔ heap w !! p = Some (Psco c).
Proof.
  unfold load_psco. split.
  - destruct (heap w !! p) as [[|c']|]; [done | | done]. by intros [= ->].
  - by intros ->.
Qed.

Lemma assign_Ok (p : Z) upd (w w' : World) :
  assign p upd w = Ok w' ↔
  ∃ c, heap w !! p = Some (Psco c) ∧ w' = set_heap (<[p := Psco (upd c)]>) w.
Proof.
  unfold assign, store_psco. split.
  - intros (c & Hc%load_psco_Ok & Hs)%bind_Ok. rewrite Hc in Hs.
    exists c. split; [done | congruence].
  - intros (c & Hc & ->). rewrite (bind_Ok_l _ _ c) by by apply load_psco_Ok.
    by rewrite Hc.
Qed.

Lemma free_Ok (p : Z) (w w' : World) :
  free p w = Ok w' ↔
  (p = 0 ∧ w' = w) ∨ (p ≠ 0 ∧ is_Some (heap w !! p) ∧ w' = set_heap (delete p) w).
Proof.
  unfold free. destruct (p =? 0) eqn:Hp.
  - apply Z.eqb_eq in Hp. split.
    + intros [= <-]. by left.
    + intros [[_ ->] | [? _]]; done.
  - apply Z.eqb_neq in Hp. split.
    + destruct (heap w !! p) eqn:Hl; [| done]. intros [= <-]. right. eauto.
    + intros [[? _] | (_ & [o Ho] & ->)]; [done |]. by rewrite Ho.
Qed.

Lemma same_sockets_trans w1 w2 w3 :
  same_sockets w1 w2 → same_sockets w2 w3 → same_sockets w1 w3.
Proof. unfold same_sockets. intros (-> & -> & -> & ->) (-> & -> & -> & ->). done. Qed.

Lemma free_same_sockets p w w' : free p w = Ok w' → same_sockets w w'.
Proof. intros [[_ ->] | (_ & _ & ->)]%free_Ok; done. Qed.

Lemma contexts_kept_refl w : contexts_kept w w.
Proof. by intros q c. Qed.

Lemma contexts_kept_trans w1 w2 w3 :
  contexts_kept w1 w2 → contexts_kept w2 w3 → contexts_kept w1 w3.
Proof. intros H12 H23 q c Hq. eauto. Qed.

Lemma free_contexts_kept p w w' : free p w = Ok w' → contexts_kept w w'.
Proof.
  intros [[_ ->] | (_ & _ & ->)]%free_Ok; [apply contexts_kept_refl |].
  intros q c. rewrite heap_set_heap. by intros [_ ?]%lookup_delete_Some.
Qed.

Lemma alloc_bytes_contexts_kept bs w : contexts_kept w (alloc (Bytes bs) w).2.
Proof.
  intros q c. simpl. destruct (decide (brk w = q)) as [<- | Hne].
  - by rewrite lookup_insert_eq.
  - by rewrite lookup_insert_ne.
Qed.

Lemma realloc_contexts_kept moves p n w q w' :
  realloc moves p n w = Ok (q, w') → contexts_kept w w'.
Proof.
  unfold realloc. destruct (p =? 0).
  { intros [= <- <-]. apply alloc_bytes_contexts_kept. }
  destruct (heap w !! p) as [[bs | ] |] eqn:Hp; [| done..].
  destruct moves; intros [= <- <-].
  - intros a c. simpl. destruct (decide (brk w = a)) as [<- | Hne].
    + by rewrite lookup_insert_eq.
    + rewrite lookup_insert_ne by done. by intros [_ ?]%lookup_delete_Some.
  - intros a c. rewrite heap_set_heap.
    destruct (decide (p = a)) as [<- | Hne].
    + by rewrite lookup_insert_eq.
    + by rewrite lookup_insert_ne.
Qed.

Lemma store_bytes_contexts w w' b off src :
  store_bytes b off src w = Ok w' →
  ∀ q c, heap w' !! q = Some (Psco c) ↔ heap w !! q = Some (Psco c).
Proof.
  unfold store_bytes. destruct src as [| x src]; [by intros [= <-] |].
  destruct (heap w !! b) as [[dst | ] |] eqn:Hb; [| done..].
  destruct (_ && _); [| done]. intros [= <-] q c. rewrite heap_set_heap.
  destruct (decide (b = q)) as [<- | Hne].
  - rewrite lookup_insert_eq, Hb. split; intros; congruence.
  - by rewrite lookup_insert_ne.
Qed.

Lemma load_psco_live p w c : heap w !! p = Some (Psco c) → load_psco p w = Ok c.
Proof. apply load_psco_Ok. Qed.

Lemma assign_live p upd w c :
  heap w !! p = Some (Psco c) →
  assign p upd w = Ok (set_heap (<[p := Psco (upd c)]>) w).
Proof. intros Hc. apply assign_Ok. eauto. Qed.

Lemma free_spec (x : Z) (w : World) :
  x = 0 ∨ is_Some (heap w !! x) →
  ∃ w1, free x w = Ok w1 ∧ brk w1 = brk w ∧
        (∀ a, a ≠ x → heap w1 !! a = heap w !! a) ∧
        (x ≠ 0 → heap w1 !! x = None).
Proof.
  intros Hx. destruct (decide (x = 0)) as [-> | Hne].
  - exists w. by rewrite (proj2 (free_Ok 0 w w)) by by left.
  - destruct Hx as [? | Hlive]; [done |].
    exists (set_heap (delete x) w). split; [apply free_Ok; by right |].
    split; [done |]. split.
    + intros a Ha. rewrite heap_set_heap. by rewrite lookup_delete_ne.
    + intros _. rewrite heap_set_heap. apply lookup_delete_eq.
Qed.

Lemma free_brk p w w' : free p w = Ok w' → brk w' = brk w.
Proof. intros [[_ ->] | (_ & _ & ->)]%free_Ok; done. Qed.

Lemma bytes_at_Some b w bs : bytes_at b w = Some bs ↔ heap w !! b = Some (Bytes bs).
Proof.
  unfold bytes_at. destruct (heap w !! b) as [[bs' | c] |]; split; intros; congruence.
Qed.

(** ** Resetting a context after a message *)

Section Reset.
Context {K : ProtocolConstants}.

(** Every successful run of [ResetContextObjects], step by step. *)
Lemma ResetContextObjects_Ok (pContext : Z) (w w' : World) :
  ResetContextObjects pContext w = Ok w' →
  ∃ c0 w1 c v,
    heap w !! pContext = Some (Psco c0) ∧
    free (Message c0) w = Ok w1 ∧
    heap w1 !! pContext = Some (Psco c) ∧
    u32_of_f32 (slide (avg_RecvBufferLen c) (ReceivedMessageBodyBytes c)) = Some v ∧
    if below_ratio (Z.max v RecvBufferSize) (RecvBufferLen c) then
      ∃ w2, free (RecvBuffer c) (set_heap (<[pContext := Psco (averaged c v)]>) w1) = Ok w2 ∧
            heap w2 !! pContext = Some (Psco (averaged c v)) ∧
            w' = set_heap (<[pContext := Psco (shrunk (brk w2) (averaged c v))]>)
                   (malloc (Z.max v RecvBufferSize)
                      (set_heap (<[pContext := Psco (with_RecvBufferLen
                                     (Z.max v RecvBufferSize) (averaged c v))]>) w2)).2
    else w' = set_heap (<[pContext := Psco (averaged c v)]>) w1.
Proof.
  unfold ResetContextObjects. intros H.
  apply bind_Ok in H as (c0 & Hc0%load_psco_Ok & H).
  apply bind_Ok in H as (w1 & Hw1 & H).
  apply bind_Ok in H as (c & Hc%load_psco_Ok & H).
  apply bind_Ok in H as (v & Hv & H).
  assert (Hcast : u32_of_f32 (slide (avg_RecvBufferLen c) (ReceivedMessageBodyBytes c)) = Some v).
  { unfold cast_u32 in Hv. destruct (u32_of_f32 _); [congruence | done]. }
  clear Hv.
  rewrite (assign_live _ _ _ _ Hc) in H. simpl in H.
  rewrite load_psco_live with (c := with_avg_RecvBufferLen v c) in H
    by (rewrite heap_set_heap; apply lookup_insert_eq).
  simpl in H.
  rewrite assign_live with (c := with_avg_RecvBufferLen v c) in H
    by (rewrite heap_set_heap; apply lookup_insert_eq).
  simpl in H. rewrite set_heap_set_heap in H.
  assert (Hins : set_heap (<[pContext := Psco (with_avg_RecvBufferLen
                   (Z.max v RecvBufferSize) (with_avg_RecvBufferLen v c))]>
                   ∘ <[pContext := Psco (with_avg_RecvBufferLen v c)]>) w1
                 = set_heap (<[pContext := Psco (averaged c v)]>) w1).
  { unfold set_heap. f_equal. simpl. by rewrite insert_insert_eq. }
  rewrite Hins in H. clear Hins.
  rewrite load_psco_live with (c := averaged c v) in H
    by (rewrite heap_set_heap; apply lookup_insert_eq).
  simpl in H.
  exists c0, w1, c, v. do 4 (split; [done |]).
  destruct (below_ratio (Z.max v RecvBufferSize) (RecvBufferLen c)).
  - apply bind_Ok in H as (w2 & Hw2 & H).
    apply bind_Ok in H as (c2 & Hc2%load_psco_Ok & H).
    assert (c2 = averaged c v) as ->.
    { apply free_contexts_kept in Hw2. apply Hw2 in Hc2.
      rewrite heap_set_heap, lookup_insert_eq in Hc2. congruence. }
    exists w2. do 2 (split; [done |]).
    rewrite (assign_live _ _ _ _ Hc2) in H. simpl in H.
    rewrite load_psco_live with (c := with_RecvBufferLen (Z.max v RecvBufferSize) (averaged c v)) in H
      by (rewrite heap_set_heap; apply lookup_insert_eq).
    simpl in H.
    apply assign_Ok in H as (c3 & Hc3 & ->).
    simpl in Hc3. f_equal.
    destruct (decide (brk w2 = pContext)) as [Heq | Hne].
    + rewrite Heq, lookup_insert_eq in Hc3. done.
    + rewrite lookup_insert_ne, lookup_insert_eq in Hc3 by done.
      injection Hc3 as <-. done.
  - congruence.
Qed.
End Reset.

Section ResetSpec.
Context {K : ProtocolConstants}.

(** C4: on a context whose [Message] is null or a live block of its own,
    [ResetContextObjects] returns; the new average is the window sum
    converted to [uint32_t], raised to [RecvBufferSize] when smaller; the
    receive buffer is replaced by a fresh one of exactly the new average
    when that average is below [RecvBufferLen / AvgSlideWin_r], and is left
    as it is, with its length, otherwise. *)
Theorem ResetContextObjects_spec (pContext : Z) (w : World)
    (c : PerSocketContextObject) (v : Z) :
  wf_heap w →
  heap w !! pContext = Some (Psco c) →
  Message c = 0 ∨
    (is_Some (heap w !! Message c) ∧ Message c ≠ pContext ∧ Message c ≠ RecvBuffer c) →
  is_Some (bytes_at (RecvBuffer c) w) →
  u32_of_f32 (f32_add (f32_mul (f32_of_u32 (avg_RecvBufferLen c)) AvgSlideWin_a)
                      (f32_mul (f32_of_u32 (ReceivedMessageBodyBytes c)) AvgSlideWin_b))
    = Some v →
  ∃ w' c',
    ResetContextObjects pContext w = Ok w' ∧
    heap w' !! pContext = Some (Psco c') ∧
    avg_RecvBufferLen c' = Z.max v RecvBufferSize ∧
    if f32_ltb (f32_of_u32 (avg_RecvBufferLen c'))
               (f32_div (f32_of_u32 (RecvBufferLen c)) AvgSlideWin_r)
    then RecvBufferLen c' = avg_RecvBufferLen c' ∧
         RecvBuffer c' ≠ RecvBuffer c ∧
         heap w !! RecvBuffer c' = None ∧
         bytes_at (RecvBuffer c') w'
           = Some (replicate (Z.to_nat (avg_RecvBufferLen c')) x00) ∧
         heap w' !! RecvBuffer c = None
    else RecvBufferLen c' = RecvBufferLen c ∧
         RecvBuffer c' = RecvBuffer c ∧
         bytes_at (RecvBuffer c) w' = bytes_at (RecvBuffer c) w.
Proof.
  intros [Hbrk Hwf] Hc HM [bs Hbs%bytes_at_Some] Hv.
  assert (HRp : RecvBuffer c ≠ pContext) by (intros Heq; rewrite Heq in Hbs; congruence).
  assert (HR0 : RecvBuffer c ≠ 0) by (apply Hwf in Hbs; lia).
  assert (HRM : Message c ≠ RecvBuffer c).
  { destruct HM as [HM | (_ & _ & HM)]; [| done]. rewrite HM. done. }
  assert (HpM : pContext ≠ Message c).
  { destruct HM as [HM | (_ & HM & _)]; [| done]. rewrite HM. apply Hwf in Hc. lia. }
  destruct (free_spec (Message c) w) as (w1 & Hfree1 & Hbrk1 & Hsame1 & _).
  { destruct HM as [? | (? & _)]; eauto. }
  unfold ResetContextObjects.
  rewrite (load_psco_live _ _ _ Hc). simpl. rewrite Hfree1. simpl.
  assert (Hc1 : heap w1 !! pContext = Some (Psco c)) by (by rewrite Hsame1).
  rewrite (load_psco_live _ _ _ Hc1). simpl.
  unfold cast_u32, slide. rewrite Hv. simpl.
  rewrite (assign_live _ _ _ _ Hc1). simpl.
  rewrite load_psco_live with (c := with_avg_RecvBufferLen v c)
    by (rewrite heap_set_heap; apply lookup_insert_eq).
  simpl.
  rewrite assign_live with (c := with_avg_RecvBufferLen v c)
    by (rewrite heap_set_heap; apply lookup_insert_eq).
  simpl. rewrite set_heap_set_heap.
  set (c1 := with_avg_RecvBufferLen (Z.max v RecvBufferSize) (with_avg_RecvBufferLen v c)).
  set (wa := set_heap _ w1).
  assert (Hca : heap wa !! pContext = Some (Psco c1)).
  { subst wa. rewrite heap_set_heap. simpl. apply lookup_insert_eq. }
  assert (Hother : ∀ a, a ≠ pContext → heap wa !! a = heap w1 !! a).
  { intros a Ha. subst wa. rewrite heap_set_heap. simpl.
    by rewrite !lookup_insert_ne. }
  rewrite (load_psco_live _ _ _ Hca). simpl.
  unfold below_ratio.
  destruct (f32_ltb (f32_of_u32 (Z.max v RecvBufferSize))
              (f32_div (f32_of_u32 (RecvBufferLen c)) AvgSlideWin_r)) eqn:Hlt.
  - destruct (free_spec (RecvBuffer c) wa) as (w2 & Hfree2 & Hbrk2 & Hsame2 & Hgone2).
    { right. rewrite Hother, Hsame1, Hbs by done. eauto. }
    rewrite Hfree2. simpl.
    assert (Hc2 : heap w2 !! pContext = Some (Psco c1)) by (by rewrite Hsame2).
    rewrite (load_psco_live _ _ _ Hc2). simpl.
    rewrite (assign_live _ _ _ _ Hc2). simpl.
    rewrite load_psco_live
      with (c := with_RecvBufferLen (Z.max v RecvBufferSize) c1)
      by (rewrite heap_set_heap; apply lookup_insert_eq).
    simpl.
    assert (Hb : brk w2 = brk w) by (rewrite Hbrk2; subst wa; simpl; done).
    assert (Hbp : brk w ≠ pContext) by (apply Hwf in Hc; lia).
    eexists. eexists. split.
    { apply assign_live. simpl. rewrite Hb.
      rewrite lookup_insert_ne by done. apply lookup_insert_eq. }
    simpl. rewrite Hb. split; [apply lookup_insert_eq |]. split; [done |].
    subst c1. simpl. rewrite Hlt. split; [done |]. split; [apply Hwf in Hbs; lia |].
    split.
    { destruct (heap w !! brk w) eqn:Hl; [| done]. apply Hwf in Hl. lia. }
    split.
    { apply bytes_at_Some. simpl. rewrite lookup_insert_ne by done.
      apply lookup_insert_eq. }
    rewrite lookup_insert_ne by done.
    rewrite lookup_insert_ne by (apply Hwf in Hbs; lia).
    rewrite lookup_insert_ne by done. apply Hgone2. done.
  - exists wa, c1. split; [done |]. split; [done |]. split; [done |].
    subst c1. simpl. rewrite Hlt. split; [done |]. split; [done |].
    unfold bytes_at. rewrite Hother, Hsame1 by done. done.
Qed.
End ResetSpec.

Lemma ResetContextObjects_spec_witness :
  ∃ w' c',
    ResetContextObjects (K := small) 1 roomy = Ok w' ∧
    heap w' !! 1 = Some (Psco c') ∧
    avg_RecvBufferLen c' = Z.max 16 16 ∧
    if f32_ltb (f32_of_u32 (avg_RecvBufferLen c'))
               (f32_div (f32_of_u32 64) (AvgSlideWin_r (ProtocolConstants := small)))
    then RecvBufferLen c' = avg_RecvBufferLen c' ∧
         RecvBuffer c' ≠ 2 ∧
         heap roomy !! RecvBuffer c' = None ∧
         bytes_at (RecvBuffer c') w'
           = Some (replicate (Z.to_nat (avg_RecvBufferLen c')) x00) ∧
         heap w' !! 2 = None
    else RecvBufferLen c' = 64 ∧
         RecvBuffer c' = 2 ∧
         bytes_at 2 w' = bytes_at 2 roomy.
Proof.
  apply (ResetContextObjects_spec (K := small) 1 roomy (mkPsco 7 2 64 20 0 4 0 false) 16).
  - apply (bool_decide_unpack _). vm_compute. exact I.
  - vm_compute. reflexivity.
  - left. reflexivity.
  - vm_compute. eauto.
  - vm_compute. reflexivity.
Defined.

(** ** The receive pipeline: what the loops leave alone *)

Lemma sys_read_heap d count w :
  heap (sys_read d count w).2 = heap w ∧ brk (sys_read d count w).2 = brk w ∧
  psco_map (sys_read d count w).2 = psco_map w ∧
  open_fds (sys_read d count w).2 = open_fds w.
Proof.
  unfold sys_read. destruct (wire w !! d) as [[| [bs | | | e] rest] |]; try done.
  by destruct (_ <=? _).
Qed.

Lemma recv_prefix_heap budget d body_length p bytes_left w raw w' :
  recv_prefix budget d body_length p bytes_left w = Ok (raw, w') →
  heap w' = heap w ∧ brk w' = brk w ∧
  psco_map w' = psco_map w ∧ open_fds w' = open_fds w.
Proof.
  revert body_length p bytes_left w.
  induction budget as [| budget IH]; intros body_length p bytes_left w; simpl.
  - destruct (bytes_left >? 0); [done |]. by intros [= <- <-].
  - destruct (bytes_left >? 0); [| by intros [= <- <-]].
    destruct (sys_read d bytes_left w) as [r w1] eqn:Hr.
    intros (bl & _ & Hrec)%bind_Ok. apply IH in Hrec as (-> & -> & -> & ->).
    pose proof (sys_read_heap d bytes_left w) as Hs. rewrite Hr in Hs. apply Hs.
Qed.

Lemma FreePerSocketContextObject_contexts_kept p w w' :
  FreePerSocketContextObject p w = Ok w' → contexts_kept w w' ∧ brk w' = brk w.
Proof.
  unfold FreePerSocketContextObject.
  intros (c & _ & (w1 & H1 & H2)%bind_Ok)%bind_Ok. split.
  - eapply contexts_kept_trans; eapply free_contexts_kept; eauto.
  - apply free_brk in H1, H2. congruence.
Qed.

Lemma CloseClientConnection_contexts_kept p lingering w w' :
  CloseClientConnection p lingering w = Ok w' → contexts_kept w w' ∧ brk w' = brk w.
Proof.
  unfold CloseClientConnection. intros (c & _ & H)%bind_Ok.
  by apply FreePerSocketContextObject_contexts_kept in H.
Qed.

(** The second loop only writes into byte arrays; contexts go away only
    when the connection is closed. *)
Lemma recv_body_contexts budget pContext d buf p bytes_left w full w' :
  recv_body budget pContext d buf p bytes_left w = Ok (full, w') →
  contexts_kept w w' ∧ brk w' = brk w ∧
  (full = true → ∀ q c, heap w !! q = Some (Psco c) → heap w' !! q = Some (Psco c)).
Proof.
  revert p bytes_left w.
  induction budget as [| budget IH]; intros p bytes_left w; simpl.
  - destruct (bytes_left >? 0); [done |]. intros [= <- <-].
    split; [apply contexts_kept_refl | done].
  - destruct (bytes_left >? 0);
      [| intros [= <- <-]; split; [apply contexts_kept_refl | done]].
    destruct (sys_read d bytes_left w) as [r w1] eqn:Hr.
    pose proof (sys_read_heap d bytes_left w) as (Hh & Hb & _). rewrite Hr in Hh, Hb.
    simpl in Hh, Hb.
    intros (w2 & Hst & H)%bind_Ok.
    pose proof (store_bytes_contexts _ _ _ _ _ Hst) as Hctx.
    assert (Hb2 : brk w2 = brk w).
    { rewrite <- Hb. clear -Hst. unfold store_bytes in Hst.
      destruct (rd_data r); [by injection Hst as <- |].
      destruct (heap w1 !! buf) as [[dst | ] |]; [| done..].
      destruct (_ && _); [| done]. by injection Hst as <-. }
    destruct (_ || _).
    + apply bind_Ok in H as (w3 & Hclose & [= <- <-]).
      apply CloseClientConnection_contexts_kept in Hclose as [Hk Hb3].
      split; [| split; [congruence | done]].
      intros q c Hq. apply Hk in Hq. apply Hctx in Hq. by rewrite <- Hh.
    + apply IH in H as (Hk & Hb3 & Hfull).
      split; [| split; [congruence |]].
      * intros q c Hq. apply Hk in Hq. apply Hctx in Hq. by rewrite <- Hh.
      * intros Ht q c Hq. apply Hfull; [done |]. apply Hctx. by rewrite Hh.
Qed.

(** Every successful run of the sizing step. *)
Lemma ensure_capacity_Ok moves pContext body_length w w' :
  ensure_capacity moves pContext body_length w = Ok w' →
  ∃ c, heap w !! pContext = Some (Psco c) ∧
    if body_length >? RecvBufferLen c then
      ∃ q w1, realloc moves (RecvBuffer c) body_length w = Ok (q, w1) ∧
              heap w1 !! pContext = Some (Psco c) ∧
              w' = set_heap (<[pContext := Psco (with_RecvBufferLen body_length
                                                  (with_RecvBuffer q c))]>) w1
    else w' = w.
Proof.
  unfold ensure_capacity. intros (c & Hc%load_psco_Ok & H)%bind_Ok.
  exists c. split; [done |]. destruct (body_length >? RecvBufferLen c).
  - apply bind_Ok in H as ([q w1] & Hre & H).
    apply bind_Ok in H as (w2 & (c1 & Hc1 & ->)%assign_Ok & H).
    apply assign_Ok in H as (c2 & Hc2 & ->).
    rewrite heap_set_heap, lookup_insert_eq in Hc2. injection Hc2 as <-.
    pose proof (realloc_contexts_kept _ _ _ _ _ _ Hre _ _ Hc1) as Hc0.
    assert (c1 = c) as -> by congruence.
    exists q, w1. split; [done |]. split; [done |].
    rewrite set_heap_set_heap. unfold set_heap. f_equal. simpl.
    by rewrite insert_insert_eq.
  - congruence.
Qed.

(** Every successful run of [ProcessRecv], step by step. *)
Lemma ProcessRecv_Ok moves budget pContext w full w' :
  ProcessRecv moves budget pContext w = Ok (full, w') →
  ∃ c raw w1 w2 w3,
    heap w !! pContext = Some (Psco c) ∧
    recv_prefix budget (fd c) (replicate 4 x00) 0 MessagePrefixLength w = Ok (raw, w1) ∧
    ensure_capacity moves pContext (le_decode raw) w1 = Ok w2 ∧
    recv_body budget pContext (fd c) (RecvBuffer c) 0 (le_decode raw) w2 = Ok (full, w3) ∧
    if full then
      ∃ c3, heap w3 !! pContext = Some (Psco c3) ∧
            w' = set_heap (<[pContext := Psco (with_ReceivedMessageBodyBytes (le_decode raw)
                                                (with_Message (RecvBuffer c) c3))]>) w3
    else w' = w3.
Proof.
  unfold ProcessRecv. intros (c & Hc%load_psco_Ok & H)%bind_Ok.
  apply bind_Ok in H as ([raw w1] & Hpre & H).
  apply bind_Ok in H as (c' & Hc'%load_psco_Ok & H).
  pose proof (recv_prefix_heap _ _ _ _ _ _ _ _ Hpre) as (Hh & _).
  assert (c' = c) as -> by (rewrite Hh in Hc'; congruence).
  apply bind_Ok in H as (w2 & Hsz & H).
  apply bind_Ok in H as ([full' w3] & Hbody & H).
  exists c, raw, w1, w2, w3. split; [done |]. split; [done |]. split; [done |].
  destruct full'.
  - apply bind_Ok in H as (w4 & (c3 & Hc3 & ->)%assign_Ok & H).
    apply bind_Ok in H as (w5 & (c4 & Hc4 & ->)%assign_Ok & [= <- <-]).
    split; [done |]. exists c3. split; [done |].
    rewrite heap_set_heap, lookup_insert_eq in Hc4. injection Hc4 as <-.
    rewrite set_heap_set_heap. unfold set_heap. f_equal. simpl.
    by rewrite insert_insert_eq.
  - injection H as <- <-. done.
Qed.

(** C6: the sizing step of [ProcessRecv] returns with a buffer length that
    is at least [body_length] and at least what it was; a longer body makes
    the buffer exactly [body_length] long, a body that fits changes
    nothing; and after a complete receive the buffer length is the larger
    of its old value and the length of the body. *)
Theorem capacity_grows_only (moves : bool) (pContext body_length : Z) (w : World)
    (c : PerSocketContextObject) (bs : list byte) :
  wf_heap w →
  heap w !! pContext = Some (Psco c) →
  bytes_at (RecvBuffer c) w = Some bs →
  (∃ w' c',
     ensure_capacity moves pContext body_length w = Ok w' ∧
     heap w' !! pContext = Some (Psco c') ∧
     body_length ≤ RecvBufferLen c' ∧
     RecvBufferLen c ≤ RecvBufferLen c' ∧
     (RecvBufferLen c < body_length →
        RecvBufferLen c' = body_length ∧
        bytes_at (RecvBuffer c') w' = Some (resize (Z.to_nat body_length) x00 bs)) ∧
     (body_length ≤ RecvBufferLen c → w' = w)) ∧
  (∀ budget w'',
     ProcessRecv moves budget pContext w = Ok (true, w'') →
     ∃ c'', heap w'' !! pContext = Some (Psco c'') ∧
            RecvBufferLen c'' = Z.max (RecvBufferLen c) (ReceivedMessageBodyBytes c'')).
Proof.
  intros [Hbrk Hwf] Hc Hbs%bytes_at_Some. split.
  - assert (HR0 : RecvBuffer c ≠ 0) by (apply Hwf in Hbs; lia).
    assert (HRp : RecvBuffer c ≠ pContext) by (intros Heq; rewrite Heq in Hbs; congruence).
    assert (Hbp : brk w ≠ pContext) by (apply Hwf in Hc; lia).
    unfold ensure_capacity. rewrite (load_psco_live _ _ _ Hc). simpl.
    destruct (body_length >? RecvBufferLen c) eqn:Hgt.
    + apply Z.gtb_lt in Hgt. unfold realloc.
      rewrite (proj2 (Z.eqb_neq _ _) HR0), Hbs.
      destruct moves; simpl.
      * rewrite assign_live with (c := c)
          by (simpl; rewrite lookup_insert_ne, lookup_delete_ne by done; done).
        simpl.
        eexists. eexists. split.
        { apply assign_live. simpl. apply lookup_insert_eq. }
        simpl. split; [apply lookup_insert_eq |]. simpl. split; [lia |]. split; [lia |].
        split; [| lia]. intros _. split; [done |].
        apply bytes_at_Some. simpl.
        rewrite lookup_insert_ne by done. rewrite lookup_insert_ne by done.
        apply lookup_insert_eq.
      * rewrite assign_live with (c := c)
          by (simpl; rewrite lookup_insert_ne by done; done).
        simpl.
        eexists. eexists. split.
        { apply assign_live. simpl. apply lookup_insert_eq. }
        simpl. split; [apply lookup_insert_eq |]. simpl. split; [lia |]. split; [lia |].
        split; [| lia]. intros _. split; [done |].
        apply bytes_at_Some. simpl.
        rewrite lookup_insert_ne by done. rewrite lookup_insert_ne by done.
        apply lookup_insert_eq.
    + assert (body_length ≤ RecvBufferLen c).
      { destruct (Z.gtb_spec body_length (RecvBufferLen c)); [done | lia]. }
      exists w, c. repeat split; try done; lia.
  - intros budget w'' (c0 & raw & w1 & w2 & w3 & Hc0 & Hpre & Hsz & Hbody & c3 & Hc3 & ->)%ProcessRecv_Ok.
    assert (c0 = c) as -> by congruence.
    apply recv_prefix_heap in Hpre as (Hh1 & _).
    apply ensure_capacity_Ok in Hsz as (c1 & Hc1 & Hsz).
    assert (c1 = c) as -> by (rewrite Hh1 in Hc1; congruence).
    apply recv_body_contexts in Hbody as (Hk & _ & Hfull).
    eexists. rewrite heap_set_heap, lookup_insert_eq. split; [done |]. simpl.
    destruct (Z.gtb_spec (le_decode raw) (RecvBufferLen c)) as [Hgt | Hle].
    + destruct Hsz as (q & w1' & _ & _ & ->).
      specialize (Hfull eq_refl pContext _ ltac:(rewrite heap_set_heap; apply lookup_insert_eq)).
      assert (c3 = with_RecvBufferLen (le_decode raw) (with_RecvBuffer q c)) as -> by congruence.
      simpl. lia.
    + subst w2. specialize (Hfull eq_refl pContext c Hc1).
      assert (c3 = c) as -> by congruence. lia.
Qed.

Lemma capacity_grows_only_witness :
  (∃ w' c',
     ensure_capacity true 1 17 one_client = Ok w' ∧
     heap w' !! 1 = Some (Psco c') ∧
     17 ≤ RecvBufferLen c' ∧
     16 ≤ RecvBufferLen c' ∧
     (16 < 17 →
        RecvBufferLen c' = 17 ∧
        bytes_at (RecvBuffer c') w' = Some (resize (Z.to_nat 17) x00 (replicate 16 x00))) ∧
     (17 ≤ 16 → w' = one_client)) ∧
  (∀ budget w'',
     ProcessRecv true budget 1 one_client = Ok (true, w'') →
     ∃ c'', heap w'' !! 1 = Some (Psco c'') ∧
            RecvBufferLen c'' = Z.max 16 (ReceivedMessageBodyBytes c'')).
Proof.
  apply (capacity_grows_only true 1 17 one_client
           (mkPsco 7 2 16 16 0 0 0 false) (replicate 16 x00)).
  - apply (bool_decide_unpack _). vm_compute. exact I.
  - vm_compute. reflexivity.
  - vm_compute. reflexivity.
Defined.

(** ** The send pipeline *)

Section Send.
Context {K : ProtocolConstants}.

Lemma ResetContextObjects_keeps_connection pContext w w' :
  ResetContextObjects pContext w = Ok w' →
  same_sockets w w' ∧ ∃ c', heap w' !! pContext = Some (Psco c').
Proof.
  intros (c0 & w1 & c & v & Hc0 & Hfree & Hc & Hv & H)%ResetContextObjects_Ok.
  apply free_same_sockets in Hfree.
  destruct (below_ratio _ _).
  - destruct H as (w2 & Hfree2 & Hc2 & ->). split.
    + apply free_same_sockets in Hfree2.
      eapply same_sockets_trans; [exact Hfree |].
      eapply same_sockets_trans; [| exact Hfree2]. done.
    + eexists. rewrite heap_set_heap. apply lookup_insert_eq.
  - subst w'. split.
    + eapply same_sockets_trans; [exact Hfree | done].
    + eexists. rewrite heap_set_heap. apply lookup_insert_eq.
Qed.

(** [ResetContextObjects] returns on a context whose [Message] is null or
    a live block of its own, whose receive buffer is live and whose new
    average fits [uint32_t]. *)
Lemma ResetContextObjects_returns (pContext : Z) (w : World)
    (c : PerSocketContextObject) (v : Z) :
  wf_heap w →
  heap w !! pContext = Some (Psco c) →
  Message c = 0 ∨
    (is_Some (heap w !! Message c) ∧ Message c ≠ pContext ∧ Message c ≠ RecvBuffer c) →
  is_Some (bytes_at (RecvBuffer c) w) →
  u32_of_f32 (slide (avg_RecvBufferLen c) (ReceivedMessageBodyBytes c)) = Some v →
  ∃ w', ResetContextObjects pContext w = Ok w'.
Proof.
  intros [Hbrk Hwf] Hc HM [bs Hbs%bytes_at_Some] Hv.
  assert (HRp : RecvBuffer c ≠ pContext) by (intros Heq; rewrite Heq in Hbs; congruence).
  assert (HRM : Message c ≠ RecvBuffer c).
  { destruct HM as [HM | (_ & _ & HM)]; [| done]. rewrite HM.
    apply Hwf in Hbs. lia. }
  assert (HpM : pContext ≠ Message c).
  { destruct HM as [HM | (_ & HM & _)]; [| done]. rewrite HM. apply Hwf in Hc. lia. }
  destruct (free_spec (Message c) w) as (w1 & Hfree1 & Hbrk1 & Hsame1 & _).
  { destruct HM as [? | (? & _)]; eauto. }
  unfold ResetContextObjects.
  rewrite (load_psco_live _ _ _ Hc). ok_step. rewrite Hfree1. ok_step.
  assert (Hc1 : heap w1 !! pContext = Some (Psco c)) by (by rewrite Hsame1).
  rewrite (load_psco_live _ _ _ Hc1). ok_step.
  unfold cast_u32. rewrite Hv. ok_step.
  rewrite (assign_live _ _ _ _ Hc1). ok_step.
  rewrite load_psco_live with (c := with_avg_RecvBufferLen v c)
    by (rewrite heap_set_heap; apply lookup_insert_eq).
  ok_step.
  rewrite assign_live with (c := with_avg_RecvBufferLen v c)
    by (rewrite heap_set_heap; apply lookup_insert_eq).
  ok_step. rewrite set_heap_set_heap.
  set (c1 := with_avg_RecvBufferLen _ (with_avg_RecvBufferLen v c)).
  set (wa := set_heap _ w1).
  assert (Hca : heap wa !! pContext = Some (Psco c1)).
  { subst wa. rewrite heap_set_heap. simpl. apply lookup_insert_eq. }
  rewrite (load_psco_live _ _ _ Hca). ok_step.
  destruct (below_ratio _ _); [| by eexists].
  destruct (free_spec (RecvBuffer c1) wa) as (w2 & Hfree2 & Hbrk2 & Hsame2 & _).
  { right. subst wa c1. rewrite heap_set_heap. simpl.
    rewrite !lookup_insert_ne by done. rewrite Hsame1, Hbs by done. eauto. }
  rewrite Hfree2. ok_step.
  assert (Hc2 : heap w2 !! pContext = Some (Psco c1)).
  { rewrite Hsame2; [done |]. subst c1. simpl. done. }
  rewrite (load_psco_live _ _ _ Hc2). ok_step.
  rewrite (assign_live _ _ _ _ Hc2). ok_step.
  rewrite load_psco_live with (c := with_RecvBufferLen (avg_RecvBufferLen c1) c1)
    by (rewrite heap_set_heap; apply lookup_insert_eq).
  ok_step. unfold malloc, alloc. cbv beta iota zeta.
  eexists. apply assign_live. simpl.
  rewrite lookup_insert_ne, lookup_insert_eq; [done |].
  rewrite Hbrk2. subst wa. simpl. rewrite Hbrk1. apply Hwf in Hc. lia.
Qed.

(** C7, as the code has it: what [write] returns plays no part in
    [SendResponse].  On a context that holds a response ([Message] is
    null or a live block of its own, the receive buffer is live, the new
    average fits [uint32_t]) [SendResponse] returns whatever [write]
    returns, a failure included; it has re-armed the descriptor and run
    [ResetContextObjects], exactly as after a successful write, so the
    average is updated; the registry and the set of open descriptors are
    what they were and the context is still allocated. *)
Theorem SendResponse_ignores_write (write_ret pContext : Z) (w : World)
    (c : PerSocketContextObject) (v : Z) :
  wf_heap w →
  heap w !! pContext = Some (Psco c) →
  Message c = 0 ∨
    (is_Some (heap w !! Message c) ∧ Message c ≠ pContext ∧ Message c ≠ RecvBuffer c) →
  is_Some (bytes_at (RecvBuffer c) w) →
  u32_of_f32 (slide (avg_RecvBufferLen c) (ReceivedMessageBodyBytes c)) = Some v →
  ∃ w' c',
    SendResponse write_ret pContext w = Ok w' ∧
    ResetContextObjects pContext (RearmFD (fd c) w) = Ok w' ∧
    psco_map w' = psco_map w ∧
    open_fds w' = open_fds w ∧
    armed w' = {[fd c]} ∪ armed w ∧
    heap w' !! pContext = Some (Psco c') ∧
    fd c' = fd c ∧
    avg_RecvBufferLen c' = Z.max v RecvBufferSize ∧
    ∀ other_ret, SendResponse other_ret pContext w = Ok w'.
Proof.
  intros Hwf Hc HM HR Hv.
  destruct (ResetContextObjects_returns pContext (RearmFD (fd c) w) c v)
    as (w' & Hreset); [done.. |].
  assert (Hsend : ∀ r, SendResponse r pContext w = Ok w').
  { intros r. unfold SendResponse. rewrite (load_psco_live _ _ _ Hc). ok_step.
    rewrite load_psco_live with (c := c) by done. ok_step. done. }
  pose proof (ResetContextObjects_keeps_connection _ _ _ Hreset) as [(Hm & Hf & _ & Ha) _].
  apply ResetContextObjects_Ok in Hreset as Hinv.
  destruct Hinv as (c0 & w1 & c1 & v1 & Hc0 & Hfree & Hc1 & Hv1 & Hend).
  simpl in Hc0. assert (c0 = c) as -> by congruence.
  assert (c1 = c) as ->.
  { apply free_Ok in Hfree as [[_ ->] | (Hne & _ & ->)]; simpl in Hc1; [congruence |].
    destruct HM as [HM | (_ & HM & _)]; [done |].
    rewrite lookup_delete_ne in Hc1 by done. congruence. }
  assert (v1 = v) as -> by congruence.
  assert (Hnew : ∃ c', heap w' !! pContext = Some (Psco c') ∧ fd c' = fd c ∧
                       avg_RecvBufferLen c' = Z.max v RecvBufferSize).
  { destruct (below_ratio _ _).
    - destruct Hend as (w2 & _ & _ & ->). eexists.
      split; [rewrite heap_set_heap; apply lookup_insert_eq | done].
    - subst w'. eexists.
      split; [rewrite heap_set_heap; apply lookup_insert_eq | done]. }
  destruct Hnew as (c' & Hc' & Hfd & Havg).
  exists w', c'. split; [apply Hsend |]. split; [done |].
  split; [done |]. split; [done |]. split; [done |]. done.
Qed.
End Send.

Lemma SendResponse_ignores_write_witness :
  ∃ w' c',
    SendResponse (K := small) (-1) 1 answered = Ok w' ∧
    ResetContextObjects (K := small) 1 (RearmFD 7 answered) = Ok w' ∧
    psco_map w' = psco_map answered ∧
    open_fds w' = open_fds answered ∧
    armed w' = {[7]} ∪ armed answered ∧
    heap w' !! 1 = Some (Psco c') ∧
    fd c' = 7 ∧
    avg_RecvBufferLen c' = Z.max 13 16 ∧
    ∀ other_ret, SendResponse (K := small) other_ret 1 answered = Ok w'.
Proof.
  apply (SendResponse_ignores_write (K := small) (-1) 1 answered
           (mkPsco 7 2 16 16 3 5 2 false) 13).
  - apply (bool_decide_unpack _). vm_compute. exact I.
  - vm_compute. reflexivity.
  - right. split; [vm_compute; eauto |]. split; simpl; lia.
  - vm_compute. eauto.
  - vm_compute. reflexivity.
Defined.

(** C7 fails on the code: [write] fails with [-1] and the connection is
    not closed.  [SendResponse] goes on to [ResetContextObjects], which
    releases the response buffer at address 3; descriptor 7 is still bound
    to the context in the registry, it is still open and registered with
    the event monitor, and the context is still allocated, where
    [CloseClientConnection] would have removed all of these. *)
Lemma SendResponse_write_error_keeps_connection :
  SendResponse (K := small) (-1) 1 answered = Ok after_failed_write ∧
  bytes_at 3 answered = Some [x6f; x6b] ∧
  heap after_failed_write !! 3 = None ∧
  psco_map after_failed_write !! 7 = Some 1 ∧
  elements (open_fds after_failed_write) = [7] ∧
  elements (armed after_failed_write) = [7] ∧
  capacity 1 after_failed_write = Some 16 ∧
  (∃ w, CloseClientConnection 1 false answered = Ok w ∧
        psco_map w !! 7 = None ∧ elements (open_fds w) = [] ∧
        elements (armed w) = [] ∧ capacity 1 w = None).
Proof.
  split; [vm_compute; reflexivity |]. split; [vm_compute; reflexivity |].
  split; [vm_compute; reflexivity |]. split; [vm_compute; reflexivity |].
  split; [vm_compute; reflexivity |]. split; [vm_compute; reflexivity |].
  split; [vm_compute; reflexivity |].
  eexists. split; [vm_compute; reflexivity |]. vm_compute. done.
Qed.

(** ** The buffer never gets shorter than [RecvBufferSize] *)

Section Capacity.
Context {K : ProtocolConstants}.

Lemma capacities_ok_kept w w' :
  capacities_ok w → contexts_kept w w' → capacities_ok w'.
Proof. intros Hok Hk q c Hq. apply (Hok q). by apply Hk. Qed.

Lemma capacities_ok_same_heap w w' :
  capacities_ok w → heap w' = heap w → capacities_ok w'.
Proof. intros Hok Hh q c. rewrite Hh. apply Hok. Qed.

Lemma capacities_ok_insert p c w :
  capacities_ok w → RecvBufferSize ≤ RecvBufferLen c →
  capacities_ok (set_heap (<[p := Psco c]>) w).
Proof.
  intros Hok Hc q c'. rewrite heap_set_heap.
  destruct (decide (p = q)) as [<- | Hne].
  - rewrite lookup_insert_eq. by intros [= <-].
  - rewrite lookup_insert_ne by done. apply Hok.
Qed.

Lemma capacities_ok_alloc_bytes bs w :
  capacities_ok w → capacities_ok (alloc (Bytes bs) w).2.
Proof. intros Hok. eapply capacities_ok_kept; [done | apply alloc_bytes_contexts_kept]. Qed.

Lemma AllocatePerSocketContextObject_capacities d w :
  capacities_ok w → capacities_ok (AllocatePerSocketContextObject d w).2.
Proof.
  intros Hok. unfold AllocatePerSocketContextObject. simpl.
  intros q c. simpl.
  destruct (decide (brk w = q)) as [<- | Hne].
  - rewrite lookup_insert_eq. intros [= <-]. simpl. lia.
  - rewrite lookup_insert_ne by done.
    destruct (decide (brk w + 1 = q)) as [<- | Hne'].
    + by rewrite lookup_insert_eq.
    + rewrite lookup_insert_ne by done. rewrite lookup_insert_ne by done. apply Hok.
Qed.

Lemma ensure_capacity_capacities moves p n w w' :
  capacities_ok w → ensure_capacity moves p n w = Ok w' → capacities_ok w'.
Proof.
  intros Hok (c & Hc & H)%ensure_capacity_Ok.
  destruct (Z.gtb_spec n (RecvBufferLen c)) as [Hgt | Hle]; [| by subst].
  destruct H as (q & w1 & Hre & _ & ->).
  apply capacities_ok_insert.
  - eapply capacities_ok_kept; [done |]. by eapply realloc_contexts_kept.
  - simpl. apply Hok in Hc. lia.
Qed.

Lemma ProcessRecv_capacities moves budget p w full w' :
  capacities_ok w → ProcessRecv moves budget p w = Ok (full, w') → capacities_ok w'.
Proof.
  intros Hok (c & raw & w1 & w2 & w3 & Hc & Hpre & Hsz & Hbody & H)%ProcessRecv_Ok.
  apply recv_prefix_heap in Hpre as (Hh1 & _).
  assert (Hok1 : capacities_ok w1) by by eapply capacities_ok_same_heap.
  assert (Hok2 : capacities_ok w2) by by eapply ensure_capacity_capacities.
  apply recv_body_contexts in Hbody as (Hk & _).
  assert (Hok3 : capacities_ok w3) by by eapply capacities_ok_kept.
  destruct full; [| by subst].
  destruct H as (c3 & Hc3 & ->). apply capacities_ok_insert; [done |].
  simpl. by apply Hok3 in Hc3.
Qed.

Lemma ResetContextObjects_capacities p w w' :
  capacities_ok w → ResetContextObjects p w = Ok w' → capacities_ok w'.
Proof.
  intros Hok (c0 & w1 & c & v & Hc0 & Hfree & Hc & Hv & H)%ResetContextObjects_Ok.
  assert (Hok1 : capacities_ok w1).
  { eapply capacities_ok_kept; [done |]. by eapply free_contexts_kept. }
  assert (Hlen : RecvBufferSize ≤ RecvBufferLen c) by by apply Hok1 in Hc.
  destruct (below_ratio _ _).
  - destruct H as (w2 & Hfree2 & Hc2 & ->).
    apply capacities_ok_insert; [| simpl; lia].
    apply capacities_ok_alloc_bytes. apply capacities_ok_insert; [| simpl; lia].
    eapply capacities_ok_kept; [| by eapply free_contexts_kept].
    by apply capacities_ok_insert.
  - subst w'. by apply capacities_ok_insert.
Qed.

Lemma SocketAcceptThreadProc_cons s e rest w :
  SocketAcceptThreadProc ((s, e) :: rest) w =
  if s =? -1 then
    if e =? EINVAL then Ok (true, w) else SocketAcceptThreadProc rest w
  else
    let w1 := set_open_fds (λ fds, {[s]} ∪ fds) w in
    w2 ← AddPerSocketContextObject (AllocatePerSocketContextObject s w1).1
                                   (AllocatePerSocketContextObject s w1).2;
    w3 ← EnterEventMonitor (AllocatePerSocketContextObject s w1).1 w2;
    SocketAcceptThreadProc rest w3.
Proof. done. Qed.

Lemma SocketAcceptThreadProc_capacities accepts w returned w' :
  capacities_ok w → SocketAcceptThreadProc accepts w = Ok (returned, w') → capacities_ok w'.
Proof.
  revert w. induction accepts as [| [s e] rest IH]; intros w Hok.
  { by intros [= <- <-]. }
  rewrite SocketAcceptThreadProc_cons.
  destruct (s =? -1).
  { destruct (e =? EINVAL); [by intros [= <- <-] | by apply IH]. }
  cbv zeta.
  destruct (AllocatePerSocketContextObject s _) as [p w1] eqn:Hal. simpl.
  intros (w2 & Hadd & (w3 & Hmon & Hrest)%bind_Ok)%bind_Ok.
  apply (IH w3); [| done].
  assert (Hok1 : capacities_ok w1).
  { pose proof (AllocatePerSocketContextObject_capacities s
                  (set_open_fds (λ fds, {[s]} ∪ fds) w)) as Ha.
    rewrite Hal in Ha. apply Ha. by eapply capacities_ok_same_heap. }
  unfold AddPerSocketContextObject in Hadd.
  apply bind_Ok in Hadd as (c & _ & [= <-]).
  unfold EnterEventMonitor in Hmon.
  apply bind_Ok in Hmon as (c' & _ & [= <-]).
  by eapply capacities_ok_same_heap.
Qed.

Lemma run_call_capacities k w w' :
  capacities_ok w → run_call k w = Ok w' → capacities_ok w'.
Proof.
  intros Hok. destruct k as [d | d evs | moves budget p | p resp | r p | p | p l];
    unfold run_call.
  - intros ([returned w1] & Haccept & [= <-])%bind_Ok.
    by eapply SocketAcceptThreadProc_capacities.
  - destruct (bool_decide _); intros [= <-]; [| done]. by eapply capacities_ok_same_heap.
  - intros ([full w1] & Hrecv & [= <-])%bind_Ok. by eapply ProcessRecv_capacities.
  - intros (c & Hc & ->)%assign_Ok. simpl in Hc.
    apply capacities_ok_insert; [by apply capacities_ok_alloc_bytes |].
    simpl. apply (capacities_ok_alloc_bytes resp w Hok) in Hc. done.
  - unfold SendResponse. intros (c & _ & (c' & _ & H)%bind_Ok)%bind_Ok. simpl in H.
    eapply ResetContextObjects_capacities; [| exact H].
    by eapply capacities_ok_same_heap.
  - by apply ResetContextObjects_capacities.
  - intros [Hk _]%CloseClientConnection_contexts_kept. by eapply capacities_ok_kept.
Qed.

(** C5, as the code has it: whatever the workers and the environment do,
    in any order, the buffer length of every live context stays at or above
    [RecvBufferSize]; calls of [ResetContextObjects], repeated or not, never
    take it below. *)
Theorem capacity_never_below_RecvBufferSize (ks : list call) (w w' : World) :
  capacities_ok w →
  run_calls ks w = Ok w' →
  capacities_ok w'.
Proof.
  revert w. induction ks as [| k ks IH]; intros w Hok; simpl.
  - by intros [= <-].
  - intros (w1 & Hk & Hks)%bind_Ok. apply (IH w1); [| done].
    by eapply run_call_capacities.
Qed.
End Capacity.

Lemma capacities_ok_boot `{ProtocolConstants} : capacities_ok boot.
Proof. intros q c Hq. simpl in Hq. by rewrite lookup_empty in Hq. Qed.

Lemma capacity_never_below_RecvBufferSize_witness :
  capacities_ok (H := small) (after_dialogue 40).
Proof.
  apply (capacity_never_below_RecvBufferSize (K := small) (dialogue 40) boot (after_dialogue 40)).
  - apply capacities_ok_boot.
  - vm_compute. reflexivity.
Defined.

(** A buffer of 40 bytes is brought back to 16 by the second answer. *)
Example dialogue_40_shrinks : capacity 1 (after_dialogue 40) = Some 16.
Proof. vm_compute. reflexivity. Qed.

(** A buffer of 17 bytes stays at 17, one-byte message after one-byte
    message. *)
Example dialogue_17_stays : capacity 1 (after_dialogue 17) = Some 17.
Proof. vm_compute. reflexivity. Qed.

Example reset_roomy_shrinks :
  capacity 1 <$> (match ResetContextObjects (K := small) 1 roomy with
                  | Ok w => Some w | _ => None end) = Some (Some 16).
Proof. vm_compute. reflexivity. Qed.

(** When [Message] still is the receive buffer, as [ProcessRecv] leaves
    it, the buffer is freed through [Message] first, and a shrink frees it
    a second time. *)
Example reset_roomy_aliased :
  ResetContextObjects (K := small) 1
    (set_heap (<[1 := Psco (mkPsco 7 2 64 20 2 4 0 false)]>) roomy)
  = Fault InvalidFree.
Proof. vm_compute. reflexivity. Qed.

Lemma ResetContextObjects_settled : ResetContextObjects (K := small) 1 settled = Ok settled.
Proof. vm_compute. reflexivity. Qed.

Lemma repeat_reset_settled (n : nat) : repeat_reset (H := small) n 1 settled = Ok settled.
Proof.
  induction n as [| n IH]; [done |].
  change (repeat_reset (H := small) (S n) 1 settled)
    with (ResetContextObjects (K := small) 1 settled ≫= repeat_reset (H := small) n 1).
  rewrite ResetContextObjects_settled. exact IH.
Qed.

(** C5 fails on the code: with [RecvBufferSize = 16], a buffer of 17
    bytes and an average of 16, every call of [ResetContextObjects] after a
    one-byte message leaves the buffer at 17 bytes; the length does not
    arrive at [RecvBufferSize], however often the call is repeated. *)
Lemma shrink_stops_above_RecvBufferSize :
  ¬ ∃ N : nat, ∀ n : nat, (N ≤ n)%nat →
      capacity_after (H := small) n 1 settled = Some (RecvBufferSize (ProtocolConstants := small)).
Proof.
  intros [N HN]. specialize (HN N (le_n N)).
  unfold capacity_after in HN. rewrite repeat_reset_settled in HN.
  vm_compute in HN. discriminate HN.
Qed.

(** ** The length prefix *)

Lemma to_N_byte_of_Z (z : Z) : Z.of_N (Byte.to_N (byte_of_Z z)) = z mod 256.
Proof.
  unfold byte_of_Z.
  assert (Hr : 0 ≤ z mod 256 < 256) by (apply Z.mod_pos_bound; lia).
  destruct (Byte.of_N (Z.to_N (z mod 256))) as [b |] eqn:Hb.
  - apply Byte.to_of_N in Hb. simpl. rewrite Hb. lia.
  - apply Byte.of_N_None_iff in Hb. lia.
Qed.

Lemma length_le_encode (n : nat) (z : Z) : length (le_encode n z) = n.
Proof. revert z. induction n as [| n IH]; intros z; simpl; [done | by rewrite IH]. Qed.

Lemma le_decode_encode (n : nat) (z : Z) :
  0 ≤ z → le_decode (le_encode n z) = z mod 256 ^ Z.of_nat n.
Proof.
  revert z. induction n as [| n IH]; intros z Hz.
  - simpl. by rewrite Z.mod_1_r.
  - cbn [le_encode le_decode]. rewrite to_N_byte_of_Z, IH by (apply Z.div_pos; lia).
    rewrite Nat2Z.inj_succ, Z.pow_succ_r by lia.
    rewrite (Z.rem_mul_r z 256 (256 ^ Z.of_nat n)) by lia. done.
Qed.

Lemma le_decode_prefix (z : Z) : 0 ≤ z < 2 ^ 32 → le_decode (le_encode 4 z) = z.
Proof.
  intros Hz. rewrite le_decode_encode by lia.
  change (256 ^ Z.of_nat 4) with (2 ^ 32). apply Z.mod_small. lia.
Qed.

(** ** One message, all of it in the socket buffer *)

Lemma store_bytes_live b off src w dst :
  heap w !! b = Some (Bytes dst) →
  src ≠ [] →
  0 ≤ off →
  off + Z.of_nat (length src) ≤ Z.of_nat (length dst) →
  store_bytes b off src w = Ok (set_heap (<[b := Bytes (splice dst (Z.to_nat off) src)]>) w).
Proof.
  intros Hb Hne Hoff Hfit. unfold store_bytes. destruct src as [| x src]; [done |].
  rewrite Hb. destruct (Z.leb_spec 0 off); [| lia].
  destruct (Z.leb_spec (off + Z.of_nat (length (x :: src))) (Z.of_nat (length dst))); [| lia].
  done.
Qed.

Lemma sys_read_Data d count w xs ys rest :
  wire w !! d = Some (Data (xs ++ ys) :: rest) →
  count = Z.of_nat (length xs) →
  sys_read d count w =
    (mkRead count 0 xs,
     set_wire (<[d := match ys with [] => rest | _ => Data ys :: rest end]>) w).
Proof.
  intros Hw ->. unfold sys_read. rewrite Hw.
  rewrite length_app, Nat2Z.inj_add. destruct ys as [| y ys].
  - simpl. rewrite Z.add_0_r, Z.leb_refl. by rewrite app_nil_r.
  - destruct (Z.leb_spec (Z.of_nat (length xs) + Z.of_nat (length (y :: ys)))
                         (Z.of_nat (length xs))) as [Hle | _].
    { simpl in Hle. lia. }
    rewrite Nat2Z.id. by rewrite take_app_length, drop_app_length.
Qed.

Lemma splice_whole (dst src : list byte) :
  length src = length dst → splice dst 0 src = src.
Proof.
  intros Hl. unfold splice. simpl. rewrite Hl, drop_all. by rewrite app_nil_r.
Qed.

Lemma wrap32_0 : wrap32 0 = 0.
Proof. done. Qed.

(** The first loop takes the four bytes of the prefix in one [read]. *)
Lemma recv_prefix_whole budget d w pre body rest :
  wire w !! d = Some (Data (pre ++ body) :: rest) →
  length pre = 4%nat →
  recv_prefix (S budget) d (replicate 4 x00) 0 MessagePrefixLength w =
    Ok (pre, set_wire (<[d := match body with [] => rest | _ => Data body :: rest end]>) w).
Proof.
  intros Hw Hl. cbn [recv_prefix]. change (MessagePrefixLength >? 0) with true. cbv iota.
  rewrite (sys_read_Data d MessagePrefixLength w pre body rest Hw)
    by (rewrite Hl; reflexivity).
  cbn [rd_data rd_ret].
  assert (Hst : store_local (replicate 4 x00) 0 pre = Ok pre).
  { unfold store_local. destruct pre as [| x pre]; [done |].
    rewrite Hl. simpl. by rewrite splice_whole. }
  rewrite Hst. simpl.
  change (wrap32 (MessagePrefixLength - MessagePrefixLength)) with 0.
  by destruct budget.
Qed.

(** The second loop takes a body that is waiting in one [read]. *)
Lemma recv_body_whole budget pContext d buf w body rest :
  wire w !! d = Some (Data body :: rest) →
  body ≠ [] →
  Z.of_nat (length body) < 2 ^ 32 →
  recv_body (S budget) pContext d buf 0 (Z.of_nat (length body)) w =
    w2 ← store_bytes buf 0 body (set_wire (<[d := rest]>) w); Ok (true, w2).
Proof.
  intros Hw Hne Hlt. cbn [recv_body].
  assert (Hpos : 0 < Z.of_nat (length body)) by (destruct body; [done | simpl; lia]).
  rewrite (proj2 (Z.gtb_lt _ _) Hpos).
  rewrite (sys_read_Data d _ w body [] rest) by (by rewrite ?app_nil_r).
  cbn [rd_data rd_ret rd_errno].
  destruct (store_bytes buf 0 body _) as [w2 | f |]; [| done..]. simpl.
  rewrite (proj2 (Z.eqb_neq _ 0)) by lia.
  rewrite (proj2 (Z.eqb_neq _ (-1))) by lia. simpl.
  rewrite Z.sub_diag, wrap32_0. by destruct budget.
Qed.

Lemma ensure_capacity_relocates pContext body_length w c bs :
  wf_heap w →
  heap w !! pContext = Some (Psco c) →
  bytes_at (RecvBuffer c) w = Some bs →
  RecvBufferLen c < body_length →
  ∃ w', ensure_capacity true pContext body_length w = Ok w' ∧
        heap w' !! RecvBuffer c = None ∧
        heap w' !! pContext
          = Some (Psco (with_RecvBufferLen body_length (with_RecvBuffer (brk w) c))) ∧
        bytes_at (brk w) w' = Some (resize (Z.to_nat body_length) x00 bs) ∧
        wire w' = wire w.
Proof.
  intros [Hbrk Hwf] Hc Hbs%bytes_at_Some Hlt.
  assert (HR0 : RecvBuffer c ≠ 0) by (apply Hwf in Hbs; lia).
  assert (HRp : RecvBuffer c ≠ pContext) by (intros Heq; rewrite Heq in Hbs; congruence).
  assert (Hbp : brk w ≠ pContext) by (apply Hwf in Hc; lia).
  assert (HbR : brk w ≠ RecvBuffer c) by (apply Hwf in Hbs; lia).
  unfold ensure_capacity. rewrite (load_psco_live _ _ _ Hc). simpl.
  rewrite (proj2 (Z.gtb_lt _ _) Hlt). unfold realloc.
  rewrite (proj2 (Z.eqb_neq _ _) HR0), Hbs. simpl.
  rewrite assign_live with (c := c)
    by (simpl; rewrite lookup_insert_ne, lookup_delete_ne by done; done).
  simpl.
  eexists. split.
  { apply assign_live. simpl. apply lookup_insert_eq. }
  simpl. split; [| split; [| split]].
  - rewrite !lookup_insert_ne by done. apply lookup_delete_eq.
  - apply lookup_insert_eq.
  - apply bytes_at_Some. simpl. rewrite !lookup_insert_ne by done. apply lookup_insert_eq.
  - done.
Qed.

(** C1 at a body that does not fit, when [realloc] moves the buffer: the
    body is read through the pointer taken before [realloc], into the
    block [realloc] has released. *)
Theorem ProcessRecv_longer_body_relocated (budget : nat) (pContext : Z) (w : World)
    (c : PerSocketContextObject) (bs body : list byte) :
  wf_heap w →
  heap w !! pContext = Some (Psco c) →
  bytes_at (RecvBuffer c) w = Some bs →
  wire w !! fd c = Some [Data (message body)] →
  0 ≤ RecvBufferLen c < Z.of_nat (length body) →
  Z.of_nat (length body) < 2 ^ 32 →
  ProcessRecv true (S budget) pContext w = Fault UseAfterFree.
Proof.
  intros Hwf Hc Hbs Hw [Hcap Hlen] Hlt.
  assert (Hne : body ≠ []) by (intros ->; simpl in Hlen; lia).
  unfold ProcessRecv. rewrite (load_psco_live _ _ _ Hc). ok_step.
  unfold message in Hw.
  rewrite (recv_prefix_whole budget (fd c) w _ body [] Hw) by apply length_le_encode.
  ok_step. rewrite le_decode_prefix by lia.
  set (w1 := set_wire _ w).
  assert (Hc1 : heap w1 !! pContext = Some (Psco c)) by done.
  rewrite (load_psco_live _ _ _ Hc1). ok_step.
  destruct (ensure_capacity_relocates pContext (Z.of_nat (length body)) w1 c bs)
    as (w2 & -> & Hgone & _ & _ & Hwire); [done.. |].
  ok_step.
  assert (Hw2 : wire w2 !! fd c = Some [Data body]).
  { rewrite Hwire. subst w1. simpl. rewrite lookup_insert_eq. by destruct body. }
  rewrite (recv_body_whole budget pContext (fd c) (RecvBuffer c) w2 body [] Hw2) by done.
  unfold store_bytes. destruct body as [| x body]; [done |].
  simpl. by rewrite Hgone.
Qed.

Lemma ProcessRecv_longer_body_relocated_witness :
  ProcessRecv true 1 1 (arrives 7 [Data (message (replicate 17 x41))] one_client)
  = Fault UseAfterFree.
Proof.
  apply (ProcessRecv_longer_body_relocated 0 1 _ (mkPsco 7 2 16 16 0 0 0 false)
           (replicate 16 x00) (replicate 17 x41)).
  - apply (bool_decide_unpack _). vm_compute. exact I.
  - vm_compute. reflexivity.
  - vm_compute. reflexivity.
  - vm_compute. reflexivity.
  - simpl. lia.
  - simpl. lia.
Defined.

Lemma ensure_capacity_in_place pContext body_length w c bs :
  wf_heap w →
  heap w !! pContext = Some (Psco c) →
  bytes_at (RecvBuffer c) w = Some bs →
  RecvBufferLen c < body_length →
  ∃ w', ensure_capacity false pContext body_length w = Ok w' ∧
        heap w' !! pContext = Some (Psco (with_RecvBufferLen body_length c)) ∧
        bytes_at (RecvBuffer c) w' = Some (resize (Z.to_nat body_length) x00 bs) ∧
        wire w' = wire w.
Proof.
  intros [Hbrk Hwf] Hc Hbs%bytes_at_Some Hlt.
  assert (HR0 : RecvBuffer c ≠ 0) by (apply Hwf in Hbs; lia).
  assert (HRp : RecvBuffer c ≠ pContext) by (intros Heq; rewrite Heq in Hbs; congruence).
  unfold ensure_capacity. rewrite (load_psco_live _ _ _ Hc). ok_step.
  rewrite (proj2 (Z.gtb_lt _ _) Hlt). unfold realloc.
  rewrite (proj2 (Z.eqb_neq _ _) HR0), Hbs. ok_step.
  rewrite assign_live with (c := c)
    by (simpl; rewrite lookup_insert_ne by done; done).
  ok_step.
  eexists. split.
  { apply assign_live. simpl. apply lookup_insert_eq. }
  simpl. split; [| split].
  - rewrite lookup_insert_eq. by destruct c.
  - apply bytes_at_Some. simpl. rewrite !lookup_insert_ne by done. apply lookup_insert_eq.
  - done.
Qed.

(** ** The two read loops on reads that fail *)

Lemma wrap32_small z : 0 ≤ z < 2 ^ 32 → wrap32 z = z.
Proof. intros Hz. unfold wrap32. by apply Z.mod_small. Qed.

(** After the peer has closed, the first loop goes round for ever: [read]
    returns 0 and nothing looks at it. *)
Lemma recv_prefix_Eof_spins budget d body_length p bytes_left w rest :
  wire w !! d = Some (Eof :: rest) →
  0 ≤ p < 2 ^ 32 →
  0 < bytes_left < 2 ^ 32 →
  recv_prefix budget d body_length p bytes_left w = Spin.
Proof.
  intros Hw Hp Hleft. induction budget as [| budget IH]; cbn [recv_prefix].
  - by rewrite (proj2 (Z.gtb_lt _ _)) by lia.
  - rewrite (proj2 (Z.gtb_lt _ _)) by lia.
    unfold sys_read. rewrite Hw. cbn [rd_data rd_ret store_local]. ok_step.
    rewrite Z.add_0_r, Z.sub_0_r, !wrap32_small by lia. exact IH.
Qed.

(** A read that would block, in the first loop: the position goes one
    back and the count one up. *)
Lemma recv_prefix_WouldBlock budget d body_length p bytes_left w rest :
  wire w !! d = Some (WouldBlock :: rest) →
  0 < bytes_left →
  recv_prefix (S budget) d body_length p bytes_left w =
  recv_prefix budget d body_length (wrap32 (p - 1)) (wrap32 (bytes_left + 1))
              (set_wire (<[d := rest]>) w).
Proof.
  intros Hw Hleft. cbn [recv_prefix].
  rewrite (proj2 (Z.gtb_lt _ _)) by lia.
  unfold sys_read. rewrite Hw. cbn [rd_data rd_ret store_local]. ok_step.
  by replace (p + -1) with (p - 1) by lia;
     replace (bytes_left - -1) with (bytes_left + 1) by lia.
Qed.

(** The same in the second loop: [EAGAIN] is told apart from the other
    errors, and then added to the position and taken from the count like
    a number of bytes. *)
Lemma recv_body_WouldBlock budget pContext d buf p bytes_left w rest :
  wire w !! d = Some (WouldBlock :: rest) →
  0 < bytes_left →
  recv_body (S budget) pContext d buf p bytes_left w =
  recv_body budget pContext d buf (wrap32 (p - 1)) (wrap32 (bytes_left + 1))
            (set_wire (<[d := rest]>) w).
Proof.
  intros Hw Hleft. cbn [recv_body].
  rewrite (proj2 (Z.gtb_lt _ _)) by lia.
  unfold sys_read. rewrite Hw. cbn [rd_data rd_ret rd_errno store_bytes]. ok_step.
  change (-1 =? 0) with false. change (EAGAIN =? EAGAIN) with true.
  cbn [orb andb negb].
  by replace (p + -1) with (p - 1) by lia;
     replace (bytes_left - -1) with (bytes_left + 1) by lia.
Qed.

(** The second loop closes the connection when the peer has closed. *)
Lemma recv_body_Eof budget pContext d buf p bytes_left w rest :
  wire w !! d = Some (Eof :: rest) →
  0 < bytes_left →
  recv_body (S budget) pContext d buf p bytes_left w =
  w' ← CloseClientConnection pContext false w; Ok (false, w').
Proof.
  intros Hw Hleft. cbn [recv_body].
  rewrite (proj2 (Z.gtb_lt _ _)) by lia.
  unfold sys_read. rewrite Hw. cbn [rd_data rd_ret rd_errno store_bytes]. ok_step.
  done.
Qed.

(** C2 on the code.  Before the prefix is complete a closed peer is never
    noticed: [ProcessRecv] does not return, whatever the number of rounds.
    A read that would block before the first byte of the prefix sends the
    next bytes outside [body_length].  A read that would block in the
    middle of a body of six bytes makes the loop write over the third
    byte and take a seventh byte from the socket.  Only the end of the
    stream in the second loop closes the connection. *)
Theorem read_loops_on_failed_reads :
  (∀ budget, ProcessRecv false budget 1 (arrives 7 [Eof] one_client) = Spin) ∧
  ProcessRecv false 8 1 (arrives 7 [WouldBlock; Data (message hello)] one_client)
    = Fault OutOfBounds ∧
  (∃ w', ProcessRecv false 8 1
           (arrives 7 [Data (le_encode 4 6 ++ abc); WouldBlock; Data defXY] one_client)
         = Ok (true, w') ∧
         bytes_at 2 w' = Some ([x61; x62; x64; x65; x66; x58] ++ replicate 10 x00) ∧
         wire w' !! 7 = Some [Data [x59]]) ∧
  (∃ w', ProcessRecv false 8 1
           (arrives 7 [Data (le_encode 4 6 ++ abc); Eof] one_client)
         = Ok (false, w') ∧
         psco_map w' !! 7 = None ∧ capacity 1 w' = None ∧ elements (open_fds w') = []).
Proof.
  split; [| split; [| split]].
  - intros budget. unfold ProcessRecv.
    rewrite load_psco_live with (c := mkPsco 7 2 16 16 0 0 0 false)
      by (vm_compute; reflexivity).
    ok_step. cbn [fd].
    rewrite (recv_prefix_Eof_spins budget 7 _ 0 MessagePrefixLength _ []);
      [done | vm_compute; reflexivity | lia | unfold MessagePrefixLength; lia].
  - vm_compute. reflexivity.
  - eexists. split; [vm_compute; reflexivity |]. vm_compute. done.
  - eexists. split; [vm_compute; reflexivity |]. vm_compute. done.
Qed.

(** ** [Message] and the receive buffer *)

(** C3 on the code.  When [realloc] moves the buffer for a body of 17
    bytes, the context gets the new block 3 and block 2 is released, and 2
    is the pointer [ProcessRecv] goes on to read into and to store in
    [Message]: the run ends in a write to released memory.  After
    [SendResponse], [Message] is released as well: if it still is the
    receive buffer, the context is left with a receive buffer that is not
    allocated; if the handler has put a response of its own there,
    [Message] points to that released response and not into the receive
    buffer. *)
Theorem Message_outlives_its_block :
  (∃ w', ensure_capacity true 1 17 one_client = Ok w' ∧
         RecvBuffer <$> context 1 one_client = Some 2 ∧
         RecvBuffer <$> context 1 w' = Some 3 ∧
         heap w' !! 2 = None ∧
         ProcessRecv true 2 1 (arrives 7 [Data (message (replicate 17 x41))] one_client)
           = Fault UseAfterFree) ∧
  (Message <$> context 1 received_hello = Some 2 ∧
   RecvBuffer <$> context 1 received_hello = Some 2 ∧
   ∃ w', SendResponse (K := small) 5 1 received_hello = Ok w' ∧
         Message <$> context 1 w' = Some 2 ∧
         RecvBuffer <$> context 1 w' = Some 2 ∧
         heap w' !! 2 = None) ∧
  (∃ w', after_answer = Ok w' ∧
         Message <$> context 1 w' = Some 3 ∧
         RecvBuffer <$> context 1 w' = Some 2 ∧
         heap w' !! 3 = None ∧
         is_Some (heap w' !! 2)).
Proof.
  split; [| split].
  - eexists. split; [vm_compute; reflexivity |]. vm_compute. done.
  - split; [vm_compute; reflexivity |]. split; [vm_compute; reflexivity |].
    eexists. split; [vm_compute; reflexivity |]. vm_compute. done.
  - eexists. split; [vm_compute; reflexivity |]. vm_compute. eauto.
Qed.

(** ** The six body sizes of the round trip, with buffers of 16 bytes *)

Example roundtrip_0 : reported (receive true []) = Some (0, []).
Proof. vm_compute. reflexivity. Qed.

Example roundtrip_1 : reported (receive true [x41]) = Some (1, [x41]).
Proof. vm_compute. reflexivity. Qed.

Example roundtrip_15 :
  reported (receive true (replicate 15 x41)) = Some (15, replicate 15 x41).
Proof. vm_compute. reflexivity. Qed.

Example roundtrip_16 :
  reported (receive true (replicate 16 x41)) = Some (16, replicate 16 x41).
Proof. vm_compute. reflexivity. Qed.

Example roundtrip_17_in_place :
  reported (receive false (replicate 17 x41)) = Some (17, replicate 17 x41).
Proof. vm_compute. reflexivity. Qed.

Example roundtrip_17_relocated : receive true (replicate 17 x41) = Fault UseAfterFree.
Proof. vm_compute. reflexivity. Qed.

Example roundtrip_160_in_place :
  reported (receive false (replicate 160 x41)) = Some (160, replicate 160 x41).
Proof. vm_compute. reflexivity. Qed.

Example roundtrip_160_relocated : receive true (replicate 160 x41) = Fault UseAfterFree.
Proof. vm_compute. reflexivity. Qed.

(** ** A message that arrives in pieces *)

Lemma length_splice (dst : list byte) (off : nat) (src : list byte) :
  (off + length src ≤ length dst)%nat → length (splice dst off src) = length dst.
Proof.
  intros Hfit. unfold splice. rewrite !length_app, length_take, length_drop. lia.
Qed.

Lemma splice_nil (dst : list byte) (off : nat) : splice dst off [] = dst.
Proof. unfold splice. simpl. rewrite Nat.add_0_r. apply take_drop. Qed.

(** Two stores, one behind the other, are one store. *)
Lemma splice_splice (dst : list byte) (off : nat) (xs ys : list byte) :
  (off + length xs + length ys ≤ length dst)%nat →
  splice (splice dst off xs) (off + length xs) ys = splice dst off (xs ++ ys).
Proof.
  intros Hfit. unfold splice.
  assert (Hoff : length (take off dst) = off) by (rewrite length_take; lia).
  rewrite (app_assoc (take off dst) xs).
  assert (Hpre : length (take off dst ++ xs) = (off + length xs)%nat)
    by (rewrite length_app; lia).
  rewrite <- Hpre at 1. rewrite take_app_length.
  replace (off + length xs + length ys)%nat
    with (length (take off dst ++ xs) + length ys)%nat by lia.
  rewrite drop_app_add, drop_drop, length_app.
  rewrite <- !app_assoc. do 3 f_equal. f_equal. lia.
Qed.

Lemma sys_read_chunk d count w xs rest :
  wire w !! d = Some (Data xs :: rest) →
  sys_read d count w =
    if Z.of_nat (length xs) <=? count
    then (mkRead (Z.of_nat (length xs)) 0 xs, set_wire (<[d := rest]>) w)
    else (mkRead count 0 (take (Z.to_nat count) xs),
          set_wire (<[d := Data (drop (Z.to_nat count) xs) :: rest]>) w).
Proof. intros Hw. unfold sys_read. by rewrite Hw. Qed.

(** The second loop on a stream of non-empty pieces: it stores the next
    [bytes_left] bytes of the stream at [buf + p], in at most one round
    per piece, and leaves the rest of the stream on the descriptor. *)
Lemma recv_body_chunks pContext d buf chunks :
  ∀ budget p bytes_left w dst,
    wire w !! d = Some (Data <$> chunks) →
    Forall nonempty chunks →
    heap w !! buf = Some (Bytes dst) →
    0 ≤ p → 0 ≤ bytes_left →
    bytes_left ≤ Z.of_nat (length (concat chunks)) →
    p + bytes_left ≤ Z.of_nat (length dst) →
    p + bytes_left < 2 ^ 32 →
    (length chunks ≤ budget)%nat →
    ∃ w' chunks',
      recv_body budget pContext d buf p bytes_left w = Ok (true, w') ∧
      wire w' !! d = Some (Data <$> chunks') ∧
      concat chunks' = drop (Z.to_nat bytes_left) (concat chunks) ∧
      heap w' = <[buf := Bytes (splice dst (Z.to_nat p)
                                  (take (Z.to_nat bytes_left) (concat chunks)))]> (heap w).
Proof.
  induction chunks as [| xs rest IH];
    intros budget p bytes_left w dst Hw Hne Hbuf Hp Hleft Hstream Hfit Hlt Hbudget.
  { simpl in Hstream. assert (bytes_left = 0) as -> by lia.
    exists w, []. destruct budget; simpl; (split; [done |]); (split; [done |]);
      (split; [done |]); rewrite splice_nil; by rewrite insert_id. }
  destruct (decide (bytes_left = 0)) as [-> | Hpos].
  { exists w, (xs :: rest). destruct budget; simpl; (split; [done |]); (split; [done |]);
      (split; [done |]); rewrite splice_nil; by rewrite insert_id. }
  destruct budget as [| budget]; [simpl in Hbudget; lia |].
  apply Forall_cons in Hne as [Hxs Hne]. unfold nonempty in Hxs.
  assert (Hlen : 0 < Z.of_nat (length xs)) by (destruct xs; [done | simpl; lia]).
  cbn [recv_body]. rewrite (proj2 (Z.gtb_lt _ _)) by lia.
  rewrite (sys_read_chunk d bytes_left w xs (Data <$> rest)) by done.
  simpl in Hstream. rewrite length_app in Hstream.
  destruct (Z.leb_spec (Z.of_nat (length xs)) bytes_left) as [Hwhole | Hpart].
  - (* the whole piece is taken *)
    cbn [rd_data rd_ret rd_errno].
    rewrite (store_bytes_live buf p xs _ dst) by (done || lia). ok_step.
    rewrite (proj2 (Z.eqb_neq _ 0)), (proj2 (Z.eqb_neq _ (-1))) by lia.
    cbn [orb andb]. rewrite !wrap32_small by lia.
    set (w1 := set_heap _ _).
    destruct (IH budget (p + Z.of_nat (length xs)) (bytes_left - Z.of_nat (length xs))
                 w1 (splice dst (Z.to_nat p) xs))
      as (w' & chunks' & Hrun & Hw' & Hrest & Hheap).
    { subst w1. simpl. apply lookup_insert_eq. }
    { done. }
    { subst w1. simpl. apply lookup_insert_eq. }
    { lia. } { lia. } { lia. }
    { rewrite length_splice by lia. lia. }
    { lia. }
    { simpl in Hbudget. lia. }
    exists w', chunks'. split; [done |]. split; [done |]. split.
    + rewrite Hrest. simpl.
      replace (Z.to_nat bytes_left)
        with (length xs + Z.to_nat (bytes_left - Z.of_nat (length xs)))%nat by lia.
      by rewrite drop_app_add.
    + rewrite Hheap. subst w1. simpl. rewrite insert_insert_eq. do 2 f_equal.
      replace (Z.to_nat (p + Z.of_nat (length xs)))
        with (Z.to_nat p + length xs)%nat by lia.
      rewrite splice_splice by (rewrite length_take; lia). f_equal.
      replace (Z.to_nat bytes_left)
        with (length xs + Z.to_nat (bytes_left - Z.of_nat (length xs)))%nat by lia.
      by rewrite take_app_add.
  - (* the piece is longer than what is asked for *)
    cbn [rd_data rd_ret rd_errno].
    assert (Htake : length (take (Z.to_nat bytes_left) xs) = Z.to_nat bytes_left)
      by (rewrite length_take; lia).
    rewrite (store_bytes_live buf p (take (Z.to_nat bytes_left) xs) _ dst);
      [| done | intros Hnil; rewrite Hnil in Htake; simpl in Htake; lia | lia | lia].
    ok_step.
    rewrite (proj2 (Z.eqb_neq _ 0)), (proj2 (Z.eqb_neq _ (-1))) by lia.
    cbn [orb andb]. rewrite Z.sub_diag, wrap32_0.
    eexists. exists (drop (Z.to_nat bytes_left) xs :: rest).
    split; [by destruct budget |]. simpl.
    split; [apply lookup_insert_eq |]. split.
    + by rewrite drop_app_le by lia.
    + by rewrite take_app_le by lia.
Qed.

Lemma store_local_live dst off src :
  src ≠ [] →
  0 ≤ off →
  off + Z.of_nat (length src) ≤ Z.of_nat (length dst) →
  store_local dst off src = Ok (splice dst (Z.to_nat off) src).
Proof.
  intros Hne Hoff Hfit. unfold store_local. destruct src as [| x src]; [done |].
  destruct (Z.leb_spec 0 off); [| lia].
  destruct (Z.leb_spec (off + Z.of_nat (length (x :: src))) (Z.of_nat (length dst))); [| lia].
  done.
Qed.

(** The first loop on a stream of non-empty pieces. *)
Lemma recv_prefix_chunks d chunks :
  ∀ budget body_length p bytes_left w,
    wire w !! d = Some (Data <$> chunks) →
    Forall nonempty chunks →
    0 ≤ p → 0 ≤ bytes_left →
    bytes_left ≤ Z.of_nat (length (concat chunks)) →
    p + bytes_left ≤ Z.of_nat (length body_length) →
    p + bytes_left < 2 ^ 32 →
    (length chunks ≤ budget)%nat →
    ∃ w' chunks',
      recv_prefix budget d body_length p bytes_left w
        = Ok (splice body_length (Z.to_nat p)
                (take (Z.to_nat bytes_left) (concat chunks)), w') ∧
      wire w' !! d = Some (Data <$> chunks') ∧
      concat chunks' = drop (Z.to_nat bytes_left) (concat chunks) ∧
      Forall nonempty chunks' ∧
      (length chunks' ≤ length chunks)%nat.
Proof.
  induction chunks as [| xs rest IH];
    intros budget body_length p bytes_left w Hw Hne Hp Hleft Hstream Hfit Hlt Hbudget.
  { simpl in Hstream. assert (bytes_left = 0) as -> by lia.
    exists w, []. rewrite splice_nil. by destruct budget. }
  destruct (decide (bytes_left = 0)) as [-> | Hpos].
  { exists w, (xs :: rest). rewrite splice_nil. by destruct budget. }
  destruct budget as [| budget]; [simpl in Hbudget; lia |].
  pose proof Hne as Hall. apply Forall_cons in Hne as [Hxs Hne]. unfold nonempty in Hxs.
  assert (Hlen : 0 < Z.of_nat (length xs)) by (destruct xs; [done | simpl; lia]).
  cbn [recv_prefix]. rewrite (proj2 (Z.gtb_lt _ _)) by lia.
  rewrite (sys_read_chunk d bytes_left w xs (Data <$> rest)) by done.
  simpl in Hstream. rewrite length_app in Hstream.
  destruct (Z.leb_spec (Z.of_nat (length xs)) bytes_left) as [Hwhole | Hpart].
  - cbn [rd_data rd_ret].
    rewrite (store_local_live body_length p xs) by (done || lia). ok_step.
    rewrite !wrap32_small by lia.
    destruct (IH budget (splice body_length (Z.to_nat p) xs)
                 (p + Z.of_nat (length xs)) (bytes_left - Z.of_nat (length xs))
                 (set_wire (<[d := Data <$> rest]>) w))
      as (w' & chunks' & Hrun & Hw' & Hrest & Hne' & Hshort).
    { simpl. apply lookup_insert_eq. }
    { done. } { lia. } { lia. } { lia. }
    { rewrite length_splice by lia. lia. }
    { lia. }
    { simpl in Hbudget. lia. }
    exists w', chunks'. split; [| split; [done | split; [| split; [done | simpl; lia]]]].
    + rewrite Hrun. do 2 f_equal.
      replace (Z.to_nat (p + Z.of_nat (length xs)))
        with (Z.to_nat p + length xs)%nat by lia.
      rewrite splice_splice by (rewrite length_take; lia). f_equal. simpl.
      replace (Z.to_nat bytes_left)
        with (length xs + Z.to_nat (bytes_left - Z.of_nat (length xs)))%nat by lia.
      by rewrite take_app_add.
    + rewrite Hrest. simpl.
      replace (Z.to_nat bytes_left)
        with (length xs + Z.to_nat (bytes_left - Z.of_nat (length xs)))%nat by lia.
      by rewrite drop_app_add.
  - cbn [rd_data rd_ret].
    assert (Htake : length (take (Z.to_nat bytes_left) xs) = Z.to_nat bytes_left)
      by (rewrite length_take; lia).
    rewrite (store_local_live body_length p (take (Z.to_nat bytes_left) xs));
      [| intros Hnil; rewrite Hnil in Htake; simpl in Htake; lia | lia | lia].
    ok_step. rewrite Z.sub_diag, wrap32_0.
    eexists. exists (drop (Z.to_nat bytes_left) xs :: rest).
    split; [| split; [| split; [| split]]].
    + simpl. rewrite take_app_le by lia. by destruct budget.
    + simpl. apply lookup_insert_eq.
    + simpl. by rewrite drop_app_le by lia.
    + apply Forall_cons. split; [| done]. unfold nonempty. intros Hnil.
      apply (f_equal length) in Hnil. rewrite length_drop in Hnil. simpl in Hnil. lia.
    + done.
Qed.

(** The round trip of one message, in whatever pieces it arrives: when the
    body fits the receive buffer, or [realloc] extends the buffer where it
    is, [ProcessRecv] returns [true], [Message] is the receive buffer, and
    the context holds the length and the bytes of the body. *)
Lemma ProcessRecv_roundtrip (moves : bool) (budget : nat) (pContext : Z) (w : World)
    (c : PerSocketContextObject) (bs body : list byte) (chunks : list (list byte)) :
  wf_heap w →
  heap w !! pContext = Some (Psco c) →
  bytes_at (RecvBuffer c) w = Some bs →
  Z.of_nat (length bs) = RecvBufferLen c →
  wire w !! fd c = Some (Data <$> chunks) →
  Forall nonempty chunks →
  concat chunks = message body →
  (length chunks ≤ budget)%nat →
  Z.of_nat (length body) < 2 ^ 32 →
  Z.of_nat (length body) ≤ RecvBufferLen c ∨ moves = false →
  ∃ w' c' buf,
    ProcessRecv moves budget pContext w = Ok (true, w') ∧
    heap w' !! pContext = Some (Psco c') ∧
    ReceivedMessageBodyBytes c' = Z.of_nat (length body) ∧
    Message c' = RecvBuffer c' ∧
    bytes_at (Message c') w' = Some buf ∧
    take (length body) buf = body.
Proof.
  intros Hwf Hc Hbs Hcap Hw Hne Hmsg Hbudget Hlt Hfit.
  assert (HRp : RecvBuffer c ≠ pContext).
  { intros Heq. apply bytes_at_Some in Hbs. rewrite Heq in Hbs. congruence. }
  assert (Hpre : length (le_encode 4 (Z.of_nat (length body))) = 4%nat)
    by apply length_le_encode.
  unfold ProcessRecv. rewrite (load_psco_live _ _ _ Hc). ok_step.
  (* the prefix *)
  destruct (recv_prefix_chunks (fd c) chunks budget (replicate 4 x00) 0
              MessagePrefixLength w)
    as (w1 & chunks1 & Hrun1 & Hw1 & Hrest1 & Hne1 & Hshort1); try done.
  { rewrite Hmsg. unfold message, MessagePrefixLength. rewrite length_app, Hpre. lia. }
  all: try (unfold MessagePrefixLength; rewrite ?length_replicate; lia).
  rewrite Hmsg in Hrun1, Hrest1. unfold message in Hrun1, Hrest1.
  rewrite take_app_length' in Hrun1 by (by rewrite Hpre).
  rewrite drop_app_length' in Hrest1 by (by rewrite Hpre).
  rewrite splice_whole in Hrun1 by done.
  rewrite Hrun1. ok_step. rewrite le_decode_prefix by lia.
  pose proof (recv_prefix_heap _ _ _ _ _ _ _ _ Hrun1) as (Hh1 & Hb1 & _).
  assert (Hc1 : heap w1 !! pContext = Some (Psco c)) by (by rewrite Hh1).
  assert (Hbs1 : bytes_at (RecvBuffer c) w1 = Some bs).
  { unfold bytes_at in *. by rewrite Hh1. }
  assert (Hwf1 : wf_heap w1) by (unfold wf_heap in *; by rewrite Hh1, Hb1).
  rewrite (load_psco_live _ _ _ Hc1). ok_step.
  (* the sizing step leaves the context [c2] and the buffer contents [bs2] *)
  assert (∃ w2 c2 bs2,
    ensure_capacity moves pContext (Z.of_nat (length body)) w1 = Ok w2 ∧
    heap w2 !! pContext = Some (Psco c2) ∧ RecvBuffer c2 = RecvBuffer c ∧
    bytes_at (RecvBuffer c) w2 = Some bs2 ∧ (length body ≤ length bs2)%nat ∧
    wire w2 = wire w1) as (w2 & c2 & bs2 & -> & Hc2 & HR2 & Hbs2 & Hlen2 & Hwire2).
  { destruct (Z.ltb_spec (RecvBufferLen c) (Z.of_nat (length body))) as [Hgt | Hle].
    - destruct Hfit as [? | ->]; [lia |].
      destruct (ensure_capacity_in_place pContext (Z.of_nat (length body)) w1 c bs)
        as (w2 & Hsz & Hc2 & Hbs2 & Hwire2); [done.. |].
      exists w2, (with_RecvBufferLen (Z.of_nat (length body)) c),
             (resize (Z.to_nat (Z.of_nat (length body))) x00 bs).
      repeat split; try done. rewrite length_resize. lia.
    - exists w1, c, bs. unfold ensure_capacity.
      rewrite (load_psco_live _ _ _ Hc1). ok_step.
      destruct (Z.gtb_spec (Z.of_nat (length body)) (RecvBufferLen c)); [lia |].
      repeat split; try done. lia. }
  ok_step.
  (* the body *)
  apply bytes_at_Some in Hbs2.
  destruct (recv_body_chunks pContext (fd c) (RecvBuffer c) chunks1 budget 0
              (Z.of_nat (length body)) w2 bs2)
    as (w3 & chunks3 & -> & _ & _ & Hh3); try done; try lia.
  { by rewrite Hwire2. }
  { rewrite Hrest1. lia. }
  ok_step.
  assert (Hc3 : heap w3 !! pContext = Some (Psco c2)).
  { rewrite Hh3. by rewrite lookup_insert_ne. }
  rewrite (assign_live _ _ _ _ Hc3). ok_step.
  rewrite assign_live with (c := with_Message (RecvBuffer c) c2)
    by (rewrite heap_set_heap; apply lookup_insert_eq).
  ok_step. eexists. eexists. eexists. split; [done |].
  simpl. split; [apply lookup_insert_eq |]. simpl.
  split; [done |]. split; [done |]. split.
  - apply bytes_at_Some. simpl. rewrite !lookup_insert_ne by done.
    rewrite Hh3. apply lookup_insert_eq.
  - rewrite Hrest1, Nat2Z.id, firstn_all. unfold splice. simpl.
    by rewrite take_app_length.
Qed.

Example roundtrip_in_pieces :
  reported (ProcessRecv true 4 1 (arrives 7 (Data <$> hello_in_pieces) one_client))
  = Some (5, hello).
Proof. vm_compute. reflexivity. Qed.

(** * Further properties of the server *)

(** ** Closing a connection *)

Lemma World_eq (w w' : World) :
  psco_map w = psco_map w' → heap w = heap w' → brk w = brk w' →
  open_fds w = open_fds w' → wire w = wire w' → armed w = armed w' → w = w'.
Proof. destruct w, w'. simpl. by intros -> -> -> -> -> ->. Qed.

Lemma wf_heap_positive w p o : wf_heap w → heap w !! p = Some o → 0 < p < brk w.
Proof. intros [_ Hwf] Hp. by apply Hwf in Hp. Qed.

Lemma wf_heap_fresh w a : wf_heap w → brk w ≤ a → heap w !! a = None.
Proof.
  intros Hwf Ha. destruct (heap w !! a) eqn:Hl; [| done].
  apply (wf_heap_positive _ _ _ Hwf) in Hl. lia.
Qed.

Lemma free_live (x : Z) (w : World) :
  x ≠ 0 → is_Some (heap w !! x) → free x w = Ok (set_heap (delete x) w).
Proof. intros Hx Hlive. apply free_Ok. right. eauto. Qed.

(** What [CloseClientConnection] makes of a state in which the context
    and its buffer are live. *)
Lemma CloseClientConnection_live (pContext : Z) (lingering : bool) (w : World)
    (c : PerSocketContextObject) (bs : list byte) :
  wf_heap w →
  heap w !! pContext = Some (Psco c) →
  heap w !! RecvBuffer c = Some (Bytes bs) →
  CloseClientConnection pContext lingering w
  = Ok (mkWorld (delete (fd c) (psco_map w))
                (delete pContext (delete (RecvBuffer c) (heap w)))
                (brk w) (open_fds w ∖ {[fd c]})
                (delete (fd c) (wire w)) (armed w ∖ {[fd c]})).
Proof.
  intros Hwf Hc Hbs.
  assert (HR0 : RecvBuffer c ≠ 0) by (apply (wf_heap_positive _ _ _ Hwf) in Hbs; lia).
  assert (Hp0 : pContext ≠ 0) by (apply (wf_heap_positive _ _ _ Hwf) in Hc; lia).
  assert (HRp : RecvBuffer c ≠ pContext) by (intros Heq; rewrite Heq in Hbs; congruence).
  unfold CloseClientConnection. rewrite (load_psco_live _ _ _ Hc). ok_step.
  unfold FreePerSocketContextObject.
  rewrite load_psco_live with (c := c) by done. ok_step.
  rewrite free_live by (simpl; rewrite ?Hbs; eauto). ok_step.
  rewrite free_live by (simpl; rewrite ?lookup_delete_ne, ?Hc by done; eauto).
  done.
Qed.

(** [CloseClientConnection] on a connection with its buffer: the entry of
    the descriptor leaves the registry, the descriptor is closed, and with
    it go its pending input and its registration with the event monitor,
    the buffer and the context are released, and nothing else changes;
    [lingering] plays no part. *)
Theorem CloseClientConnection_releases (pContext : Z) (lingering : bool) (w : World)
    (c : PerSocketContextObject) (bs : list byte) :
  wf_heap w →
  heap w !! pContext = Some (Psco c) →
  bytes_at (RecvBuffer c) w = Some bs →
  ∃ w', CloseClientConnection pContext lingering w = Ok w' ∧
        psco_map w' = delete (fd c) (psco_map w) ∧
        open_fds w' = open_fds w ∖ {[fd c]} ∧
        heap w' = delete pContext (delete (RecvBuffer c) (heap w)) ∧
        brk w' = brk w ∧
        wire w' = delete (fd c) (wire w) ∧ armed w' = armed w ∖ {[fd c]}.
Proof.
  intros Hwf Hc Hbs%bytes_at_Some.
  rewrite (CloseClientConnection_live _ _ _ _ _ Hwf Hc Hbs).
  eexists. split; [reflexivity |]. done.
Qed.

Lemma CloseClientConnection_releases_witness :
  ∃ w', CloseClientConnection 1 true received_hello = Ok w' ∧
        psco_map w' = delete 7 (psco_map received_hello) ∧
        open_fds w' = open_fds received_hello ∖ {[7]} ∧
        heap w' = delete 1 (delete 2 (heap received_hello)) ∧
        brk w' = brk received_hello ∧
        wire w' = delete 7 (wire received_hello) ∧
        armed w' = armed received_hello ∖ {[7]}.
Proof.
  apply (CloseClientConnection_releases 1 true received_hello
           (mkPsco 7 2 16 16 2 5 0 false)
           (hello ++ replicate 11 x00)).
  - apply (bool_decide_unpack _). vm_compute. exact I.
  - vm_compute. reflexivity.
  - vm_compute. reflexivity.
Defined.

(** A connection cannot be closed twice: the second call reads the
    context the first one has released. *)
Theorem CloseClientConnection_twice (pContext : Z) (l1 l2 : bool) (w w' : World) :
  wf_heap w →
  CloseClientConnection pContext l1 w = Ok w' →
  CloseClientConnection pContext l2 w' = Fault UseAfterFree.
Proof.
  intros Hwf Hclose. unfold CloseClientConnection in Hclose.
  apply bind_Ok in Hclose as (c & Hc%load_psco_Ok & Hfree).
  assert (Hp0 : pContext ≠ 0) by (apply (wf_heap_positive _ _ _ Hwf) in Hc; lia).
  unfold FreePerSocketContextObject in Hfree.
  apply bind_Ok in Hfree as (c' & _ & Hfree).
  apply bind_Ok in Hfree as (w1 & _ & Hfree).
  apply free_Ok in Hfree as [[? _] | (_ & _ & ->)]; [done |].
  unfold CloseClientConnection, load_psco. rewrite heap_set_heap, lookup_delete_eq. done.
Qed.

Lemma CloseClientConnection_twice_witness :
  CloseClientConnection 1 false
    (mkWorld ∅ (delete 1 (delete 2 (heap received_hello))) 3 ∅
             (delete 7 (wire received_hello)) ∅)
  = Fault UseAfterFree.
Proof.
  apply (CloseClientConnection_twice 1 false false received_hello).
  - apply (bool_decide_unpack _). vm_compute. exact I.
  - vm_compute. reflexivity.
Defined.

(** ** The registry: how the three operations compose *)

(** Registering a context under a descriptor that is not in the registry
    makes the lookup return it, without any further change; removing the
    descriptor then restores the registry.  But when the descriptor has
    been looked up before, the lookup has bound it to the null pointer:
    the registration is lost and the lookup goes on returning null. *)
Theorem registry_roundtrip (pContext : Z) (c : PerSocketContextObject) (w : World) :
  heap w !! pContext = Some (Psco c) →
  psco_map w !! fd c = None →
  (∃ w1, AddPerSocketContextObject pContext w = Ok w1 ∧
         GetPerSocketContextObject (fd c) w1 = (pContext, w1) ∧
         RemovePerSocketContextObject (fd c) w1 = w) ∧
  (let w0 := (GetPerSocketContextObject (fd c) w).2 in
   AddPerSocketContextObject pContext w0 = Ok w0 ∧
   GetPerSocketContextObject (fd c) w0 = (0, w0)).
Proof.
  intros Hc Hd. split.
  - eexists. split.
    { unfold AddPerSocketContextObject. rewrite (load_psco_live _ _ _ Hc). ok_step.
      reflexivity. }
    split.
    + apply GetPerSocketContextObject_known. simpl.
      rewrite (std_map_insert_absent _ _ _ Hd). apply lookup_insert_eq.
    + apply World_eq; try done. simpl.
      rewrite (std_map_insert_absent _ _ _ Hd).
      rewrite delete_insert_eq. by apply delete_id.
  - assert (Hget : GetPerSocketContextObject (fd c) w
                   = (0, set_psco_map (<[fd c := 0]>) w)).
    { unfold GetPerSocketContextObject. by rewrite (std_map_index_absent _ _ Hd). }
    cbv zeta. rewrite Hget. cbn [snd].
    set (w0 := set_psco_map _ w).
    assert (H0 : psco_map w0 !! fd c = Some 0) by (simpl; apply lookup_insert_eq).
    split.
    + unfold AddPerSocketContextObject.
      rewrite load_psco_live with (c := c) by done. ok_step. f_equal.
      apply World_eq; try done. simpl.
      apply (std_map_insert_present _ _ 0). apply lookup_insert_eq.
    + by apply GetPerSocketContextObject_known.
Qed.

Lemma registry_roundtrip_witness :
  (∃ w1, AddPerSocketContextObject 1 (RemovePerSocketContextObject 7 one_client) = Ok w1 ∧
         GetPerSocketContextObject 7 w1 = (1, w1) ∧
         RemovePerSocketContextObject 7 w1 = RemovePerSocketContextObject 7 one_client) ∧
  (let w0 := (GetPerSocketContextObject 7 (RemovePerSocketContextObject 7 one_client)).2 in
   AddPerSocketContextObject 1 w0 = Ok w0 ∧
   GetPerSocketContextObject 7 w0 = (0, w0)).
Proof.
  apply (registry_roundtrip 1 (mkPsco 7 2 16 16 0 0 0 false)
           (RemovePerSocketContextObject 7 one_client)).
  - vm_compute. reflexivity.
  - vm_compute. reflexivity.
Defined.

(** ** Contexts: allocation and release *)

Section Contexts.
Context {K : ProtocolConstants}.

Lemma AllocatePerSocketContextObject_eq d w :
  AllocatePerSocketContextObject d w =
  (brk w,
   mkWorld (psco_map w)
     (<[brk w := Psco (mkPsco d (brk w + 1) RecvBufferSize RecvBufferSize 0 0 0 Handshake)]>
        (<[brk w + 1 := Bytes (replicate (Z.to_nat RecvBufferSize) x00)]>
           (<[brk w := Psco (mkPsco 0 0 0 0 0 0 0 false)]> (heap w))))
     (brk w + 1 + 1) (open_fds w) (wire w) (armed w)).
Proof. done. Qed.

(** A context that is allocated and released at once leaves the heap as
    it was: neither the context nor its buffer stays behind. *)
Theorem allocate_then_free (d : Z) (w : World) :
  wf_heap w →
  ∃ w', FreePerSocketContextObject (AllocatePerSocketContextObject d w).1
          (AllocatePerSocketContextObject d w).2 = Ok w' ∧
        heap w' = heap w ∧ psco_map w' = psco_map w ∧ open_fds w' = open_fds w.
Proof.
  intros Hwf. rewrite AllocatePerSocketContextObject_eq. simpl.
  assert (Hb : heap w !! brk w = None) by (apply wf_heap_fresh; [done | lia]).
  assert (Hb1 : heap w !! (brk w + 1) = None) by (apply wf_heap_fresh; [done | lia]).
  assert (Hbrk : 0 < brk w) by apply Hwf.
  unfold FreePerSocketContextObject.
  rewrite load_psco_live
    with (c := mkPsco d (brk w + 1) RecvBufferSize RecvBufferSize 0 0 0 Handshake)
    by (simpl; apply lookup_insert_eq).
  ok_step. cbn [RecvBuffer].
  rewrite free_live;
    [| lia | simpl; rewrite lookup_insert_ne, lookup_insert_eq by lia; eauto].
  ok_step.
  rewrite free_live;
    [| lia | simpl; rewrite lookup_delete_ne, lookup_insert_eq by lia; eauto].
  eexists. split; [reflexivity |]. simpl. split; [| done].
  apply map_eq. intros a.
  destruct (decide (a = brk w)) as [-> | Ha]; [by rewrite lookup_delete_eq |].
  rewrite lookup_delete_ne by done.
  destruct (decide (a = brk w + 1)) as [-> | Ha1]; [by rewrite lookup_delete_eq |].
  by rewrite lookup_delete_ne, !lookup_insert_ne by done.
Qed.

(** The accept thread returns only when [AcceptConnection] fails with
    [EINVAL]; with a list of results that has no such failure it is still
    waiting in [accept4] when the list is used up.  Either way it has
    taken on exactly the connections returned before the first [EINVAL]:
    these descriptors, and no others, have been added to the registry, to
    the open descriptors and to the event monitor. *)
Theorem SocketAcceptThreadProc_registers (accepts : list (Z * Z)) (w : World) :
  ∃ returned w',
    SocketAcceptThreadProc accepts w = Ok (returned, w') ∧
    (returned = true ↔ (-1, EINVAL) ∈ accepts) ∧
    dom (psco_map w') = dom (psco_map w) ∪ list_to_set (accepted accepts) ∧
    open_fds w' = open_fds w ∪ list_to_set (accepted accepts) ∧
    armed w' = armed w ∪ list_to_set (accepted accepts) ∧
    wire w' = wire w.
Proof.
  revert w. induction accepts as [| [s e] rest IH]; intros w.
  { exists false, w. simpl. rewrite !union_empty_r_L. split; [done |].
    split; [| done]. split; [done |]. by intros ?%elem_of_nil. }
  rewrite SocketAcceptThreadProc_cons. cbn [accepted].
  destruct (Z.eqb_spec s (-1)) as [-> | Hs].
  { destruct (Z.eqb_spec e EINVAL) as [-> | He].
    - exists true, w. simpl. rewrite !union_empty_r_L. split; [done |].
      split; [| done]. split; [intros _; apply elem_of_cons; by left | done].
    - destruct (IH w) as (returned & w' & Hrun & Hret & Hrest).
      exists returned, w'. split; [done |]. split; [| done].
      rewrite Hret, elem_of_cons. split; [by right |].
      intros [[= ?] | ?]; done. }
  cbv zeta. rewrite AllocatePerSocketContextObject_eq. cbn [fst snd].
  unfold AddPerSocketContextObject.
  rewrite load_psco_live
    with (c := mkPsco s (brk w + 1) RecvBufferSize RecvBufferSize 0 0 0 Handshake)
    by (simpl; apply lookup_insert_eq).
  ok_step. ok_step. unfold EnterEventMonitor.
  rewrite load_psco_live
    with (c := mkPsco s (brk w + 1) RecvBufferSize RecvBufferSize 0 0 0 Handshake)
    by (simpl; apply lookup_insert_eq).
  ok_step. ok_step. set (w1 := set_armed _ _).
  destruct (IH w1) as (returned & w' & Hrun & Hret & Hdom & Hopen & Harmed & Hwire).
  exists returned, w'. split; [done |]. split.
  { rewrite Hret, elem_of_cons. split; [by right |]. intros [[= ? ?] | ?]; done. }
  rewrite Hdom, Hopen, Harmed, Hwire. subst w1. simpl.
  rewrite !(assoc_L (∪)). split; [| split; [| split]]; [| f_equal; apply (comm_L (∪)).. | done].
  f_equal. unfold std_map_insert. destruct (psco_map w !! s) eqn:Hsm.
  - apply (elem_of_dom_2 (D := gset Z)) in Hsm.
    apply set_eq. intros x. rewrite elem_of_union, elem_of_singleton.
    split; [auto | intros [? | ->]; done].
  - rewrite dom_insert_L. apply (comm_L (∪)).
Qed.

(** A connection that is accepted on a descriptor the registry does not
    know can be looked up at once: the lookup returns a context that was
    not there before, with that descriptor, with [RecvBufferSize] as its
    buffer length and as its running average and with the configured
    handshake flag, whose receive buffer is a new block of
    [RecvBufferSize] bytes; the descriptor is open and registered with the
    event monitor.  (What the fields that [AllocatePerSocketContextObject]
    does not assign hold, and what the buffer holds, is not part of the
    statement.) *)
Theorem accepted_connection_is_found (d e : Z) (w : World) :
  wf_heap w →
  d ≠ -1 →
  psco_map w !! d = None →
  ∃ w' p c bs,
    SocketAcceptThreadProc [(d, e)] w = Ok (false, w') ∧
    GetPerSocketContextObject d w' = (p, w') ∧
    heap w !! p = None ∧
    heap w' !! p = Some (Psco c) ∧
    fd c = d ∧
    RecvBufferLen c = RecvBufferSize ∧
    avg_RecvBufferLen c = RecvBufferSize ∧
    WaitingHandshakeMessage c = Handshake ∧
    heap w !! RecvBuffer c = None ∧
    bytes_at (RecvBuffer c) w' = Some bs ∧
    length bs = Z.to_nat RecvBufferSize ∧
    d ∈ open_fds w' ∧ d ∈ armed w' ∧
    wf_heap w'.
Proof.
  intros Hwf Hd Hnone. rewrite SocketAcceptThreadProc_cons.
  rewrite (proj2 (Z.eqb_neq _ _) Hd). cbv zeta.
  rewrite AllocatePerSocketContextObject_eq. cbn [fst snd].
  unfold AddPerSocketContextObject.
  rewrite load_psco_live
    with (c := mkPsco d (brk w + 1) RecvBufferSize RecvBufferSize 0 0 0 Handshake)
    by (simpl; apply lookup_insert_eq).
  ok_step. ok_step. unfold EnterEventMonitor.
  rewrite load_psco_live
    with (c := mkPsco d (brk w + 1) RecvBufferSize RecvBufferSize 0 0 0 Handshake)
    by (simpl; apply lookup_insert_eq).
  ok_step. ok_step.
  assert (Hb0 : heap w !! brk w = None) by (apply wf_heap_fresh; [done | lia]).
  assert (Hb1 : heap w !! (brk w + 1) = None) by (apply wf_heap_fresh; [done | lia]).
  destruct Hwf as [Hbrk Hwf].
  eexists _, (brk w), _, (replicate (Z.to_nat RecvBufferSize) x00).
  split; [reflexivity |]. split.
  { apply GetPerSocketContextObject_known. simpl.
    rewrite std_map_insert_absent by done. apply lookup_insert_eq. }
  split; [done |]. split; [simpl; apply lookup_insert_eq |].
  cbn [fd RecvBufferLen avg_RecvBufferLen WaitingHandshakeMessage RecvBuffer].
  do 4 (split; [done |]). split; [done |]. split.
  { apply bytes_at_Some. simpl. rewrite lookup_insert_ne by lia. apply lookup_insert_eq. }
  split; [apply length_replicate |].
  split; [simpl; apply elem_of_union_l, elem_of_singleton; done |].
  split; [simpl; apply elem_of_union_l, elem_of_singleton; done |].
  split; [simpl; lia |]. simpl. intros a o Ha.
  apply lookup_insert_Some in Ha as [[<- _] | [_ Ha]]; [lia |].
  apply lookup_insert_Some in Ha as [[<- _] | [_ Ha]]; [lia |].
  apply lookup_insert_Some in Ha as [[<- _] | [_ Ha]]; [lia |].
  apply Hwf in Ha. lia.
Qed.
End Contexts.

Lemma allocate_then_free_witness :
  ∃ w', FreePerSocketContextObject (AllocatePerSocketContextObject (K := small) 9 one_client).1
          (AllocatePerSocketContextObject (K := small) 9 one_client).2 = Ok w' ∧
        heap w' = heap one_client ∧ psco_map w' = psco_map one_client ∧
        open_fds w' = open_fds one_client.
Proof.
  apply (allocate_then_free (K := small) 9 one_client).
  apply (bool_decide_unpack _). vm_compute. exact I.
Defined.

Lemma accepted_connection_is_found_witness :
  ∃ w' p c bs,
    SocketAcceptThreadProc (H := small) [(9, 0)] one_client = Ok (false, w') ∧
    GetPerSocketContextObject 9 w' = (p, w') ∧
    heap one_client !! p = None ∧
    heap w' !! p = Some (Psco c) ∧
    fd c = 9 ∧
    RecvBufferLen c = 16 ∧
    avg_RecvBufferLen c = 16 ∧
    WaitingHandshakeMessage c = false ∧
    heap one_client !! RecvBuffer c = None ∧
    bytes_at (RecvBuffer c) w' = Some bs ∧
    length bs = Z.to_nat 16 ∧
    9 ∈ open_fds w' ∧ 9 ∈ armed w' ∧
    wf_heap w'.
Proof.
  apply (accepted_connection_is_found (K := small) 9 0 one_client).
  - apply (bool_decide_unpack _). vm_compute. exact I.
  - lia.
  - vm_compute. reflexivity.
Defined.

(** ** Start-up and shutdown *)

(** Trying addresses that cannot be bound leaves no descriptor open. *)
Lemma bind_loop_unbindable (ais : list addrinfo) (h : Host) :
  Forall unbindable ais →
  Forall (λ ai, ai_socket ai ∉ host_fds h) ais →
  ∃ s, bind_loop ais h
       = (None, mkHost (g_threadpool_size h) s (host_fds h)
                       (addrinfos_held h) (monitor_running h) (socket_accept_thread h)) ∧
       (ais = [] → s = accept_sock h).
Proof.
  revert h. induction ais as [| ai rest IH]; intros h Hun Hfresh.
  { exists (accept_sock h). by destruct h. }
  apply Forall_cons in Hun as [Hai Hun]. apply Forall_cons in Hfresh as [Hs Hfresh].
  cbn [bind_loop]. destruct (ai_socket ai =? -1) eqn:Hsock.
  - destruct (IH (mkHost (g_threadpool_size h) (ai_socket ai) (host_fds h)
                (addrinfos_held h) (monitor_running h) (socket_accept_thread h)))
      as (s & -> & _); [done.. |].
    exists s. split; [done | discriminate].
  - apply Z.eqb_neq in Hsock. destruct (ai_bind ai =? 0) eqn:Hbind.
    { apply Z.eqb_eq in Hbind. destruct Hai. by split. }
    assert (Hclosed : ({[ai_socket ai]} ∪ host_fds h) ∖ {[ai_socket ai]} = host_fds h).
    { apply set_eq. intros x.
      rewrite elem_of_difference, elem_of_union, elem_of_singleton.
      split; [intros [[-> | Hx] Hne]; done |].
      intros Hx. split; [by right |]. intros ->. done. }
    cbn [g_threadpool_size accept_sock host_fds addrinfos_held monitor_running
         socket_accept_thread].
    rewrite Hclosed.
    destruct (IH (mkHost (g_threadpool_size h) (ai_socket ai) (host_fds h)
                (addrinfos_held h) (monitor_running h) (socket_accept_thread h)))
      as (s & -> & _); [done.. |].
    exists s. split; [done | discriminate].
Qed.

(** The loop binds the first address that can be bound; the sockets of
    the addresses before it have been closed again. *)
Lemma bind_loop_first (pre post : list addrinfo) (ai : addrinfo) (h : Host) :
  Forall unbindable pre →
  bindable ai →
  Forall (λ a, ai_socket a ∉ host_fds h) pre →
  bind_loop (pre ++ ai :: post) h
  = (Some ai, mkHost (g_threadpool_size h) (ai_socket ai) ({[ai_socket ai]} ∪ host_fds h)
                     (addrinfos_held h) (monitor_running h) (socket_accept_thread h)).
Proof.
  revert h. induction pre as [| a pre IH]; intros h Hun [Hsock Hbind] Hfresh.
  { cbn [app bind_loop]. rewrite (proj2 (Z.eqb_neq _ _) Hsock), Hbind. done. }
  apply Forall_cons in Hun as [Ha Hun]. apply Forall_cons in Hfresh as [Hs Hfresh].
  cbn [app bind_loop]. destruct (ai_socket a =? -1) eqn:Hsa.
  - rewrite IH by done. done.
  - apply Z.eqb_neq in Hsa. destruct (ai_bind a =? 0) eqn:Hba.
    { apply Z.eqb_eq in Hba. destruct Ha. by split. }
    assert (Hclosed : ({[ai_socket a]} ∪ host_fds h) ∖ {[ai_socket a]} = host_fds h).
    { apply set_eq. intros x.
      rewrite elem_of_difference, elem_of_union, elem_of_singleton.
      split; [intros [[-> | Hx] Hne]; done |].
      intros Hx. split; [by right |]. intros ->. done. }
    cbn [g_threadpool_size accept_sock host_fds addrinfos_held monitor_running
         socket_accept_thread].
    rewrite Hclosed. rewrite IH by done. done.
Qed.

Lemma bind_loop_Some (ais : list addrinfo) (h h' : Host) (ai : addrinfo) :
  bind_loop ais h = (Some ai, h') → Exists bindable ais.
Proof.
  revert h. induction ais as [| a rest IH]; intros h Hloop; [done |].
  cbn [bind_loop] in Hloop. destruct (ai_socket a =? -1) eqn:Hs.
  - apply Exists_cons_tl. eapply IH. exact Hloop.
  - destruct (ai_bind a =? 0) eqn:Hb.
    + apply Exists_cons_hd. split; [by apply Z.eqb_neq | by apply Z.eqb_eq].
    + apply Exists_cons_tl. eapply IH. exact Hloop.
Qed.

(** What the address loop has done when it ends with an address. *)
Lemma bind_loop_split (ais : list addrinfo) (h h' : Host) (ai : addrinfo) :
  bind_loop ais h = (Some ai, h') →
  ∃ pre post, ais = pre ++ ai :: post ∧ Forall unbindable pre ∧ bindable ai ∧
              accept_sock h' = ai_socket ai ∧ ai_socket ai ∈ host_fds h' ∧
              addrinfos_held h' = addrinfos_held h ∧
              monitor_running h' = monitor_running h ∧
              socket_accept_thread h' = socket_accept_thread h.
Proof.
  revert h. induction ais as [| a rest IH]; intros h Hloop; [done |].
  cbn [bind_loop] in Hloop. destruct (Z.eqb_spec (ai_socket a) (-1)) as [Hs | Hs].
  - apply IH in Hloop as (pre & post & -> & Hpre & Hrest).
    exists (a :: pre), post. split; [done |]. split; [| exact Hrest].
    apply Forall_cons. split; [| done]. by intros [? _].
  - destruct (Z.eqb_spec (ai_bind a) 0) as [Hb | Hb].
    + injection Hloop as <- <-. exists [], rest. cbn.
      split; [done |]. split; [apply Forall_nil_2 |]. split; [done |].
      split; [done |]. split; [| done]. apply elem_of_union_l, elem_of_singleton. done.
    + apply IH in Hloop as (pre & post & -> & Hpre & Hrest).
      exists (a :: pre), post. split; [done |]. split; [| exact Hrest].
      apply Forall_cons. split; [| done]. by intros [_ ?].
Qed.

(** On a host on which no accept thread is running (the assignment to
    [socket_accept_thread] ends the process otherwise), [StartSocketServer]
    answers [-1] exactly when one of its four steps fails: no address list,
    no address that can be bound, [listen], or the event monitor.
    Otherwise it answers the listening socket: the socket of the first
    address that could be bound, which is open and is what [accept_sock]
    holds, with the address list freed, the monitor initialised and the
    accept thread started. *)
Theorem StartSocketServer_fails_iff (env : StartEnv) (port : Z) (h : Host) :
  socket_accept_thread h = false →
  ((StartSocketServer env port h).1 = -1 ↔
   getaddrinfo_ret env ≠ 0 ∨ ¬ Exists bindable (addrinfos env) ∨
   listen_ret env = -1 ∨ InitializeEventMonitor_ret env = -1) ∧
  ((StartSocketServer env port h).1 ≠ -1 →
   ∃ pre ai post,
     addrinfos env = pre ++ ai :: post ∧ Forall unbindable pre ∧ bindable ai ∧
     (StartSocketServer env port h).1 = ai_socket ai ∧
     accept_sock (StartSocketServer env port h).2 = ai_socket ai ∧
     ai_socket ai ∈ host_fds (StartSocketServer env port h).2 ∧
     addrinfos_held (StartSocketServer env port h).2 = false ∧
     monitor_running (StartSocketServer env port h).2 = true ∧
     socket_accept_thread (StartSocketServer env port h).2 = true).
Proof.
  intros _. unfold StartSocketServer.
  destruct (Z.eqb_spec (getaddrinfo_ret env) 0) as [Hg | Hg]; cbn [negb];
    [| split; [split; [by left | done] | done]].
  set (h0 := mkHost _ _ _ true _ _).
  destruct (bind_loop (addrinfos env) h0) as [[ai |] h'] eqn:Hloop;
    [| split; [split; [| done] | done]].
  - pose proof (bind_loop_Some _ _ _ _ Hloop) as Hex.
    apply bind_loop_split in Hloop
      as (pre & post & Hais & Hpre & Hai & Hacc & Hopen & _).
    cbn [fst snd accept_sock].
    destruct (Z.eqb_spec (listen_ret env) (-1)) as [Hl | Hl];
      [split; [split; [auto | done] | done] |].
    destruct (Z.eqb_spec (InitializeEventMonitor_ret env) (-1)) as [Hm | Hm];
      [split; [split; [auto | done] | done] |].
    cbn [fst snd accept_sock host_fds addrinfos_held monitor_running
         socket_accept_thread].
    split.
    + rewrite Hacc. destruct Hai as [Hsock _]. split; [done |].
      intros [? | [? | [? | ?]]]; done.
    + intros _. exists pre, ai, post. by rewrite Hacc.
  - intros _. right. left. intros Hex.
    destruct (bind_loop_bound (addrinfos env) h0 Hex) as (ai & h'' & Hl & _).
    congruence.
Qed.

Lemma StartSocketServer_fails_iff_witness :
  let env := mkStartEnv 0 [mkAddrinfo (-1) 0; mkAddrinfo 3 (-1); mkAddrinfo 4 0] 0 0 in
  ((StartSocketServer env 5304 fresh_host).1 = -1 ↔
   getaddrinfo_ret env ≠ 0 ∨ ¬ Exists bindable (addrinfos env) ∨
   listen_ret env = -1 ∨ InitializeEventMonitor_ret env = -1) ∧
  ((StartSocketServer env 5304 fresh_host).1 ≠ -1 →
   ∃ pre ai post,
     addrinfos env = pre ++ ai :: post ∧ Forall unbindable pre ∧ bindable ai ∧
     (StartSocketServer env 5304 fresh_host).1 = ai_socket ai ∧
     accept_sock (StartSocketServer env 5304 fresh_host).2 = ai_socket ai ∧
     ai_socket ai ∈ host_fds (StartSocketServer env 5304 fresh_host).2 ∧
     addrinfos_held (StartSocketServer env 5304 fresh_host).2 = false ∧
     monitor_running (StartSocketServer env 5304 fresh_host).2 = true ∧
     socket_accept_thread (StartSocketServer env 5304 fresh_host).2 = true).
Proof.
  intros env. apply (StartSocketServer_fails_iff env 5304 fresh_host). reflexivity.
Defined.

Lemma difference_union_fresh (s : Z) (fds : gset Z) :
  s ∉ fds → ({[s]} ∪ fds) ∖ {[s]} = fds.
Proof.
  intros Hs. apply set_eq. intros x.
  rewrite elem_of_difference, elem_of_union, elem_of_singleton.
  split; [intros [[-> | Hx] Hne]; done |].
  intros Hx. split; [by right |]. intros ->. done.
Qed.

(** The accept thread returns when [AcceptConnection] fails with
    [EINVAL], and has then closed no connection. *)
Lemma SocketAcceptThreadProc_returns `{ProtocolConstants} (accepts : list (Z * Z))
    (w : World) :
  (-1, EINVAL) ∈ accepts →
  ∃ w', SocketAcceptThreadProc accepts w = Ok (true, w') ∧
        psco_map w ⊆ psco_map w' ∧ open_fds w ⊆ open_fds w'.
Proof.
  revert w. induction accepts as [| [s e] rest IH]; intros w Hin.
  { by apply elem_of_nil in Hin. }
  rewrite SocketAcceptThreadProc_cons.
  destruct (Z.eqb_spec s (-1)) as [-> | Hs].
  { destruct (Z.eqb_spec e EINVAL) as [-> | He]; [by exists w |].
    apply IH. apply elem_of_cons in Hin as [[= ?] | ?]; done. }
  cbv zeta. rewrite AllocatePerSocketContextObject_eq. cbn [fst snd].
  unfold AddPerSocketContextObject.
  rewrite load_psco_live
    with (c := mkPsco s (brk w + 1) RecvBufferSize RecvBufferSize 0 0 0 Handshake)
    by (simpl; apply lookup_insert_eq).
  ok_step. ok_step. unfold EnterEventMonitor.
  rewrite load_psco_live
    with (c := mkPsco s (brk w + 1) RecvBufferSize RecvBufferSize 0 0 0 Handshake)
    by (simpl; apply lookup_insert_eq).
  ok_step. ok_step. set (w1 := set_armed _ _).
  destruct (IH w1) as (w' & Hrun & Hmap & Hopen).
  { apply elem_of_cons in Hin as [[= ? ?] | ?]; done. }
  exists w'. split; [done |]. split.
  - etrans; [| exact Hmap]. subst w1. simpl. unfold std_map_insert.
    destruct (psco_map w !! s) eqn:Hsm; [done |]. by apply insert_subseteq.
  - etrans; [| exact Hopen]. subst w1. simpl. apply union_subseteq_r.
Qed.

(** On a host on which no accept thread is running, a start that
    succeeds leaves exactly one more descriptor open, the listening socket
    of the first address that could be bound, with the monitor and the
    accept thread running and the address list freed.
    [ShutdownSocketServer] after it returns 0 once the accept thread has
    left its loop at the [EINVAL] that follows the [shutdown]: the
    listening socket is closed again, monitor and thread are gone, and
    every connection the registry held is still in it, with its
    descriptor open.  A second [ShutdownSocketServer] does not return: it
    has no thread to join. *)
Theorem start_then_shutdown `{ProtocolConstants} (env : StartEnv) (port : Z) (h : Host)
    (pre post : list addrinfo) (ai : addrinfo) (pending : list (Z * Z)) (w : World) :
  socket_accept_thread h = false →
  getaddrinfo_ret env = 0 →
  addrinfos env = pre ++ ai :: post →
  Forall unbindable pre →
  bindable ai →
  Forall (λ a, ai_socket a ∉ host_fds h) pre →
  ai_socket ai ∉ host_fds h →
  listen_ret env ≠ -1 →
  InitializeEventMonitor_ret env ≠ -1 →
  StartSocketServer env port h
    = (ai_socket ai,
       mkHost 0 (ai_socket ai) ({[ai_socket ai]} ∪ host_fds h) false true true) ∧
  ∃ w',
    ShutdownSocketServer pending (StartSocketServer env port h).2 w
      = Ok (0, mkHost 0 (ai_socket ai) (host_fds h) false false false, w') ∧
    SocketAcceptThreadProc (pending ++ [(-1, EINVAL)]) w = Ok (true, w') ∧
    psco_map w ⊆ psco_map w' ∧ open_fds w ⊆ open_fds w' ∧
    ∀ pending' w'',
      ShutdownSocketServer pending'
        (mkHost 0 (ai_socket ai) (host_fds h) false false false) w''
      = Fault SystemError.
Proof.
  intros _ Hg Hais Hun Hb Hfresh Hs Hl Hm.
  assert (Hstart : StartSocketServer env port h
    = (ai_socket ai,
       mkHost 0 (ai_socket ai) ({[ai_socket ai]} ∪ host_fds h) false true true)).
  { unfold StartSocketServer. rewrite Hg, Hais. cbn [Z.eqb negb].
    rewrite bind_loop_first by done.
    cbn [g_threadpool_size accept_sock host_fds addrinfos_held monitor_running
         socket_accept_thread].
    by rewrite (proj2 (Z.eqb_neq _ _) Hl), (proj2 (Z.eqb_neq _ _) Hm). }
  split; [done |]. rewrite Hstart. cbn [snd].
  destruct (SocketAcceptThreadProc_returns (pending ++ [(-1, EINVAL)]) w)
    as (w' & Hrun & Hmap & Hopen).
  { apply elem_of_app. right. apply elem_of_cons. by left. }
  exists w'. unfold ShutdownSocketServer. cbn [socket_accept_thread].
  rewrite Hrun. ok_step.
  cbn [g_threadpool_size accept_sock host_fds addrinfos_held].
  rewrite difference_union_fresh by done. done.
Qed.

Lemma start_then_shutdown_witness :
  let env := mkStartEnv 0 [mkAddrinfo (-1) 0; mkAddrinfo 3 (-1); mkAddrinfo 4 0] 0 0 in
  StartSocketServer env 5304 fresh_host
    = (4, mkHost 0 4 ({[4]} ∪ host_fds fresh_host) false true true) ∧
  ∃ w',
    ShutdownSocketServer (H := small) [(9, 0)] (StartSocketServer env 5304 fresh_host).2
                         one_client
      = Ok (0, mkHost 0 4 (host_fds fresh_host) false false false, w') ∧
    SocketAcceptThreadProc (H := small) ([(9, 0)] ++ [(-1, EINVAL)]) one_client
      = Ok (true, w') ∧
    psco_map one_client ⊆ psco_map w' ∧ open_fds one_client ⊆ open_fds w' ∧
    ∀ pending' w'',
      ShutdownSocketServer (H := small) pending'
        (mkHost 0 4 (host_fds fresh_host) false false false) w''
      = Fault SystemError.
Proof.
  intros env.
  apply (start_then_shutdown (H := small) env 5304 fresh_host
           [mkAddrinfo (-1) 0; mkAddrinfo 3 (-1)] [] (mkAddrinfo 4 0) [(9, 0)] one_client).
  - reflexivity.
  - reflexivity.
  - reflexivity.
  - repeat apply Forall_cons_2; [| | apply Forall_nil_2];
      intros [Hsock Hbind]; simpl in *; lia.
  - split; simpl; lia.
  - repeat apply Forall_cons_2; [| | apply Forall_nil_2]; simpl; apply not_elem_of_empty.
  - simpl. apply not_elem_of_empty.
  - simpl. lia.
  - simpl. lia.
Defined.

(** When the event monitor cannot be initialised, the start gives back
    everything it took: the listening socket is closed and the address
    list freed; no thread is started. *)
Theorem StartSocketServer_monitor_failure_unwinds (env : StartEnv) (port : Z) (h : Host)
    (pre post : list addrinfo) (ai : addrinfo) :
  getaddrinfo_ret env = 0 →
  addrinfos env = pre ++ ai :: post →
  Forall unbindable pre →
  bindable ai →
  Forall (λ a, ai_socket a ∉ host_fds h) pre →
  ai_socket ai ∉ host_fds h →
  listen_ret env ≠ -1 →
  InitializeEventMonitor_ret env = -1 →
  StartSocketServer env port h
    = (-1, mkHost 0 (ai_socket ai) (host_fds h) false
                  (monitor_running h) (socket_accept_thread h)).
Proof.
  intros Hg Hais Hun Hb Hfresh Hs Hl Hm.
  unfold StartSocketServer. rewrite Hg, Hais. cbn [Z.eqb negb].
  rewrite bind_loop_first by done.
  cbn [g_threadpool_size accept_sock host_fds addrinfos_held monitor_running
       socket_accept_thread].
  rewrite (proj2 (Z.eqb_neq _ _) Hl), Hm. cbn [Z.eqb].
  by rewrite difference_union_fresh.
Qed.

Lemma StartSocketServer_monitor_failure_unwinds_witness :
  StartSocketServer (mkStartEnv 0 [mkAddrinfo 3 (-1); mkAddrinfo 4 0] 0 (-1)) 5304 fresh_host
  = (-1, mkHost 0 4 (host_fds fresh_host) false
                (monitor_running fresh_host) (socket_accept_thread fresh_host)).
Proof.
  apply (StartSocketServer_monitor_failure_unwinds _ 5304 fresh_host
           [mkAddrinfo 3 (-1)] [] (mkAddrinfo 4 0)).
  - reflexivity.
  - reflexivity.
  - apply Forall_cons_2; [| apply Forall_nil_2]. intros [Hsock Hbind]. simpl in *. lia.
  - split; simpl; lia.
  - apply Forall_cons_2; [| apply Forall_nil_2]. simpl. apply not_elem_of_empty.
  - simpl. apply not_elem_of_empty.
  - simpl. lia.
  - reflexivity.
Defined.

(** When no address can be bound, every socket that was tried has been
    closed again, but the address list of [getaddrinfo] is still held:
    [freeaddrinfo] is not reached. *)
Theorem StartSocketServer_no_address (env : StartEnv) (port : Z) (h : Host) :
  getaddrinfo_ret env = 0 →
  Forall unbindable (addrinfos env) →
  Forall (λ a, ai_socket a ∉ host_fds h) (addrinfos env) →
  ∃ s, StartSocketServer env port h
       = (-1, mkHost 0 s (host_fds h) true (monitor_running h) (socket_accept_thread h)).
Proof.
  intros Hg Hun Hfresh. unfold StartSocketServer. rewrite Hg. cbn [Z.eqb negb].
  edestruct bind_loop_unbindable as (s & Hloop & _); [exact Hun | | rewrite Hloop].
  { exact Hfresh. }
  by exists s.
Qed.

Lemma StartSocketServer_no_address_witness :
  ∃ s, StartSocketServer (mkStartEnv 0 [mkAddrinfo 3 (-1); mkAddrinfo (-1) 0] 0 0) 5304 fresh_host
       = (-1, mkHost 0 s (host_fds fresh_host) true
                     (monitor_running fresh_host) (socket_accept_thread fresh_host)).
Proof.
  apply (StartSocketServer_no_address _ 5304 fresh_host).
  - reflexivity.
  - repeat apply Forall_cons_2; [| | apply Forall_nil_2];
      intros [Hsock Hbind]; simpl in *; lia.
  - repeat apply Forall_cons_2; [| | apply Forall_nil_2]; simpl; apply not_elem_of_empty.
Defined.

(** ** [make_nonblocking] *)

(** [make_nonblocking] answers [true] only after it has set [O_NONBLOCK]
    on the descriptor, and then no other flag of the descriptor and no
    flag of another descriptor has changed; when it answers [false] all
    flags are what they were. *)
Theorem make_nonblocking_sets_one_flag (setfl_ret d : Z) (flags : gmap Z Z) :
  ((make_nonblocking setfl_ret d flags).1 = false →
   (make_nonblocking setfl_ret d flags).2 = flags) ∧
  ((make_nonblocking setfl_ret d flags).1 = true →
   ∃ f f', flags !! d = Some f ∧
           (make_nonblocking setfl_ret d flags).2 !! d = Some f' ∧
           Z.testbit f' 11 = true ∧
           (∀ i, i ≠ 11 → Z.testbit f' i = Z.testbit f i) ∧
           ∀ d', d' ≠ d → (make_nonblocking setfl_ret d flags).2 !! d' = flags !! d').
Proof.
  unfold make_nonblocking, fcntl_GETFL, fcntl_SETFL.
  destruct (flags !! d) as [f |] eqn:Hf; [| by split].
  change (default (-1) (Some f)) with f. cbv zeta.
  destruct (-1 =? f); [by split |].
  destruct (Z.eqb_spec setfl_ret (-1)) as [-> | Hret]; [by split |].
  rewrite (proj2 (Z.eqb_neq (-1) setfl_ret)) by lia. cbn [fst snd].
  split; [done |]. intros _. exists f, (Z.lor f O_NONBLOCK).
  split; [done |]. split; [apply lookup_insert_eq |].
  change O_NONBLOCK with (2 ^ 11). split; [| split].
  - rewrite Z.lor_spec, Z.pow2_bits_true by lia. apply orb_true_r.
  - intros i Hi. rewrite Z.lor_spec, Z.pow2_bits_false by lia. apply orb_false_r.
  - intros d' Hd'. by rewrite lookup_insert_ne.
Qed.

(** Flags read, write only and append of the descriptor 5 stay, with
    [O_NONBLOCK] added. *)
Example make_nonblocking_example :
  make_nonblocking 0 5 {[5 := 1025]} = (true, {[5 := 3073]}).
Proof. vm_compute. reflexivity. Qed.

(** ** Messages in a longer stream *)

(** The first loop when the pieces are followed by other events: it takes
    the bytes it wants and leaves what follows on the descriptor. *)
Lemma recv_prefix_stream d chunks tail :
  ∀ budget body_length p bytes_left w,
    wire w !! d = Some ((Data <$> chunks) ++ tail) →
    Forall nonempty chunks →
    0 ≤ p → 0 ≤ bytes_left →
    bytes_left ≤ Z.of_nat (length (concat chunks)) →
    p + bytes_left ≤ Z.of_nat (length body_length) →
    p + bytes_left < 2 ^ 32 →
    (length chunks ≤ budget)%nat →
    ∃ w' chunks',
      recv_prefix budget d body_length p bytes_left w
        = Ok (splice body_length (Z.to_nat p)
                (take (Z.to_nat bytes_left) (concat chunks)), w') ∧
      wire w' !! d = Some ((Data <$> chunks') ++ tail) ∧
      concat chunks' = drop (Z.to_nat bytes_left) (concat chunks) ∧
      Forall nonempty chunks' ∧
      (length chunks' ≤ length chunks)%nat.
Proof.
  induction chunks as [| xs rest IH];
    intros budget body_length p bytes_left w Hw Hne Hp Hleft Hstream Hfit Hlt Hbudget.
  { simpl in Hstream. assert (bytes_left = 0) as -> by lia.
    exists w, []. rewrite splice_nil. by destruct budget. }
  destruct (decide (bytes_left = 0)) as [-> | Hpos].
  { exists w, (xs :: rest). rewrite splice_nil. by destruct budget. }
  destruct budget as [| budget]; [simpl in Hbudget; lia |].
  pose proof Hne as Hall. apply Forall_cons in Hne as [Hxs Hne]. unfold nonempty in Hxs.
  assert (Hlen : 0 < Z.of_nat (length xs)) by (destruct xs; [done | simpl; lia]).
  cbn [recv_prefix]. rewrite (proj2 (Z.gtb_lt _ _)) by lia.
  rewrite (sys_read_chunk d bytes_left w xs ((Data <$> rest) ++ tail)) by done.
  simpl in Hstream. rewrite length_app in Hstream.
  destruct (Z.leb_spec (Z.of_nat (length xs)) bytes_left) as [Hwhole | Hpart].
  - cbn [rd_data rd_ret].
    rewrite (store_local_live body_length p xs) by (done || lia). ok_step.
    rewrite !wrap32_small by lia.
    destruct (IH budget (splice body_length (Z.to_nat p) xs)
                 (p + Z.of_nat (length xs)) (bytes_left - Z.of_nat (length xs))
                 (set_wire (<[d := (Data <$> rest) ++ tail]>) w))
      as (w' & chunks' & Hrun & Hw' & Hrest & Hne' & Hshort).
    { simpl. apply lookup_insert_eq. }
    { done. } { lia. } { lia. } { lia. }
    { rewrite length_splice by lia. lia. }
    { lia. }
    { simpl in Hbudget. lia. }
    exists w', chunks'. split; [| split; [done | split; [| split; [done | simpl; lia]]]].
    + rewrite Hrun. do 2 f_equal.
      replace (Z.to_nat (p + Z.of_nat (length xs)))
        with (Z.to_nat p + length xs)%nat by lia.
      rewrite splice_splice by (rewrite length_take; lia). f_equal. simpl.
      replace (Z.to_nat bytes_left)
        with (length xs + Z.to_nat (bytes_left - Z.of_nat (length xs)))%nat by lia.
      by rewrite take_app_add.
    + rewrite Hrest. simpl.
      replace (Z.to_nat bytes_left)
        with (length xs + Z.to_nat (bytes_left - Z.of_nat (length xs)))%nat by lia.
      by rewrite drop_app_add.
  - cbn [rd_data rd_ret].
    assert (Htake : length (take (Z.to_nat bytes_left) xs) = Z.to_nat bytes_left)
      by (rewrite length_take; lia).
    rewrite (store_local_live body_length p (take (Z.to_nat bytes_left) xs));
      [| intros Hnil; rewrite Hnil in Htake; simpl in Htake; lia | lia | lia].
    ok_step. rewrite Z.sub_diag, wrap32_0.
    eexists. exists (drop (Z.to_nat bytes_left) xs :: rest).
    split; [| split; [| split; [| split]]].
    + simpl. rewrite take_app_le by lia. by destruct budget.
    + simpl. apply lookup_insert_eq.
    + simpl. by rewrite drop_app_le by lia.
    + apply Forall_cons. split; [| done]. unfold nonempty. intros Hnil.
      apply (f_equal length) in Hnil. rewrite length_drop in Hnil. simpl in Hnil. lia.
    + done.
Qed.

(** The second loop in the same situation. *)
Lemma recv_body_stream pContext d buf chunks tail :
  ∀ budget p bytes_left w dst,
    wire w !! d = Some ((Data <$> chunks) ++ tail) →
    Forall nonempty chunks →
    heap w !! buf = Some (Bytes dst) →
    0 ≤ p → 0 ≤ bytes_left →
    bytes_left ≤ Z.of_nat (length (concat chunks)) →
    p + bytes_left ≤ Z.of_nat (length dst) →
    p + bytes_left < 2 ^ 32 →
    (length chunks ≤ budget)%nat →
    ∃ w' chunks',
      recv_body budget pContext d buf p bytes_left w = Ok (true, w') ∧
      wire w' !! d = Some ((Data <$> chunks') ++ tail) ∧
      concat chunks' = drop (Z.to_nat bytes_left) (concat chunks) ∧
      Forall nonempty chunks' ∧
      (length chunks' ≤ length chunks)%nat ∧
      heap w' = <[buf := Bytes (splice dst (Z.to_nat p)
                                  (take (Z.to_nat bytes_left) (concat chunks)))]> (heap w) ∧
      brk w' = brk w ∧ psco_map w' = psco_map w ∧ open_fds w' = open_fds w.
Proof.
  induction chunks as [| xs rest IH];
    intros budget p bytes_left w dst Hw Hne Hbuf Hp Hleft Hstream Hfit Hlt Hbudget.
  { simpl in Hstream. assert (bytes_left = 0) as -> by lia.
    exists w, []. rewrite splice_nil, insert_id by done. by destruct budget. }
  destruct (decide (bytes_left = 0)) as [-> | Hpos].
  { exists w, (xs :: rest). rewrite splice_nil, insert_id by done. by destruct budget. }
  destruct budget as [| budget]; [simpl in Hbudget; lia |].
  pose proof Hne as Hall. apply Forall_cons in Hne as [Hxs Hne]. unfold nonempty in Hxs.
  assert (Hlen : 0 < Z.of_nat (length xs)) by (destruct xs; [done | simpl; lia]).
  cbn [recv_body]. rewrite (proj2 (Z.gtb_lt _ _)) by lia.
  rewrite (sys_read_chunk d bytes_left w xs ((Data <$> rest) ++ tail)) by done.
  simpl in Hstream. rewrite length_app in Hstream.
  destruct (Z.leb_spec (Z.of_nat (length xs)) bytes_left) as [Hwhole | Hpart].
  - cbn [rd_data rd_ret rd_errno].
    rewrite (store_bytes_live buf p xs _ dst) by (done || lia). ok_step.
    rewrite (proj2 (Z.eqb_neq _ 0)), (proj2 (Z.eqb_neq _ (-1))) by lia.
    cbn [orb andb]. rewrite !wrap32_small by lia.
    set (w1 := set_heap _ _).
    destruct (IH budget (p + Z.of_nat (length xs)) (bytes_left - Z.of_nat (length xs))
                 w1 (splice dst (Z.to_nat p) xs))
      as (w' & chunks' & Hrun & Hw' & Hrest & Hne' & Hshort & Hheap & Hbrk & Hmap & Hfds).
    { subst w1. simpl. apply lookup_insert_eq. }
    { done. }
    { subst w1. simpl. apply lookup_insert_eq. }
    { lia. } { lia. } { lia. }
    { rewrite length_splice by lia. lia. }
    { lia. }
    { simpl in Hbudget. lia. }
    exists w', chunks'. split; [done |]. split; [done |].
    split; [| split; [done | split; [simpl; lia | split; [| done]]]].
    + rewrite Hrest. simpl.
      replace (Z.to_nat bytes_left)
        with (length xs + Z.to_nat (bytes_left - Z.of_nat (length xs)))%nat by lia.
      by rewrite drop_app_add.
    + rewrite Hheap. subst w1. simpl. rewrite insert_insert_eq. do 2 f_equal.
      replace (Z.to_nat (p + Z.of_nat (length xs)))
        with (Z.to_nat p + length xs)%nat by lia.
      rewrite splice_splice by (rewrite length_take; lia). f_equal.
      replace (Z.to_nat bytes_left)
        with (length xs + Z.to_nat (bytes_left - Z.of_nat (length xs)))%nat by lia.
      by rewrite take_app_add.
  - cbn [rd_data rd_ret rd_errno].
    assert (Htake : length (take (Z.to_nat bytes_left) xs) = Z.to_nat bytes_left)
      by (rewrite length_take; lia).
    rewrite (store_bytes_live buf p (take (Z.to_nat bytes_left) xs) _ dst);
      [| done | intros Hnil; rewrite Hnil in Htake; simpl in Htake; lia | lia | lia].
    ok_step.
    rewrite (proj2 (Z.eqb_neq _ 0)), (proj2 (Z.eqb_neq _ (-1))) by lia.
    cbn [orb andb]. rewrite Z.sub_diag, wrap32_0.
    eexists. exists (drop (Z.to_nat bytes_left) xs :: rest).
    split; [by destruct budget |]. simpl.
    split; [apply lookup_insert_eq |]. split; [by rewrite drop_app_le by lia |].
    split; [| split; [done | by rewrite take_app_le by lia]].
    apply Forall_cons. split; [| done]. unfold nonempty. intros Hnil.
    apply (f_equal length) in Hnil. rewrite length_drop in Hnil. simpl in Hnil. lia.
Qed.

Lemma wf_heap_insert_live (w : World) (a : Z) (o : object) :
  wf_heap w → is_Some (heap w !! a) → wf_heap (set_heap (<[a := o]>) w).
Proof.
  intros [Hbrk Hwf] [o' Ha]. split; [done |]. intros a' o'' Ha'. simpl in *.
  apply lookup_insert_Some in Ha' as [[<- _] | [_ Ha']]; [by apply Hwf in Ha |].
  by apply Hwf in Ha'.
Qed.

Lemma wf_heap_same (w w' : World) :
  wf_heap w → heap w' = heap w → brk w' = brk w → wf_heap w'.
Proof. unfold wf_heap. by intros Hwf -> ->. Qed.

(** The sizing step when the buffer stays where it is: the body fits, or
    [realloc] extends the block in place. *)
Lemma ensure_capacity_keeps_buffer moves pContext body_length w c bs :
  wf_heap w →
  heap w !! pContext = Some (Psco c) →
  bytes_at (RecvBuffer c) w = Some bs →
  Z.of_nat (length bs) = RecvBufferLen c →
  body_length ≤ RecvBufferLen c ∨ moves = false →
  ∃ w2 c2 bs2,
    ensure_capacity moves pContext body_length w = Ok w2 ∧
    heap w2 = <[pContext := Psco c2]> (<[RecvBuffer c := Bytes bs2]> (heap w)) ∧
    c2 = with_RecvBufferLen (Z.max (RecvBufferLen c) body_length) c ∧
    Z.of_nat (length bs2) = RecvBufferLen c2 ∧
    brk w2 = brk w ∧ wire w2 = wire w ∧
    psco_map w2 = psco_map w ∧ open_fds w2 = open_fds w.
Proof.
  intros Hwf Hc Hbs%bytes_at_Some Hlen Hfit.
  assert (HR0 : RecvBuffer c ≠ 0) by (apply (wf_heap_positive _ _ _ Hwf) in Hbs; lia).
  assert (HRp : RecvBuffer c ≠ pContext) by (intros Heq; rewrite Heq in Hbs; congruence).
  unfold ensure_capacity. rewrite (load_psco_live _ _ _ Hc). ok_step.
  destruct (Z.gtb_spec body_length (RecvBufferLen c)) as [Hgt | Hle].
  - destruct Hfit as [? | ->]; [lia |]. unfold realloc.
    rewrite (proj2 (Z.eqb_neq _ _) HR0), Hbs. ok_step.
    rewrite assign_live with (c := c)
      by (simpl; rewrite lookup_insert_ne by done; done).
    ok_step.
    rewrite assign_live with (c := with_RecvBuffer (RecvBuffer c) c)
      by (simpl; apply lookup_insert_eq).
    eexists. eexists. exists (resize (Z.to_nat body_length) x00 bs).
    split; [reflexivity |]. simpl. rewrite insert_insert_eq.
    split; [reflexivity |]. rewrite Z.max_r by lia.
    split; [by destruct c |]. simpl. rewrite length_resize. split; [lia | done].
  - exists w, c, bs. split; [done |]. rewrite Z.max_l by lia.
    assert (with_RecvBufferLen (RecvBufferLen c) c = c) as -> by by destruct c.
    rewrite (insert_id _ _ _ Hbs), (insert_id _ _ _ Hc). done.
Qed.

(** One message at the head of a stream, step by step.  The stream is
    the pieces [chunks] followed by the events [tail]; the pieces hold the
    message and the bytes [rest] that follow it. *)
Lemma ProcessRecv_message (moves : bool) (budget : nat) (pContext : Z) (w : World)
    (c : PerSocketContextObject) (bs body rest : list byte)
    (chunks : list (list byte)) (tail : list event) :
  wf_heap w →
  heap w !! pContext = Some (Psco c) →
  bytes_at (RecvBuffer c) w = Some bs →
  Z.of_nat (length bs) = RecvBufferLen c →
  wire w !! fd c = Some ((Data <$> chunks) ++ tail) →
  Forall nonempty chunks →
  concat chunks = message body ++ rest →
  (length chunks ≤ budget)%nat →
  Z.of_nat (length body) < 2 ^ 32 →
  Z.of_nat (length body) ≤ RecvBufferLen c ∨ moves = false →
  ∃ w' buf chunks',
    ProcessRecv moves budget pContext w = Ok (true, w') ∧
    heap w' = <[pContext := Psco (with_ReceivedMessageBodyBytes (Z.of_nat (length body))
                                   (with_Message (RecvBuffer c)
                                      (with_RecvBufferLen
                                         (Z.max (RecvBufferLen c) (Z.of_nat (length body)))
                                         c)))]>
                (<[RecvBuffer c := Bytes buf]> (heap w)) ∧
    take (length body) buf = body ∧
    Z.of_nat (length buf) = Z.max (RecvBufferLen c) (Z.of_nat (length body)) ∧
    wire w' !! fd c = Some ((Data <$> chunks') ++ tail) ∧
    concat chunks' = rest ∧ Forall nonempty chunks' ∧
    (length chunks' ≤ length chunks)%nat ∧
    brk w' = brk w ∧ psco_map w' = psco_map w ∧ open_fds w' = open_fds w.
Proof.
  intros Hwf Hc Hbs Hcap Hw Hne Hmsg Hbudget Hlt Hfit.
  assert (HRp : RecvBuffer c ≠ pContext).
  { intros Heq. apply bytes_at_Some in Hbs. rewrite Heq in Hbs. congruence. }
  assert (Hpre : length (le_encode 4 (Z.of_nat (length body))) = 4%nat)
    by apply length_le_encode.
  unfold ProcessRecv. rewrite (load_psco_live _ _ _ Hc). ok_step.
  (* the prefix *)
  destruct (recv_prefix_stream (fd c) chunks tail budget (replicate 4 x00) 0
              MessagePrefixLength w)
    as (w1 & chunks1 & Hrun1 & Hw1 & Hrest1 & Hne1 & Hshort1); try done.
  { rewrite Hmsg. unfold message, MessagePrefixLength.
    rewrite !length_app, Hpre. lia. }
  all: try (unfold MessagePrefixLength; rewrite ?length_replicate; lia).
  rewrite Hmsg in Hrun1, Hrest1. unfold message in Hrun1, Hrest1.
  rewrite <- app_assoc in Hrun1, Hrest1.
  rewrite take_app_length' in Hrun1 by (by rewrite Hpre).
  rewrite drop_app_length' in Hrest1 by (by rewrite Hpre).
  rewrite splice_whole in Hrun1 by done.
  rewrite Hrun1. ok_step. rewrite le_decode_prefix by lia.
  pose proof (recv_prefix_heap _ _ _ _ _ _ _ _ Hrun1) as (Hh1 & Hb1 & Hm1 & Hf1).
  assert (Hc1 : heap w1 !! pContext = Some (Psco c)) by (by rewrite Hh1).
  assert (Hbs1 : bytes_at (RecvBuffer c) w1 = Some bs).
  { unfold bytes_at in *. by rewrite Hh1. }
  assert (Hwf1 : wf_heap w1) by by eapply wf_heap_same.
  rewrite (load_psco_live _ _ _ Hc1). ok_step.
  (* the sizing step *)
  destruct (ensure_capacity_keeps_buffer moves pContext (Z.of_nat (length body)) w1 c bs)
    as (w2 & c2 & bs2 & -> & Hh2 & Hc2 & Hlen2 & Hb2 & Hwire2 & Hm2 & Hf2); try done.
  ok_step.
  (* the body *)
  assert (Hcap2 : RecvBufferLen c2 = Z.max (RecvBufferLen c) (Z.of_nat (length body)))
    by (by rewrite Hc2).
  destruct (recv_body_stream pContext (fd c) (RecvBuffer c) chunks1 tail budget 0
              (Z.of_nat (length body)) w2 bs2)
    as (w3 & chunks3 & -> & Hw3 & Hrest3 & Hne3 & Hshort3 & Hh3 & Hb3 & Hm3 & Hf3);
    try done; try lia.
  { by rewrite Hwire2. }
  { rewrite Hh2, lookup_insert_ne by done. apply lookup_insert_eq. }
  { rewrite Hrest1, length_app. lia. }
  ok_step.
  assert (Hc3 : heap w3 !! pContext = Some (Psco c2)).
  { rewrite Hh3, lookup_insert_ne by done. rewrite Hh2. apply lookup_insert_eq. }
  rewrite (assign_live _ _ _ _ Hc3). ok_step.
  rewrite assign_live with (c := with_Message (RecvBuffer c) c2)
    by (rewrite heap_set_heap; apply lookup_insert_eq).
  ok_step. eexists. exists (splice bs2 0 body), chunks3. split; [reflexivity |].
  rewrite Hrest1, Nat2Z.id, take_app_length in Hh3.
  rewrite Hrest1, Nat2Z.id, drop_app_length in Hrest3.
  split.
  { simpl. apply map_eq. intros a. rewrite Hh3, Hh2, Hh1, Hc2.
    destruct (decide (a = pContext)) as [-> | Hap]; [by rewrite !lookup_insert_eq |].
    rewrite !(lookup_insert_ne _ pContext) by done.
    destruct (decide (a = RecvBuffer c)) as [-> | HaR]; [by rewrite !lookup_insert_eq |].
    by rewrite !lookup_insert_ne by done. }
  unfold splice. simpl.
  split; [by rewrite take_app_length |].
  split.
  { rewrite length_app, length_drop. lia. }
  split; [done |]. split; [done |]. split; [done |].
  split; [lia |]. split; [congruence |]. split; congruence.
Qed.


Lemma wf_heap_two_inserts (w w' : World) (a b : Z) (oa ob : object) :
  wf_heap w →
  is_Some (heap w !! a) → is_Some (heap w !! b) →
  heap w' = <[a := oa]> (<[b := ob]> (heap w)) →
  brk w' = brk w →
  wf_heap w'.
Proof.
  intros Hwf Ha Hb Hheap Hbrk.
  apply (wf_heap_same (set_heap (<[a := oa]>) (set_heap (<[b := ob]>) w))); [| done..].
  apply wf_heap_insert_live.
  - by apply wf_heap_insert_live.
  - simpl. destruct (decide (b = a)) as [-> | Hne].
    + rewrite lookup_insert_eq. eauto.
    + by rewrite lookup_insert_ne.
Qed.

(** [ProcessRecv] takes one message from the stream and no byte more:
    it reports the length and the bytes of the first message, and what
    followed the message is still to be read, in the same order. *)
Theorem ProcessRecv_takes_one_message (moves : bool) (budget : nat) (pContext : Z)
    (w : World) (c : PerSocketContextObject) (bs body rest : list byte)
    (chunks : list (list byte)) (tail : list event) :
  wf_heap w →
  heap w !! pContext = Some (Psco c) →
  bytes_at (RecvBuffer c) w = Some bs →
  Z.of_nat (length bs) = RecvBufferLen c →
  wire w !! fd c = Some ((Data <$> chunks) ++ tail) →
  Forall nonempty chunks →
  concat chunks = message body ++ rest →
  (length chunks ≤ budget)%nat →
  Z.of_nat (length body) < 2 ^ 32 →
  Z.of_nat (length body) ≤ RecvBufferLen c ∨ moves = false →
  ∃ w' c' buf chunks',
    ProcessRecv moves budget pContext w = Ok (true, w') ∧
    heap w' !! pContext = Some (Psco c') ∧
    ReceivedMessageBodyBytes c' = Z.of_nat (length body) ∧
    bytes_at (Message c') w' = Some buf ∧
    take (length body) buf = body ∧
    wire w' !! fd c' = Some ((Data <$> chunks') ++ tail) ∧
    concat chunks' = rest.
Proof.
  intros Hwf Hc Hbs Hcap Hw Hne Hmsg Hbudget Hlt Hfit.
  assert (HRp : RecvBuffer c ≠ pContext).
  { intros Heq. apply bytes_at_Some in Hbs. rewrite Heq in Hbs. congruence. }
  destruct (ProcessRecv_message moves budget pContext w c bs body rest chunks tail)
    as (w' & buf & chunks' & Hrun & Hheap & Htake & _ & Hwire & Hrest & _); try done.
  eexists w', _, buf, chunks'. split; [done |].
  split; [rewrite Hheap; apply lookup_insert_eq |]. simpl.
  split; [done |]. split; [| done].
  apply bytes_at_Some. rewrite Hheap, lookup_insert_ne by done. apply lookup_insert_eq.
Qed.

Lemma ProcessRecv_takes_one_message_witness :
  ∃ w' c' buf chunks',
    ProcessRecv true 4 1
      (arrives 7 ((Data <$> [message hello; message abc]) ++ [Eof]) one_client)
      = Ok (true, w') ∧
    heap w' !! 1 = Some (Psco c') ∧
    ReceivedMessageBodyBytes c' = Z.of_nat (length hello) ∧
    bytes_at (Message c') w' = Some buf ∧
    take (length hello) buf = hello ∧
    wire w' !! fd c' = Some ((Data <$> chunks') ++ [Eof]) ∧
    concat chunks' = message abc.
Proof.
  apply (ProcessRecv_takes_one_message true 4 1 _ (mkPsco 7 2 16 16 0 0 0 false)
           (replicate 16 x00) hello (message abc) [message hello; message abc] [Eof]).
  - apply (bool_decide_unpack _). vm_compute. exact I.
  - vm_compute. reflexivity.
  - vm_compute. reflexivity.
  - reflexivity.
  - vm_compute. reflexivity.
  - repeat apply Forall_cons_2; [| | apply Forall_nil_2]; discriminate.
  - vm_compute. reflexivity.
  - simpl. lia.
  - simpl. lia.
  - left. simpl. lia.
Defined.

(** Two messages that arrive back to back, in whatever pieces, are
    received by two calls of [ProcessRecv], the first message first. *)
Theorem two_messages_in_a_row (m1 m2 : bool) (budget : nat) (pContext : Z) (w : World)
    (c : PerSocketContextObject) (bs body1 body2 : list byte)
    (chunks : list (list byte)) :
  wf_heap w →
  heap w !! pContext = Some (Psco c) →
  bytes_at (RecvBuffer c) w = Some bs →
  Z.of_nat (length bs) = RecvBufferLen c →
  RecvBufferLen c < 2 ^ 32 →
  wire w !! fd c = Some (Data <$> chunks) →
  Forall nonempty chunks →
  concat chunks = message body1 ++ message body2 →
  (length chunks ≤ budget)%nat →
  Z.of_nat (length body1) ≤ RecvBufferLen c →
  Z.of_nat (length body2) ≤ RecvBufferLen c →
  ∃ w1 w2 c1 c2 buf1 buf2,
    ProcessRecv m1 budget pContext w = Ok (true, w1) ∧
    heap w1 !! pContext = Some (Psco c1) ∧
    ReceivedMessageBodyBytes c1 = Z.of_nat (length body1) ∧
    bytes_at (Message c1) w1 = Some buf1 ∧ take (length body1) buf1 = body1 ∧
    ProcessRecv m2 budget pContext w1 = Ok (true, w2) ∧
    heap w2 !! pContext = Some (Psco c2) ∧
    ReceivedMessageBodyBytes c2 = Z.of_nat (length body2) ∧
    bytes_at (Message c2) w2 = Some buf2 ∧ take (length body2) buf2 = body2 ∧
    wire w2 !! fd c = Some [].
Proof.
  intros Hwf Hc Hbs Hcap Hsmall Hw Hne Hmsg Hbudget Hfit1 Hfit2.
  assert (HRp : RecvBuffer c ≠ pContext).
  { intros Heq. apply bytes_at_Some in Hbs. rewrite Heq in Hbs. congruence. }
  destruct (ProcessRecv_message m1 budget pContext w c bs body1 (message body2) chunks [])
    as (w1 & buf1 & chunks1 & Hrun1 & Hheap1 & Htake1 & Hlen1 & Hwire1 & Hrest1 & Hne1
        & Hshort1 & Hbrk1 & _); try done; try lia; try (by left).
  { by rewrite app_nil_r. }
  rewrite Z.max_l in Hheap1, Hlen1 by lia.
  set (c1 := with_ReceivedMessageBodyBytes _ _) in Hheap1.
  assert (Hc1 : heap w1 !! pContext = Some (Psco c1))
    by (rewrite Hheap1; apply lookup_insert_eq).
  assert (Hbs1 : bytes_at (RecvBuffer c) w1 = Some buf1).
  { apply bytes_at_Some. rewrite Hheap1, lookup_insert_ne by done. apply lookup_insert_eq. }
  assert (Hwf1 : wf_heap w1).
  { apply bytes_at_Some in Hbs.
    by apply (wf_heap_two_inserts w w1 pContext (RecvBuffer c) (Psco c1) (Bytes buf1)). }
  assert (Hfd1 : fd c1 = fd c) by done.
  assert (Hcap1 : RecvBufferLen c1 = RecvBufferLen c) by done.
  assert (HR1 : RecvBuffer c1 = RecvBuffer c) by done.
  destruct (ProcessRecv_message m2 budget pContext w1 c1 buf1 body2 [] chunks1 [])
    as (w2 & buf2 & chunks2 & Hrun2 & Hheap2 & Htake2 & _ & Hwire2 & Hrest2 & Hne2 & _).
  { done. } { done. } { by rewrite HR1. } { lia. }
  { by rewrite Hfd1. } { done. } { by rewrite app_nil_r. } { lia. } { lia. }
  { left. lia. }
  rewrite HR1, Hfd1 in *.
  exists w1, w2, c1. eexists. exists buf1, buf2.
  split; [done |]. split; [done |]. split; [done |]. split; [done |]. split; [done |].
  split; [done |]. split; [rewrite Hheap2; apply lookup_insert_eq |].
  split; [done |]. split; [| split; [done |]].
  - apply bytes_at_Some. simpl. rewrite Hheap2, lookup_insert_ne by done.
    apply lookup_insert_eq.
  - rewrite Hwire2. destruct chunks2 as [| xs chunks2]; [done |]. exfalso.
    apply Forall_cons in Hne2 as [Hxs _]. apply Hxs.
    simpl in Hrest2. by apply app_eq_nil in Hrest2 as [-> _].
Qed.

Lemma two_messages_in_a_row_witness :
  ∃ w1 w2 c1 c2 buf1 buf2,
    ProcessRecv true 6 1 (arrives 7 (Data <$> hello_in_pieces ++ [message abc]) one_client)
      = Ok (true, w1) ∧
    heap w1 !! 1 = Some (Psco c1) ∧
    ReceivedMessageBodyBytes c1 = Z.of_nat (length hello) ∧
    bytes_at (Message c1) w1 = Some buf1 ∧ take (length hello) buf1 = hello ∧
    ProcessRecv false 6 1 w1 = Ok (true, w2) ∧
    heap w2 !! 1 = Some (Psco c2) ∧
    ReceivedMessageBodyBytes c2 = Z.of_nat (length abc) ∧
    bytes_at (Message c2) w2 = Some buf2 ∧ take (length abc) buf2 = abc ∧
    wire w2 !! 7 = Some [].
Proof.
  apply (two_messages_in_a_row true false 6 1 _ (mkPsco 7 2 16 16 0 0 0 false)
           (replicate 16 x00) hello abc (hello_in_pieces ++ [message abc])).
  - apply (bool_decide_unpack _). vm_compute. exact I.
  - vm_compute. reflexivity.
  - vm_compute. reflexivity.
  - reflexivity.
  - simpl. lia.
  - vm_compute. reflexivity.
  - repeat apply Forall_cons_2; try apply Forall_nil_2; discriminate.
  - vm_compute. reflexivity.
  - simpl. lia.
  - simpl. lia.
  - simpl. lia.
Defined.



(** ** What a receive changes, and what it leaves alone *)

Lemma sys_read_others d count w :
  armed (sys_read d count w).2 = armed w ∧
  ∀ d', d' ≠ d → wire (sys_read d count w).2 !! d' = wire w !! d'.
Proof.
  unfold sys_read. destruct (wire w !! d) as [[| [bs | | | e] rest] |]; try done.
  - destruct (_ <=? _); (split; [done |]); intros d' Hd'; simpl;
      by rewrite lookup_insert_ne.
  - split; [done |]. intros d' Hd'. simpl. by rewrite lookup_insert_ne.
  - split; [done |]. intros d' Hd'. simpl. by rewrite lookup_insert_ne.
Qed.

Lemma recv_prefix_others budget d body_length p bytes_left w raw w' :
  recv_prefix budget d body_length p bytes_left w = Ok (raw, w') →
  armed w' = armed w ∧ ∀ d', d' ≠ d → wire w' !! d' = wire w !! d'.
Proof.
  revert body_length p bytes_left w.
  induction budget as [| budget IH]; intros body_length p bytes_left w; simpl.
  - destruct (bytes_left >? 0); [done |]. by intros [= <- <-].
  - destruct (bytes_left >? 0); [| by intros [= <- <-]].
    destruct (sys_read d bytes_left w) as [r w1] eqn:Hr.
    intros (bl & _ & Hrec)%bind_Ok. apply IH in Hrec as [-> Hwire].
    pose proof (sys_read_others d bytes_left w) as [Ha Hw]. rewrite Hr in Ha, Hw.
    split; [done |]. intros d' Hd'. rewrite Hwire by done. by apply Hw.
Qed.

Lemma store_bytes_frame b off src w w' :
  store_bytes b off src w = Ok w' →
  psco_map w' = psco_map w ∧ open_fds w' = open_fds w ∧ wire w' = wire w ∧
  armed w' = armed w ∧ brk w' = brk w ∧
  ∀ a, a ≠ b → heap w' !! a = heap w !! a.
Proof.
  unfold store_bytes. destruct src as [| x src]; [by intros [= <-] |].
  destruct (heap w !! b) as [[dst | ] |] eqn:Hb; [| done..].
  destruct (_ && _); [| done]. intros [= <-]. repeat split; try done.
  intros a Ha. simpl. by rewrite lookup_insert_ne.
Qed.

(** Every successful run of [CloseClientConnection]. *)
Lemma CloseClientConnection_Ok pContext lingering w w' :
  CloseClientConnection pContext lingering w = Ok w' →
  ∃ c, heap w !! pContext = Some (Psco c) ∧
       psco_map w' = delete (fd c) (psco_map w) ∧
       open_fds w' = open_fds w ∖ {[fd c]} ∧
       wire w' = delete (fd c) (wire w) ∧ armed w' = armed w ∖ {[fd c]} ∧
       brk w' = brk w ∧
       (pContext ≠ 0 → heap w' !! pContext = None) ∧
       ∀ a, a ≠ pContext → a ≠ RecvBuffer c → heap w' !! a = heap w !! a.
Proof.
  unfold CloseClientConnection. intros (c & Hc%load_psco_Ok & Hfree)%bind_Ok.
  exists c. split; [done |]. unfold FreePerSocketContextObject in Hfree.
  apply bind_Ok in Hfree as (c' & Hc'%load_psco_Ok & Hfree).
  assert (c' = c) as -> by (simpl in Hc'; congruence).
  apply bind_Ok in Hfree as (w1 & Hfree1 & Hfree2).
  apply free_Ok in Hfree1 as [[HR ->] | (HR & _ & ->)];
    apply free_Ok in Hfree2 as [[Hp ->] | (Hp & _ & ->)]; simpl;
    repeat split; try done.
  all: try (intros _; apply lookup_delete_eq).
  all: intros a Hap HaR; by rewrite ?lookup_delete_ne by done.
Qed.

(** The second loop, whatever the stream: it writes into [buf] only,
    and either leaves the connection as it is or closes it. *)
Lemma recv_body_effects budget pContext d buf c2 :
  ∀ p bytes_left w full w',
    fd c2 = d →
    heap w !! pContext = Some (Psco c2) →
    recv_body budget pContext d buf p bytes_left w = Ok (full, w') →
    (∀ a, a ≠ pContext → a ≠ buf → a ≠ RecvBuffer c2 → heap w' !! a = heap w !! a) ∧
    (∀ d', d' ≠ d → wire w' !! d' = wire w !! d') ∧
    if full then psco_map w' = psco_map w ∧ open_fds w' = open_fds w ∧
                 armed w' = armed w ∧
                 heap w' !! pContext = Some (Psco c2)
    else psco_map w' = delete (fd c2) (psco_map w) ∧
         open_fds w' = open_fds w ∖ {[fd c2]} ∧
         armed w' = armed w ∖ {[fd c2]} ∧
         (pContext ≠ 0 → heap w' !! pContext = None).
Proof.
  induction budget as [| budget IH]; intros p bytes_left w full w' Hfd Hc; simpl.
  - destruct (bytes_left >? 0); [done |]. by intros [= <- <-].
  - destruct (bytes_left >? 0); [| by intros [= <- <-]].
    destruct (sys_read d bytes_left w) as [r w1] eqn:Hr.
    pose proof (sys_read_heap d bytes_left w) as (Hh & _ & Hm & Hf).
    pose proof (sys_read_others d bytes_left w) as (Ha & Hw).
    rewrite Hr in Hh, Hm, Hf, Ha, Hw. simpl in Hh, Hm, Hf, Ha, Hw.
    intros (w2 & Hst & H)%bind_Ok.
    pose proof (store_bytes_frame _ _ _ _ _ Hst) as (Hm2 & Hf2 & Hw2 & Ha2 & _ & Hh2).
    assert (Hc2 : heap w2 !! pContext = Some (Psco c2)).
    { apply (store_bytes_contexts _ _ _ _ _ Hst). by rewrite Hh. }
    destruct (_ || _).
    + apply bind_Ok in H as (w3 & Hclose & [= <- <-]).
      apply CloseClientConnection_Ok in Hclose
        as (c' & Hc' & Hm3 & Hf3 & Hw3 & Ha3 & _ & Hgone & Hh3).
      assert (c' = c2) as -> by congruence.
      split; [| split].
      * intros a Hap Hab HaR. rewrite Hh3, Hh2, Hh by done. done.
      * intros d' Hd'. rewrite Hw3, lookup_delete_ne, Hw2 by congruence. by apply Hw.
      * rewrite Hm3, Hf3, Ha3, Hm2, Hf2, Ha2, Hm, Hf, Ha. done.
    + apply IH in H as (Hh3 & Hw3 & Hfull); [| done | done].
      split; [| split].
      * intros a Hap Hab HaR. rewrite Hh3, Hh2, Hh by done. done.
      * intros d' Hd'. rewrite Hw3, Hw2 by done. by apply Hw.
      * rewrite Hm2, Hf2, Ha2, Hm, Hf, Ha in Hfull. done.
Qed.

(** [ProcessRecv], whatever the stream. *)
Lemma ProcessRecv_effects moves budget pContext w c full w' :
  heap w !! pContext = Some (Psco c) →
  ProcessRecv moves budget pContext w = Ok (full, w') →
  (∀ a, a ≠ pContext → a ≠ RecvBuffer c → a ≠ brk w → heap w' !! a = heap w !! a) ∧
  (∀ d', d' ≠ fd c → wire w' !! d' = wire w !! d') ∧
  if full then psco_map w' = psco_map w ∧ open_fds w' = open_fds w ∧
               armed w' = armed w ∧
               is_context w' pContext
  else psco_map w' = delete (fd c) (psco_map w) ∧
       open_fds w' = open_fds w ∖ {[fd c]} ∧
       armed w' = armed w ∖ {[fd c]} ∧
       (pContext ≠ 0 → heap w' !! pContext = None).
Proof.
  intros Hc (c0 & raw & w1 & w2 & w3 & Hc0 & Hpre & Hsz & Hbody & Hend)%ProcessRecv_Ok.
  assert (c0 = c) as -> by congruence.
  pose proof (recv_prefix_heap _ _ _ _ _ _ _ _ Hpre) as (Hh1 & Hb1 & Hm1 & Hf1).
  pose proof (recv_prefix_others _ _ _ _ _ _ _ _ Hpre) as (Ha1 & Hw1).
  (* the sizing step *)
  assert (∃ c2, heap w2 !! pContext = Some (Psco c2) ∧ fd c2 = fd c ∧
                (RecvBuffer c2 = RecvBuffer c ∨ RecvBuffer c2 = brk w) ∧
                psco_map w2 = psco_map w1 ∧ open_fds w2 = open_fds w1 ∧
                wire w2 = wire w1 ∧ armed w2 = armed w1 ∧
                ∀ a, a ≠ pContext → a ≠ RecvBuffer c → a ≠ brk w →
                     heap w2 !! a = heap w1 !! a)
    as (c2 & Hc2 & Hfd2 & HR2 & Hm2 & Hf2 & Hw2 & Ha2 & Hh2).
  { apply ensure_capacity_Ok in Hsz as (c1 & Hc1 & Hsz).
    assert (c1 = c) as -> by (rewrite Hh1 in Hc1; congruence).
    destruct (le_decode raw >? RecvBufferLen c).
    - destruct Hsz as (q & w1' & Hre & _ & ->). eexists.
      split; [rewrite heap_set_heap; apply lookup_insert_eq |]. split; [done |].
      unfold realloc in Hre. destruct (RecvBuffer c =? 0) eqn:HR0.
      + injection Hre as <- <-. simpl. split; [right; congruence |].
        repeat split; try done. intros a Hap HaR Hab.
        rewrite lookup_insert_ne by done. rewrite lookup_insert_ne by congruence. done.
      + destruct (heap w1 !! RecvBuffer c) as [[bs |] |]; [| done..].
        destruct moves; injection Hre as <- <-; simpl.
        * split; [right; congruence |]. repeat split; try done. intros a Hap HaR Hab.
          rewrite lookup_insert_ne by done. rewrite lookup_insert_ne by congruence.
          by rewrite lookup_delete_ne.
        * split; [by left |]. repeat split; try done. intros a Hap HaR Hab.
          by rewrite !lookup_insert_ne by done.
    - subst w2. exists c. rewrite Hh1. repeat split; try done. by left. }
  apply (recv_body_effects _ _ _ _ c2) in Hbody as (Hh3 & Hw3 & Hfull); [| done | done].
  assert (Hframe3 : ∀ a, a ≠ pContext → a ≠ RecvBuffer c → a ≠ brk w →
                         heap w3 !! a = heap w !! a).
  { intros a Hap HaR Hab. rewrite Hh3, Hh2, Hh1; try done.
    destruct HR2 as [-> | ->]; done. }
  assert (Hwire3 : ∀ d', d' ≠ fd c → wire w3 !! d' = wire w !! d').
  { intros d' Hd'. rewrite Hw3, Hw2 by done. by apply Hw1. }
  destruct full.
  - destruct Hend as (c3 & Hc3 & ->). destruct Hfull as (Hm3 & Hf3 & Ha3 & _).
    split; [| split; [done |]].
    + intros a Hap HaR Hab. simpl. rewrite lookup_insert_ne by done. by apply Hframe3.
    + simpl. split; [congruence |]. split; [congruence |]. split; [congruence |].
      eexists. apply lookup_insert_eq.
  - subst w'. destruct Hfull as (Hm3 & Hf3 & Ha3 & Hgone).
    split; [done |]. split; [done |].
    rewrite Hm3, Hf3, Ha3, Hfd2, Hm2, Hf2, Ha2, Hm1, Hf1, Ha1. done.
Qed.

(** When [ProcessRecv] answers [true] the registry and the open
    descriptors are unchanged and the context is still there; when it
    answers [false] the connection has been closed: its descriptor is out
    of the registry and closed, and its context is released.  There is no
    third outcome in which [ProcessRecv] returns. *)
Theorem ProcessRecv_keeps_or_closes (moves : bool) (budget : nat) (pContext : Z)
    (w w' : World) (c : PerSocketContextObject) (full : bool) :
  wf_heap w →
  heap w !! pContext = Some (Psco c) →
  ProcessRecv moves budget pContext w = Ok (full, w') →
  if full then psco_map w' = psco_map w ∧ open_fds w' = open_fds w ∧
               is_context w' pContext
  else psco_map w' = delete (fd c) (psco_map w) ∧
       open_fds w' = open_fds w ∖ {[fd c]} ∧
       heap w' !! pContext = None.
Proof.
  intros Hwf Hc Hrun.
  apply (ProcessRecv_effects _ _ _ _ c) in Hrun as (_ & _ & Hout); [| done].
  destruct full; [by destruct Hout as (? & ? & _ & ?) |].
  destruct Hout as (Hm & Hf & _ & Hgone).
  split; [done |]. split; [done |]. apply Hgone.
  apply (wf_heap_positive _ _ _ Hwf) in Hc. lia.
Qed.

(** A receive on one connection that keeps to live memory (the model
    gives a result only then) changes no memory but the context and the
    buffer of that connection and the block [realloc] may hand out, takes
    no input from another descriptor, and changes for no other descriptor
    its entry in the registry, whether it is open, or its registration
    with the event monitor. *)
Theorem ProcessRecv_touches_own_connection (moves : bool) (budget : nat) (pContext : Z)
    (w w' : World) (c : PerSocketContextObject) (full : bool) :
  heap w !! pContext = Some (Psco c) →
  ProcessRecv moves budget pContext w = Ok (full, w') →
  (∀ a, a ≠ pContext → a ≠ RecvBuffer c → a ≠ brk w → heap w' !! a = heap w !! a) ∧
  (∀ d', d' ≠ fd c → wire w' !! d' = wire w !! d') ∧
  (∀ d', d' ≠ fd c → psco_map w' !! d' = psco_map w !! d') ∧
  (∀ d', d' ≠ fd c → d' ∈ open_fds w' ↔ d' ∈ open_fds w) ∧
  (∀ d', d' ≠ fd c → d' ∈ armed w' ↔ d' ∈ armed w) ∧
  (full = true → armed w' = armed w).
Proof.
  intros Hc Hrun.
  apply (ProcessRecv_effects _ _ _ _ c) in Hrun as (Hh & Hw & Hout); [| done].
  split; [done |]. split; [done |]. destruct full.
  - destruct Hout as (-> & -> & -> & _). done.
  - destruct Hout as (-> & -> & -> & _). split; [| split; [| split; [| done]]].
    + intros d' Hd'. by rewrite lookup_delete_ne.
    + intros d' Hd'. rewrite elem_of_difference, elem_of_singleton. tauto.
    + intros d' Hd'. rewrite elem_of_difference, elem_of_singleton. tauto.
Qed.

Lemma ProcessRecv_keeps_or_closes_witness :
  psco_map received_hello = psco_map (arrives 7 [Data (message hello)] one_client) ∧
  open_fds received_hello = open_fds (arrives 7 [Data (message hello)] one_client) ∧
  is_context received_hello 1.
Proof.
  apply (ProcessRecv_keeps_or_closes true 4 1
           (arrives 7 [Data (message hello)] one_client) received_hello
           (mkPsco 7 2 16 16 0 0 0 false) true).
  - apply (bool_decide_unpack _). vm_compute. exact I.
  - vm_compute. reflexivity.
  - vm_compute. reflexivity.
Defined.

Lemma ProcessRecv_touches_own_connection_witness :
  (∀ a, a ≠ 1 → a ≠ 2 → a ≠ brk (arrives 7 [Data (message hello)] one_client) →
        heap received_hello !! a = heap (arrives 7 [Data (message hello)] one_client) !! a) ∧
  (∀ d', d' ≠ 7 →
         wire received_hello !! d' = wire (arrives 7 [Data (message hello)] one_client) !! d') ∧
  (∀ d', d' ≠ 7 →
         psco_map received_hello !! d'
         = psco_map (arrives 7 [Data (message hello)] one_client) !! d') ∧
  (∀ d', d' ≠ 7 →
         d' ∈ open_fds received_hello
         ↔ d' ∈ open_fds (arrives 7 [Data (message hello)] one_client)) ∧
  (∀ d', d' ≠ 7 →
         d' ∈ armed received_hello
         ↔ d' ∈ armed (arrives 7 [Data (message hello)] one_client)) ∧
  (true = true →
   armed received_hello = armed (arrives 7 [Data (message hello)] one_client)).
Proof.
  apply (ProcessRecv_touches_own_connection true 4 1
           (arrives 7 [Data (message hello)] one_client) received_hello
           (mkPsco 7 2 16 16 0 0 0 false) true).
  - vm_compute. reflexivity.
  - vm_compute. reflexivity.
Defined.

(** ** The running average over whole runs *)

Section Average.
Context {K : ProtocolConstants}.

Lemma averages_ok_kept w w' :
  averages_ok w → contexts_kept w w' → averages_ok w'.
Proof. intros Hok Hk q c Hq. apply (Hok q). by apply Hk. Qed.

Lemma averages_ok_same_heap w w' :
  averages_ok w → heap w' = heap w → averages_ok w'.
Proof. intros Hok Hh q c. rewrite Hh. apply Hok. Qed.

Lemma averages_ok_insert p c w :
  averages_ok w → RecvBufferSize ≤ avg_RecvBufferLen c →
  averages_ok (set_heap (<[p := Psco c]>) w).
Proof.
  intros Hok Hc q c'. rewrite heap_set_heap.
  destruct (decide (p = q)) as [<- | Hne].
  - rewrite lookup_insert_eq. by intros [= <-].
  - rewrite lookup_insert_ne by done. apply Hok.
Qed.

Lemma ProcessRecv_averages moves budget p w full w' :
  averages_ok w → ProcessRecv moves budget p w = Ok (full, w') → averages_ok w'.
Proof.
  intros Hok (c & raw & w1 & w2 & w3 & Hc & Hpre & Hsz & Hbody & H)%ProcessRecv_Ok.
  apply recv_prefix_heap in Hpre as (Hh1 & _).
  assert (Hok1 : averages_ok w1) by by eapply averages_ok_same_heap.
  assert (Hok2 : averages_ok w2).
  { apply ensure_capacity_Ok in Hsz as (c1 & Hc1 & Hsz).
    destruct (le_decode raw >? RecvBufferLen c1); [| by subst].
    destruct Hsz as (q & w1' & Hre & _ & ->). apply averages_ok_insert.
    - eapply averages_ok_kept; [done |]. by eapply realloc_contexts_kept.
    - simpl. by apply Hok1 in Hc1. }
  apply recv_body_contexts in Hbody as (Hk & _).
  assert (Hok3 : averages_ok w3) by by eapply averages_ok_kept.
  destruct full; [| by subst].
  destruct H as (c3 & Hc3 & ->). apply averages_ok_insert; [done |].
  simpl. by apply Hok3 in Hc3.
Qed.

Lemma ResetContextObjects_averages p w w' :
  averages_ok w → ResetContextObjects p w = Ok w' → averages_ok w'.
Proof.
  intros Hok (c0 & w1 & c & v & Hc0 & Hfree & Hc & Hv & H)%ResetContextObjects_Ok.
  assert (Hok1 : averages_ok w1).
  { eapply averages_ok_kept; [done |]. by eapply free_contexts_kept. }
  destruct (below_ratio _ _).
  - destruct H as (w2 & Hfree2 & Hc2 & ->).
    apply averages_ok_insert; [| simpl; lia].
    eapply averages_ok_kept; [| apply alloc_bytes_contexts_kept].
    apply averages_ok_insert; [| simpl; lia].
    eapply averages_ok_kept; [| by eapply free_contexts_kept].
    apply averages_ok_insert; [done | simpl; lia].
  - subst w'. apply averages_ok_insert; [done | simpl; lia].
Qed.

Lemma SocketAcceptThreadProc_averages accepts w returned w' :
  averages_ok w → SocketAcceptThreadProc accepts w = Ok (returned, w') → averages_ok w'.
Proof.
  revert w. induction accepts as [| [s e] rest IH]; intros w Hok.
  { by intros [= <- <-]. }
  rewrite SocketAcceptThreadProc_cons.
  destruct (s =? -1).
  { destruct (e =? EINVAL); [by intros [= <- <-] | by apply IH]. }
  cbv zeta. rewrite AllocatePerSocketContextObject_eq. cbn [fst snd].
  intros (w2 & Hadd & (w3 & Hmon & Hrest)%bind_Ok)%bind_Ok.
  apply (IH w3); [| done].
  unfold AddPerSocketContextObject in Hadd.
  apply bind_Ok in Hadd as (c & _ & [= <-]).
  unfold EnterEventMonitor in Hmon.
  apply bind_Ok in Hmon as (c' & _ & [= <-]).
  intros q c''. simpl.
  destruct (decide (brk w = q)) as [<- | Hne].
  - rewrite lookup_insert_eq. intros [= <-]. simpl. lia.
  - rewrite lookup_insert_ne by done.
    destruct (decide (brk w + 1 = q)) as [<- | Hne'].
    + by rewrite lookup_insert_eq.
    + rewrite lookup_insert_ne by done. rewrite lookup_insert_ne by done. apply Hok.
Qed.

Lemma run_call_averages k w w' :
  averages_ok w → run_call k w = Ok w' → averages_ok w'.
Proof.
  intros Hok. destruct k as [d | d evs | moves budget p | p resp | r p | p | p l];
    unfold run_call.
  - intros ([returned w1] & Haccept & [= <-])%bind_Ok.
    by eapply SocketAcceptThreadProc_averages.
  - destruct (bool_decide _); intros [= <-]; [| done]. by eapply averages_ok_same_heap.
  - intros ([full w1] & Hrecv & [= <-])%bind_Ok. by eapply ProcessRecv_averages.
  - intros (c & Hc & ->)%assign_Ok. simpl in Hc.
    apply averages_ok_insert.
    + eapply averages_ok_kept; [done | apply alloc_bytes_contexts_kept].
    + simpl. apply (alloc_bytes_contexts_kept resp w) in Hc. by apply Hok in Hc.
  - unfold SendResponse. intros (c & _ & (c' & _ & H)%bind_Ok)%bind_Ok. simpl in H.
    eapply ResetContextObjects_averages; [| exact H].
    by eapply averages_ok_same_heap.
  - by apply ResetContextObjects_averages.
  - intros [Hk _]%CloseClientConnection_contexts_kept. by eapply averages_ok_kept.
Qed.

(** Whatever the workers and the environment do, the running average of
    every live context stays at or above [RecvBufferSize]. *)
Theorem average_never_below_RecvBufferSize (ks : list call) (w w' : World) :
  averages_ok w →
  run_calls ks w = Ok w' →
  averages_ok w'.
Proof.
  revert w. induction ks as [| k ks IH]; intros w Hok; simpl.
  - by intros [= <-].
  - intros (w1 & Hk & Hks)%bind_Ok. apply (IH w1); [| done].
    by eapply run_call_averages.
Qed.
End Average.

Lemma average_never_below_RecvBufferSize_witness :
  averages_ok (H := small) (after_dialogue 40).
Proof.
  apply (average_never_below_RecvBufferSize (K := small) (dialogue 40) boot (after_dialogue 40)).
  - intros q c Hq. simpl in Hq. by rewrite lookup_empty in Hq.
  - vm_compute. reflexivity.
Defined.

(** ** The registry and the heap over whole runs *)

Lemma no_new_contexts_refl w : no_new_contexts w w.
Proof. split; [lia | done]. Qed.

Lemma no_new_contexts_trans w1 w2 w3 :
  no_new_contexts w1 w2 → no_new_contexts w2 w3 → no_new_contexts w1 w3.
Proof. intros [Hb1 Hc1] [Hb2 Hc2]. split; [lia | auto]. Qed.

Lemma contexts_kept_no_new w w' :
  brk w ≤ brk w' → contexts_kept w w' → no_new_contexts w w'.
Proof. intros Hb Hk. split; [done |]. intros q [c Hq]. exists c. by apply Hk. Qed.

Lemma plain_pointer_mono w w' x :
  plain_pointer w x → no_new_contexts w w' → plain_pointer w' x.
Proof. intros [Hx Hn] [Hb Hc]. split; [lia |]. intros Hq. by apply Hn, Hc. Qed.

Lemma plain_pointer_bytes w x bs :
  wf_heap w → heap w !! x = Some (Bytes bs) → plain_pointer w x.
Proof.
  intros Hwf Hx. split.
  - apply (wf_heap_positive _ _ _ Hwf) in Hx. lia.
  - intros [c Hc]. congruence.
Qed.

Lemma plain_pointer_null w : wf_heap w → plain_pointer w 0.
Proof.
  intros Hwf. split; [apply Hwf |]. intros [c Hc].
  apply (wf_heap_positive _ _ _ Hwf) in Hc. lia.
Qed.

(** A step that keeps the contexts and the registry keeps consistency. *)
Lemma consistent_step w w' :
  consistent w →
  wf_heap w' → brk w ≤ brk w' → psco_map w' = psco_map w →
  (∀ q c, heap w' !! q = Some (Psco c) ↔ heap w !! q = Some (Psco c)) →
  consistent w'.
Proof.
  intros (Hwf & Hbuf & Hreg) Hwf' Hb Hm Hctx. split; [done |]. split.
  - intros q c Hq. apply Hctx in Hq. destruct (Hbuf q c Hq) as [HR HM].
    assert (Hnew : no_new_contexts w w').
    { split; [done |]. intros a [ca Ha]. exists ca. by apply Hctx. }
    split; eapply plain_pointer_mono; eauto.
  - intros d p Hd. rewrite Hm in Hd.
    destruct (Hreg d p Hd) as [-> | (c & Hc & Hfd)]; [by left | right].
    exists c. split; [by apply Hctx | done].
Qed.

(** An assignment to a context that keeps its descriptor and stores
    plain pointers keeps consistency. *)
Lemma consistent_assign w p c c' :
  consistent w →
  heap w !! p = Some (Psco c) →
  fd c' = fd c →
  plain_pointer w (RecvBuffer c') → plain_pointer w (Message c') →
  consistent (set_heap (<[p := Psco c']>) w).
Proof.
  intros (Hwf & Hbuf & Hreg) Hc Hfd HR HM.
  assert (Hnew : no_new_contexts w (set_heap (<[p := Psco c']>) w)).
  { split; [simpl; lia |]. intros a [ca Ha]. simpl in Ha.
    destruct (decide (p = a)) as [<- | Hne]; [by exists c |].
    rewrite lookup_insert_ne in Ha by done. by exists ca. }
  split; [apply wf_heap_insert_live; eauto |]. split.
  - intros q cq Hq. simpl in Hq. destruct (decide (p = q)) as [<- | Hne].
    + rewrite lookup_insert_eq in Hq. injection Hq as <-.
      split; eapply plain_pointer_mono; eauto.
    + rewrite lookup_insert_ne in Hq by done. destruct (Hbuf q cq Hq).
      split; eapply plain_pointer_mono; eauto.
  - intros d q Hd. simpl in Hd.
    destruct (Hreg d q Hd) as [-> | (cq & Hq & Hfdq)]; [by left | right].
    simpl. destruct (decide (p = q)) as [<- | Hne].
    + exists c'. rewrite lookup_insert_eq. split; [done | congruence].
    + exists cq. by rewrite lookup_insert_ne.
Qed.

Lemma wf_heap_delete w x : wf_heap w → wf_heap (set_heap (delete x) w).
Proof.
  intros [Hb Hwf]. split; [done |]. intros a o Ha. simpl in Ha.
  apply lookup_delete_Some in Ha as [_ Ha]. by apply Hwf in Ha.
Qed.

Lemma wf_heap_alloc w o : wf_heap w → wf_heap (alloc o w).2.
Proof.
  intros [Hb Hwf]. split; [simpl; lia |]. intros a o' Ha. simpl in *.
  apply lookup_insert_Some in Ha as [[<- _] | [_ Ha]]; [lia |].
  apply Hwf in Ha. lia.
Qed.

Lemma buffers_ok_step w w' :
  buffers_ok w → brk w ≤ brk w' → contexts_kept w w' → buffers_ok w'.
Proof.
  intros Hbuf Hb Hk q c Hq. destruct (Hbuf q c (Hk q c Hq)).
  pose proof (contexts_kept_no_new w w' Hb Hk).
  split; eapply plain_pointer_mono; eauto.
Qed.

(** [free] of a pointer that is not a context. *)
Lemma free_plain x w w' :
  wf_heap w → buffers_ok w → ¬ is_context w x → free x w = Ok w' →
  wf_heap w' ∧ buffers_ok w' ∧ brk w' = brk w ∧ psco_map w' = psco_map w ∧
  ∀ q c, heap w' !! q = Some (Psco c) ↔ heap w !! q = Some (Psco c).
Proof.
  intros Hwf Hbuf Hx Hfree. apply free_Ok in Hfree as [[_ ->] | (_ & _ & ->)]; [done |].
  assert (Hctx : ∀ q c, heap (set_heap (delete x) w) !! q = Some (Psco c)
                        ↔ heap w !! q = Some (Psco c)).
  { intros q c. simpl. destruct (decide (x = q)) as [<- | Hne].
    - rewrite lookup_delete_eq. split; [done |]. intros Hq. destruct Hx. by exists c.
    - by rewrite lookup_delete_ne. }
  split; [by apply wf_heap_delete |]. split; [| done].
  apply (buffers_ok_step w); [done | simpl; lia |]. intros q c Hq. by apply Hctx.
Qed.

Lemma free_consistent x w w' :
  consistent w → plain_pointer w x → free x w = Ok w' →
  consistent w' ∧ no_new_contexts w w'.
Proof.
  intros Hcons [_ Hx] Hfree. pose proof Hcons as (Hwf & Hbuf & _).
  destruct (free_plain x w w' Hwf Hbuf Hx Hfree) as (Hwf' & _ & Hb & Hm & Hctx).
  split.
  - apply (consistent_step w _ Hcons); [done | lia | done | done].
  - split; [lia |]. intros q [c Hq]. exists c. by apply Hctx.
Qed.

(** A fresh byte array. *)
Lemma alloc_bytes_consistent bs w :
  consistent w →
  consistent (alloc (Bytes bs) w).2 ∧ no_new_contexts w (alloc (Bytes bs) w).2 ∧
  plain_pointer (alloc (Bytes bs) w).2 (brk w).
Proof.
  intros Hcons. pose proof Hcons as (Hwf & _).
  assert (Hfresh : heap w !! brk w = None) by (apply wf_heap_fresh; [done | lia]).
  assert (Hctx : ∀ q c, heap (alloc (Bytes bs) w).2 !! q = Some (Psco c)
                        ↔ heap w !! q = Some (Psco c)).
  { intros q c. simpl. destruct (decide (brk w = q)) as [<- | Hne].
    - rewrite lookup_insert_eq, Hfresh. split; intros; congruence.
    - by rewrite lookup_insert_ne. }
  split; [| split].
  - apply (consistent_step w _ Hcons);
      [by apply wf_heap_alloc | simpl; lia | done | done].
  - split; [simpl; lia |]. intros q [c Hq]. exists c. by apply Hctx.
  - split; [simpl; lia |]. intros [c Hc]. simpl in Hc.
    rewrite lookup_insert_eq in Hc. congruence.
Qed.

(** [realloc] of a plain pointer. *)
Lemma realloc_consistent moves x n w q w' :
  consistent w → realloc moves x n w = Ok (q, w') →
  consistent w' ∧ no_new_contexts w w' ∧ plain_pointer w' q.
Proof.
  intros Hcons. unfold realloc. destruct (x =? 0).
  { intros [= <- <-]. apply (alloc_bytes_consistent _ w Hcons). }
  destruct (heap w !! x) as [[bs |] |] eqn:Hx; [| done..].
  pose proof Hcons as (Hwf & _).
  destruct moves; intros [= <- <-].
  - destruct (free_consistent x w (set_heap (delete x) w) Hcons) as [Hc1 Hn1].
    { by eapply plain_pointer_bytes. }
    { apply free_live; [| eauto]. apply (wf_heap_positive _ _ _ Hwf) in Hx. lia. }
    destruct (alloc_bytes_consistent (resize (Z.to_nat n) x00 bs) _ Hc1)
      as (Hc2 & Hn2 & Hp2).
    split; [done |]. split; [by eapply no_new_contexts_trans | done].
  - assert (Hctx : ∀ a c, heap (set_heap (<[x := Bytes (resize (Z.to_nat n) x00 bs)]>) w)
                             !! a = Some (Psco c) ↔ heap w !! a = Some (Psco c)).
    { intros a c. simpl. destruct (decide (x = a)) as [<- | Hne].
      - rewrite lookup_insert_eq, Hx. split; intros; congruence.
      - by rewrite lookup_insert_ne. }
    assert (Hwf' : wf_heap (set_heap (<[x := Bytes (resize (Z.to_nat n) x00 bs)]>) w))
      by (apply wf_heap_insert_live; eauto).
    split; [| split].
    + apply (consistent_step w _ Hcons); [done | simpl; lia | done | done].
    + split; [simpl; lia |]. intros a [c Ha]. exists c. by apply Hctx.
    + eapply plain_pointer_bytes; [done |]. simpl. apply lookup_insert_eq.
Qed.

Lemma store_bytes_consistent b off src w w' :
  consistent w → store_bytes b off src w = Ok w' →
  consistent w' ∧ no_new_contexts w w'.
Proof.
  intros Hcons Hst.
  pose proof (store_bytes_contexts _ _ _ _ _ Hst) as Hctx.
  pose proof (store_bytes_frame _ _ _ _ _ Hst) as (Hm & _ & _ & _ & Hb & _).
  split.
  - apply (consistent_step w _ Hcons); [| lia | done | done].
    unfold store_bytes in Hst. destruct src as [| y src]; [injection Hst as <-; apply Hcons |].
    destruct (heap w !! b) as [[dst |] |] eqn:Hl; [| done..].
    destruct (_ && _); [| done]. injection Hst as <-.
    apply wf_heap_insert_live; [apply Hcons | eauto].
  - split; [lia |]. intros q [c Hq]. exists c. by apply Hctx.
Qed.

(** Closing keeps consistency: the entry of the descriptor goes before
    the context does. *)
Lemma CloseClientConnection_consistent pContext lingering w w' :
  consistent w → CloseClientConnection pContext lingering w = Ok w' →
  consistent w' ∧ no_new_contexts w w'.
Proof.
  intros Hcons Hclose. pose proof Hcons as (Hwf & Hbuf & Hreg).
  unfold CloseClientConnection in Hclose.
  apply bind_Ok in Hclose as (c & Hc%load_psco_Ok & Hfree).
  unfold FreePerSocketContextObject in Hfree.
  apply bind_Ok in Hfree as (c' & Hc'%load_psco_Ok & Hfree).
  assert (c' = c) as -> by (simpl in Hc'; congruence).
  apply bind_Ok in Hfree as (w1 & Hfree1 & Hfree2).
  set (w0 := sys_close (fd c) (RemovePerSocketContextObject (fd c) w)) in *.
  assert (Hreg0 : ∀ d q, psco_map w0 !! d = Some q →
                         q = 0 ∨ q ≠ pContext ∧
                                 ∃ cq, heap w !! q = Some (Psco cq) ∧ fd cq = d).
  { intros d q Hd. simpl in Hd. apply lookup_delete_Some in Hd as [Hne Hd].
    destruct (Hreg d q Hd) as [-> | (cq & Hq & Hfd)]; [by left | right].
    split; [| eauto]. intros ->. congruence. }
  destruct (Hbuf _ _ Hc) as [[_ HR] _].
  destruct (free_plain (RecvBuffer c) w0 w1) as (Hwf1 & Hbuf1 & Hb1 & Hm1 & Hctx1);
    [exact Hwf | exact Hbuf | exact HR | exact Hfree1 |].
  change (heap w0) with (heap w) in Hctx1. change (brk w0) with (brk w) in Hb1.
  apply free_Ok in Hfree2 as [[Hp0 _] | (_ & _ & ->)].
  { apply (wf_heap_positive _ _ _ Hwf) in Hc. lia. }
  assert (Hkept : contexts_kept w1 (set_heap (delete pContext) w1)).
  { intros q cq Hq. simpl in Hq. by apply lookup_delete_Some in Hq as [_ Hq]. }
  split.
  - split; [by apply wf_heap_delete |]. split.
    + apply (buffers_ok_step w1); [done | simpl; lia | done].
    + intros d q Hd. simpl in Hd. rewrite Hm1 in Hd.
      destruct (Hreg0 d q Hd) as [-> | (Hne & cq & Hq & Hfd)]; [by left | right].
      exists cq. split; [| done]. simpl. rewrite lookup_delete_ne by done.
      by apply Hctx1.
  - split; [simpl; lia |]. intros q [cq Hq]. exists cq.
    apply Hkept in Hq. by apply Hctx1.
Qed.

(** A state that differs in the sockets only. *)
Lemma consistent_same w w' :
  consistent w → heap w' = heap w → brk w' = brk w → psco_map w' = psco_map w →
  consistent w' ∧ no_new_contexts w w'.
Proof.
  intros Hcons Hh Hb Hm. split.
  - apply (consistent_step w _ Hcons); [| lia | done | by rewrite Hh].
    by apply (wf_heap_same w); [apply Hcons | |].
  - split; [lia |]. intros q [c Hq]. exists c. by rewrite <- Hh.
Qed.

Lemma consistent_assign_step w p c c' :
  consistent w →
  heap w !! p = Some (Psco c) →
  fd c' = fd c →
  plain_pointer w (RecvBuffer c') → plain_pointer w (Message c') →
  consistent (set_heap (<[p := Psco c']>) w) ∧
  no_new_contexts w (set_heap (<[p := Psco c']>) w).
Proof.
  intros Hcons Hc Hfd HR HM. split; [by eapply consistent_assign |].
  split; [simpl; lia |]. intros a [ca Ha]. simpl in Ha.
  destruct (decide (p = a)) as [<- | Hne]; [by exists c |].
  rewrite lookup_insert_ne in Ha by done. by exists ca.
Qed.

Section Runs.
Context {K : ProtocolConstants}.

Lemma ensure_capacity_consistent moves pContext body_length w w' :
  consistent w → ensure_capacity moves pContext body_length w = Ok w' →
  consistent w' ∧ no_new_contexts w w'.
Proof.
  intros Hcons (c & Hc & H)%ensure_capacity_Ok.
  destruct (body_length >? RecvBufferLen c);
    [| subst w'; split; [done | apply no_new_contexts_refl]].
  destruct H as (q & w1 & Hre & Hc1 & ->).
  destruct (realloc_consistent _ _ _ _ _ _ Hcons Hre) as (Hcons1 & Hn1 & Hq).
  destruct (consistent_assign_step w1 pContext c
              (with_RecvBufferLen body_length (with_RecvBuffer q c)) Hcons1 Hc1)
    as [Hcons2 Hn2]; [done | done | |].
  - simpl. apply (proj1 Hcons1) in Hc1 as Hb. by destruct (proj1 (proj2 Hcons1) _ _ Hc1).
  - split; [done | by eapply no_new_contexts_trans].
Qed.

Lemma recv_body_consistent budget pContext d buf p bytes_left w full w' :
  consistent w →
  recv_body budget pContext d buf p bytes_left w = Ok (full, w') →
  consistent w' ∧ no_new_contexts w w'.
Proof.
  revert p bytes_left w.
  induction budget as [| budget IH]; intros p bytes_left w Hcons; simpl.
  - destruct (bytes_left >? 0); [done |]. intros [= <- <-].
    split; [done | apply no_new_contexts_refl].
  - destruct (bytes_left >? 0);
      [| intros [= <- <-]; split; [done | apply no_new_contexts_refl]].
    destruct (sys_read d bytes_left w) as [r w0] eqn:Hrd.
    pose proof (sys_read_heap d bytes_left w) as (Hh & Hb & Hm & _).
    rewrite Hrd in Hh, Hb, Hm. simpl in Hh, Hb, Hm.
    destruct (consistent_same w w0 Hcons Hh Hb Hm) as [Hcons0 Hn0].
    intros (w1 & Hst & H)%bind_Ok.
    destruct (store_bytes_consistent _ _ _ _ _ Hcons0 Hst) as [Hcons1 Hn1].
    destruct (_ || _).
    + apply bind_Ok in H as (w2 & Hclose & [= <- <-]).
      destruct (CloseClientConnection_consistent _ _ _ _ Hcons1 Hclose) as [Hcons2 Hn2].
      split; [done |]. eauto using no_new_contexts_trans.
    + destruct (IH _ _ _ Hcons1 H) as [Hcons2 Hn2].
      split; [done |]. eauto using no_new_contexts_trans.
Qed.

Lemma ProcessRecv_consistent moves budget pContext w full w' :
  consistent w → ProcessRecv moves budget pContext w = Ok (full, w') →
  consistent w'.
Proof.
  intros Hcons (c & raw & w1 & w2 & w3 & Hc & Hpre & Hcap & Hbody & H)%ProcessRecv_Ok.
  pose proof (recv_prefix_heap _ _ _ _ _ _ _ _ Hpre) as (Hh & Hb & Hm & _).
  destruct (consistent_same w w1 Hcons Hh Hb Hm) as [Hcons1 Hn1].
  destruct (ensure_capacity_consistent _ _ _ _ _ Hcons1 Hcap) as [Hcons2 Hn2].
  destruct (recv_body_consistent _ _ _ _ _ _ _ _ _ Hcons2 Hbody) as [Hcons3 Hn3].
  destruct full; [| by subst w'].
  destruct H as (c3 & Hc3 & ->).
  destruct (proj1 (proj2 Hcons) _ _ Hc) as [HR _].
  destruct (proj1 (proj2 Hcons3) _ _ Hc3) as [HR3 _].
  apply (consistent_assign w3 pContext c3); [done | done | done | exact HR3 |].
  simpl. eauto using plain_pointer_mono, no_new_contexts_trans.
Qed.

Lemma ResetContextObjects_consistent pContext w w' :
  consistent w → ResetContextObjects pContext w = Ok w' → consistent w'.
Proof.
  intros Hcons (c0 & w1 & c & v & Hc0 & Hfree & Hc & Hv & H)%ResetContextObjects_Ok.
  destruct (proj1 (proj2 Hcons) _ _ Hc0) as [_ HM0].
  destruct (free_consistent _ _ _ Hcons HM0 Hfree) as [Hcons1 Hn1].
  destruct (proj1 (proj2 Hcons1) _ _ Hc) as [HR HM].
  destruct (consistent_assign_step w1 pContext c (averaged c v) Hcons1 Hc)
    as [HconsA HnA]; [done | done | done |].
  destruct (below_ratio _ _); [| by subst w'].
  destruct H as (w2 & Hfree2 & Hc2 & ->).
  destruct (free_consistent _ _ _ HconsA (plain_pointer_mono _ _ _ HR HnA) Hfree2)
    as [Hcons2 Hn2].
  destruct (proj1 (proj2 Hcons2) _ _ Hc2) as [HR2 HM2].
  destruct (consistent_assign_step w2 pContext (averaged c v)
              (with_RecvBufferLen (Z.max v RecvBufferSize) (averaged c v)) Hcons2 Hc2)
    as [HconsB HnB]; [done | done | done |].
  set (wB := set_heap _ w2) in *.
  destruct (alloc_bytes_consistent (replicate (Z.to_nat (Z.max v RecvBufferSize)) x00)
              wB HconsB) as (HconsC & HnC & HpC).
  fold (malloc (Z.max v RecvBufferSize) wB) in HconsC, HnC, HpC.
  assert (HcB : heap (malloc (Z.max v RecvBufferSize) wB).2 !! pContext
                = Some (Psco (with_RecvBufferLen (Z.max v RecvBufferSize) (averaged c v)))).
  { simpl. rewrite lookup_insert_ne, lookup_insert_eq; [done |].
    apply (wf_heap_positive _ _ _ (proj1 Hcons2)) in Hc2 as ?.
    apply (proj1 Hcons2) in Hc2. lia. }
  apply (consistent_assign _ pContext _ _ HconsC HcB); [done | exact HpC |].
  simpl. eauto using plain_pointer_mono, no_new_contexts_trans.
Qed.

Lemma SendResponse_consistent write_ret pContext w w' :
  consistent w → SendResponse write_ret pContext w = Ok w' → consistent w'.
Proof.
  intros Hcons. unfold SendResponse.
  intros (c & Hc & H)%bind_Ok. apply bind_Ok in H as (c' & Hc' & H).
  cbn [sys_write] in H. apply ResetContextObjects_consistent in H; [done |].
  by apply (consistent_same w).
Qed.

(** A new connection: the context and its buffer take two fresh
    addresses, and the registry may gain the entry of the descriptor. *)
Lemma SocketAcceptThreadProc_consistent accepts w returned w' :
  consistent w → SocketAcceptThreadProc accepts w = Ok (returned, w') → consistent w'.
Proof.
  revert w. induction accepts as [| [s e] rest IH]; intros w Hcons.
  { by intros [= <- <-]. }
  rewrite SocketAcceptThreadProc_cons. cbv zeta.
  destruct (s =? -1); [destruct (e =? EINVAL); [by intros [= <- <-] | by apply IH] |].
  rewrite AllocatePerSocketContextObject_eq. cbn [fst snd].
  intros (w2 & Hadd & H)%bind_Ok. apply bind_Ok in H as (w3 & Henter & H).
  apply (IH w3); [| done]. clear H IH.
  unfold AddPerSocketContextObject in Hadd.
  apply bind_Ok in Hadd as (c & Hc%load_psco_Ok & [= <-]).
  simpl in Hc. rewrite lookup_insert_eq in Hc. injection Hc as <-.
  unfold EnterEventMonitor in Henter.
  apply bind_Ok in Henter as (c' & _ & [= <-]).
  destruct Hcons as ([Hbrk Hwf] & Hbuf & Hreg).
  assert (Hfresh : ∀ a, brk w ≤ a → heap w !! a = None).
  { intros a Ha. destruct (heap w !! a) eqn:Hl; [| done]. apply Hwf in Hl. lia. }
  assert (Hold : ∀ a o, heap w !! a = Some o →
                        (<[brk w := Psco (mkPsco s (brk w + 1) RecvBufferSize
                                            RecvBufferSize 0 0 0 Handshake)]>
                           (<[brk w + 1 := Bytes (replicate (Z.to_nat RecvBufferSize) x00)]>
                              (<[brk w := Psco (mkPsco 0 0 0 0 0 0 0 false)]> (heap w))))
                          !! a = Some o).
  { intros a o Ha. apply Hwf in Ha as Hlt.
    by rewrite !lookup_insert_ne by lia. }
  assert (Hplain : ∀ x, x < brk w ∧ ¬ is_context w x →
            x < brk w + 1 + 1 ∧
            ¬ ∃ cx, (<[brk w := Psco (mkPsco s (brk w + 1) RecvBufferSize
                                        RecvBufferSize 0 0 0 Handshake)]>
                       (<[brk w + 1 := Bytes (replicate (Z.to_nat RecvBufferSize) x00)]>
                          (<[brk w := Psco (mkPsco 0 0 0 0 0 0 0 false)]> (heap w))))
                      !! x = Some (Psco cx)).
  { intros x [Hx Hn]. split; [lia |]. intros [cx Hcx].
    rewrite !lookup_insert_ne in Hcx by lia. apply Hn. by exists cx. }
  split; [| split].
  - split; [simpl; lia |]. intros a o Ha. simpl in Ha. simpl.
    apply lookup_insert_Some in Ha as [[<- _] | [_ Ha]]; [lia |].
    apply lookup_insert_Some in Ha as [[<- _] | [_ Ha]]; [lia |].
    apply lookup_insert_Some in Ha as [[<- _] | [_ Ha]]; [lia |].
    apply Hwf in Ha. lia.
  - intros q cq Hq. simpl in Hq. unfold plain_pointer, is_context. simpl.
    apply lookup_insert_Some in Hq as [[<- [= <-]] | [Hq1 Hq]].
    + simpl. split.
      * split; [lia |]. intros [cx Hcx].
        rewrite lookup_insert_ne, lookup_insert_eq in Hcx by lia. done.
      * apply Hplain. split; [lia |]. intros [cx Hcx].
        specialize (Hfresh 0). destruct (heap w !! 0) eqn:H0; [| done].
        apply Hwf in H0. lia.
    + apply lookup_insert_Some in Hq as [[_ [=]] | [Hq2 Hq]].
      apply lookup_insert_Some in Hq as [[? _] | [_ Hq]]; [done |].
      destruct (Hbuf q cq Hq). split; by apply Hplain.
  - intros d q Hd. simpl in Hd. simpl. unfold std_map_insert in Hd.
    assert (Hkeep : psco_map w !! d = Some q →
              q = 0 ∨ ∃ cq, (<[brk w := Psco (mkPsco s (brk w + 1) RecvBufferSize
                                          RecvBufferSize 0 0 0 Handshake)]>
                       (<[brk w + 1 := Bytes (replicate (Z.to_nat RecvBufferSize) x00)]>
                          (<[brk w := Psco (mkPsco 0 0 0 0 0 0 0 false)]> (heap w))))
                      !! q = Some (Psco cq) ∧ fd cq = d).
    { intros Hq. destruct (Hreg d q Hq) as [-> | (cq & Hcq & Hfd)]; [by left | right].
      exists cq. split; [by apply Hold | done]. }
    destruct (psco_map w !! s) eqn:Hs; [by apply Hkeep |].
    apply lookup_insert_Some in Hd as [[<- <-] | [_ Hd]]; [right | by apply Hkeep].
    eexists. rewrite lookup_insert_eq. split; [done |]. done.
Qed.

Lemma run_call_consistent k w w' :
  consistent w → run_call k w = Ok w' → consistent w'.
Proof.
  intros Hcons. destruct k as [d | d evs | moves budget p | p response | wr p | p | p l];
    [intros ([returned w1] & Haccept & [= <-])%bind_Ok;
     by eapply SocketAcceptThreadProc_consistent | simpl..].
  - destruct (bool_decide _); intros [= <-]; [| done]. by apply (consistent_same w).
  - intros ([full w1] & Hrecv & [= <-])%bind_Ok. by eapply ProcessRecv_consistent.
  - intros (c & Hc & ->)%assign_Ok.
    destruct (alloc_bytes_consistent response w Hcons) as (Hcons1 & Hn1 & Hp1).
    destruct (proj1 (proj2 Hcons1) _ _ Hc) as [HR _].
    by apply (consistent_assign _ p c).
  - by apply SendResponse_consistent.
  - by apply ResetContextObjects_consistent.
  - intros Hclose. by apply (CloseClientConnection_consistent _ _ _ _ Hcons Hclose).
Qed.

End Runs.

Lemma consistent_boot : consistent boot.
Proof.
  split; [apply (bool_decide_unpack _); vm_compute; exact I |]. split.
  - intros q c Hq. simpl in Hq. by rewrite lookup_empty in Hq.
  - intros d p Hd. simpl in Hd. by rewrite lookup_empty in Hd.
Qed.

(** A lookup in the registry after a run: what [GetPerSocketContextObject]
    returns for a descriptor is NULL or the address of a live context of
    that descriptor, never a context that was released or one of another
    descriptor. *)
Theorem lookup_after_run_is_live `{ProtocolConstants}
    (ks : list call) (w w' : World) (d : Z) :
  consistent w → run_calls ks w = Ok w' →
  (GetPerSocketContextObject d w').1 = 0 ∨
  ∃ c, heap (GetPerSocketContextObject d w').2 !! (GetPerSocketContextObject d w').1
       = Some (Psco c) ∧ fd c = d.
Proof.
  intros Hcons Hrun.
  assert (Hcons' : consistent w').
  { revert w Hcons Hrun. induction ks as [| k ks IH]; intros w Hcons; simpl.
    - by intros [= <-].
    - intros (w1 & Hk & Hks)%bind_Ok. apply (IH w1); [| done].
      by eapply run_call_consistent. }
  destruct Hcons' as (_ & _ & Hreg).
  unfold GetPerSocketContextObject, std_map_index.
  destruct (psco_map w' !! d) as [p |] eqn:Hd; simpl; [| by left].
  destruct (Hreg d p Hd) as [-> | (c & Hc & Hfd)]; [by left | right; eauto].
Qed.

Lemma lookup_after_run_is_live_witness :
  (GetPerSocketContextObject 7 (after_dialogue 40)).1 = 0 ∨
  ∃ c, heap (GetPerSocketContextObject 7 (after_dialogue 40)).2
         !! (GetPerSocketContextObject 7 (after_dialogue 40)).1 = Some (Psco c) ∧ fd c = 7.
Proof.
  apply (lookup_after_run_is_live (H := small) (dialogue 40) boot (after_dialogue 40) 7).
  - exact consistent_boot.
  - vm_compute. reflexivity.
Defined.

(** [GetPerSocketContextObject] keeps the registry consistent although it
    writes to it: the entry it adds for an unknown descriptor is NULL. *)
Theorem GetPerSocketContextObject_consistent (d : Z) (w : World) :
  consistent w → consistent (GetPerSocketContextObject d w).2.
Proof.
  intros (Hwf & Hbuf & Hreg). unfold GetPerSocketContextObject, std_map_index.
  destruct (psco_map w !! d) as [p |] eqn:Hd; simpl.
  - split; [done |]. split; [done |]. intros d' q Hq. simpl in Hq. by apply Hreg.
  - split; [done |]. split; [done |]. intros d' q Hq. simpl in Hq.
    apply lookup_insert_Some in Hq as [[<- <-] | [_ Hq]]; [by left | by apply Hreg].
Qed.

Lemma GetPerSocketContextObject_consistent_witness :
  consistent (GetPerSocketContextObject 9 boot).2.
Proof. apply (GetPerSocketContextObject_consistent 9 boot). exact consistent_boot. Defined.
